(** * twoway.js: topic subscriptions multiplexed over one websocket

    A shallow embedding of [src/twoway.js] (with the part of
    [src/wshelper.js] it relies on) and the properties of its connection
    state machine, message router and subscription registry.

    Layout:
    - [JSObject]: a JavaScript object used as a string-keyed map, with the
      enumeration order of [for ... in];
    - [Json]: decoded JSON values and [JSON.parse];
    - [TwoWay]: the module-level variables, the platform the module talks
      to (sockets, timers, the REST promise), the functions of the file as
      computations over both, and the event loop that runs them;
    - [Prototype]: the functions that test [in], on every property
      name, with the prototype chain of the objects [{}] creates;
    - [TwoWayMore]: the vocabulary of the later theorems;
    - [JSObjectFacts], [TwoWayProps], [TwoWayMoreProps]: the lemmas and
      the theorems. *)

From Stdlib Require Import String Ascii List Bool Arith ZArith NArith Lia.
From Stdlib Require Import Permutation Sorted.
Import ListNotations.
Open Scope string_scope.
Open Scope list_scope.

Set Implicit Arguments.

(* ================================================================== *)
(** * JavaScript objects used as maps *)
(* ================================================================== *)

Module JSObject.

(** The own properties of an object literal [{}] that only ever receives
    string keys through [o[k] = v] and loses them through [delete o[k]].
    Properties are kept in creation order, one entry per key.  The names
    the object inherits from [Object.prototype] are not part of the map:
    [has] and [get] are [k in o] and [o[k]] for a name that
    [Object.prototype] does not define, and [Prototype.in_chain] below is
    the operator on every name. *)
Definition t (A : Type) : Type := list (string * A).

Section Ops.
Context {A : Type}.

Definition empty_obj : t A := [].

(** [k in o] among the own properties ([Object.hasOwn(o, k)]) *)
Fixpoint has (k : string) (o : t A) : bool :=
  match o with
  | [] => false
  | (k', _) :: r => if String.eqb k k' then true else has k r
  end.

(** [o[k]]; [None] is [undefined] *)
Fixpoint get (k : string) (o : t A) : option A :=
  match o with
  | [] => None
  | (k', v) :: r => if String.eqb k k' then Some v else get k r
  end.

(** [o[k] = v]: an existing property keeps its place, a new one goes
    last. *)
Fixpoint set (k : string) (v : A) (o : t A) : t A :=
  match o with
  | [] => [(k, v)]
  | (k', v') :: r =>
      if String.eqb k k' then (k, v) :: r else (k', v') :: set k v r
  end.

(** [delete o[k]] *)
Fixpoint delete (k : string) (o : t A) : t A :=
  match o with
  | [] => []
  | (k', v') :: r =>
      if String.eqb k k' then r else (k', v') :: delete k r
  end.

Definition own_keys (o : t A) : list string := map fst o.

(** [empty(o)] of [@ouroboros/tools] on an object: no enumerable key. *)
Definition is_empty (o : t A) : bool :=
  match o with [] => true | _ :: _ => false end.

(** One entry per key. *)
Definition wf (o : t A) : Prop := NoDup (own_keys o).

End Ops.

(** ** Enumeration order

    [for (k in o)] visits the keys that are array indices (canonical
    decimal numerals below 2^32 - 1) first, in ascending numeric order,
    and then every other key in creation order. *)

Definition digit_of (c : ascii) : option N :=
  let n := N_of_ascii c in
  if (N.leb 48 n && N.leb n 57)%bool then Some (n - 48)%N else None.

Fixpoint digits_value (s : string) (acc : N) : option N :=
  match s with
  | EmptyString => Some acc
  | String c r =>
      match digit_of c with
      | Some d => digits_value r (10 * acc + d)%N
      | None => None
      end
  end.

Definition array_index (k : string) : option N :=
  match k with
  | EmptyString => None
  | String c r =>
      if Ascii.eqb c "0"%char
      then match r with EmptyString => Some 0%N | _ => None end
      else match digits_value k 0 with
           | Some n => if N.leb n 4294967294 then Some n else None
           | None => None
           end
  end.

Definition is_index (k : string) : bool :=
  match array_index k with Some _ => true | None => false end.

Definition index_value (k : string) : N :=
  match array_index k with Some n => n | None => 0%N end.

Fixpoint insert_index (k : string) (l : list string) : list string :=
  match l with
  | [] => [k]
  | k' :: r =>
      if N.leb (index_value k) (index_value k')
      then k :: l else k' :: insert_index k r
  end.

Fixpoint sort_indices (l : list string) : list string :=
  match l with
  | [] => []
  | k :: r => insert_index k (sort_indices r)
  end.

Definition index_le (a b : string) : Prop :=
  (index_value a <= index_value b)%N.

Definition for_in_keys {A : Type} (o : t A) : list string :=
  sort_indices (filter is_index (own_keys o))
    ++ filter (fun k => negb (is_index k)) (own_keys o).

End JSObject.

(* ================================================================== *)
(** * JSON values and [JSON.parse] *)
(* ================================================================== *)

Module Json.

Local Open Scope nat_scope.
Local Set Warnings "-register-all".

(** A decoded JSON text.  A number keeps the numeral it was written with:
    the double it denotes is not computed.  Strings are byte strings. *)
Inductive value : Type :=
| JNull
| JBool (b : bool)
| JNum (numeral : string)
| JStr (s : string)
| JArr (items : list value)
| JObj (members : JSObject.t value).

(** ** Lexer *)

Inductive token : Type :=
| TLBrace | TRBrace | TLBracket | TRBracket | TColon | TComma
| TString (s : string)
| TNumber (numeral : string)
| TTrue | TFalse | TNull.

(** Why a text is not decoded: [SyntaxError] is the exception
    [JSON.parse] throws; [OutsideModel] marks a text this embedding does
    not interpret (a [\u] escape above U+007F, which has no single-byte
    image). *)
Inductive parse_error : Type := SyntaxError | OutsideModel.

Definition is_ws (c : ascii) : bool :=
  let n := nat_of_ascii c in
  (n =? 32) || (n =? 9) || (n =? 10) || (n =? 13).

(** The quotation mark, U+0022. *)
Definition dquote : ascii := ascii_of_nat 34.

Definition is_digit (c : ascii) : bool :=
  let n := nat_of_ascii c in (48 <=? n) && (n <=? 57).

Definition punctuation (c : ascii) : option token :=
  if Ascii.eqb c "{" then Some TLBrace
  else if Ascii.eqb c "}" then Some TRBrace
  else if Ascii.eqb c "[" then Some TLBracket
  else if Ascii.eqb c "]" then Some TRBracket
  else if Ascii.eqb c ":" then Some TColon
  else if Ascii.eqb c "," then Some TComma
  else None.

(** The number grammar (an optional minus sign; a zero, or a non-zero
    digit and more digits; an optional fraction of a dot and digits; an
    optional exponent of [e] or [E], a sign and digits) as an automaton
    over the characters of the numeral. *)
Inductive num_state : Type :=
| NStart | NMinus | NZero | NInt | NDot | NFrac | NE | NESign | NExp.

Definition num_step (q : num_state) (c : ascii) : option num_state :=
  let d := is_digit c in
  let z := Ascii.eqb c "0" in
  let dot := Ascii.eqb c "." in
  let e := Ascii.eqb c "e" || Ascii.eqb c "E" in
  let sign := Ascii.eqb c "+" || Ascii.eqb c "-" in
  match q with
  | NStart => if Ascii.eqb c "-" then Some NMinus
              else if z then Some NZero else if d then Some NInt else None
  | NMinus => if z then Some NZero else if d then Some NInt else None
  | NZero => if dot then Some NDot else if e then Some NE else None
  | NInt => if d then Some NInt else if dot then Some NDot
            else if e then Some NE else None
  | NDot => if d then Some NFrac else None
  | NFrac => if d then Some NFrac else if e then Some NE else None
  | NE => if sign then Some NESign else if d then Some NExp else None
  | NESign => if d then Some NExp else None
  | NExp => if d then Some NExp else None
  end.

Fixpoint num_run (q : num_state) (s : string) : option num_state :=
  match s with
  | EmptyString => Some q
  | String c r =>
      match num_step q c with Some q' => num_run q' r | None => None end
  end.

Definition valid_number (s : string) : bool :=
  match num_run NStart s with
  | Some (NZero | NInt | NFrac | NExp) => true
  | _ => false
  end.

(** A maximal run of characters that are neither white space, nor
    punctuation, nor a quote: a literal name or a numeral. *)
Definition word_token (w : string) : option token :=
  if String.eqb w "true" then Some TTrue
  else if String.eqb w "false" then Some TFalse
  else if String.eqb w "null" then Some TNull
  else if valid_number w then Some (TNumber w)
  else None.

Fixpoint rev_string (acc : list ascii) (tail : string) : string :=
  match acc with
  | [] => tail
  | c :: r => rev_string r (String c tail)
  end.

Definition hex_digit (c : ascii) : option nat :=
  let n := nat_of_ascii c in
  if (48 <=? n) && (n <=? 57) then Some (n - 48)
  else if (65 <=? n) && (n <=? 70) then Some (n - 55)
  else if (97 <=? n) && (n <=? 102) then Some (n - 87)
  else None.

Definition escape_char (c : ascii) : option ascii :=
  if Ascii.eqb c dquote then Some dquote
  else if Ascii.eqb c "\" then Some "\"%char
  else if Ascii.eqb c "/" then Some "/"%char
  else if Ascii.eqb c "b" then Some (ascii_of_nat 8)
  else if Ascii.eqb c "f" then Some (ascii_of_nat 12)
  else if Ascii.eqb c "n" then Some (ascii_of_nat 10)
  else if Ascii.eqb c "r" then Some (ascii_of_nat 13)
  else if Ascii.eqb c "t" then Some (ascii_of_nat 9)
  else None.

Inductive lex_state : Type :=
| LIdle
| LWord (acc : list ascii)
| LStr (acc : list ascii)
| LEsc (acc : list ascii)
| LUni (acc : list ascii) (code : nat) (todo : nat).

Definition close_word (acc : list ascii) : parse_error + list token :=
  match word_token (rev_string acc EmptyString) with
  | Some t => inr [t]
  | None => inl SyntaxError
  end.

(** One character: the next state and the tokens completed by it. *)
Definition lex_step (q : lex_state) (c : ascii)
  : parse_error + (lex_state * list token) :=
  let idle (c : ascii) : parse_error + (lex_state * list token) :=
    if is_ws c then inr (LIdle, [])
    else if Ascii.eqb c dquote then inr (LStr [], [])
    else match punctuation c with
         | Some t => inr (LIdle, [t])
         | None => inr (LWord [c], [])
         end in
  match q with
  | LIdle => idle c
  | LWord acc =>
      if is_ws c || Ascii.eqb c dquote
         || match punctuation c with Some _ => true | None => false end
      then match close_word acc, idle c with
           | inr ts, inr (q', ts') => inr (q', ts ++ ts')
           | inl e, _ => inl e
           | _, inl e => inl e
           end
      else inr (LWord (c :: acc), [])
  | LStr acc =>
      if Ascii.eqb c dquote then inr (LIdle, [TString (rev_string acc EmptyString)])
      else if Ascii.eqb c "\" then inr (LEsc acc, [])
      else if nat_of_ascii c <? 32 then inl SyntaxError
      else inr (LStr (c :: acc), [])
  | LEsc acc =>
      if Ascii.eqb c "u" then inr (LUni acc 0 4, [])
      else match escape_char c with
           | Some c' => inr (LStr (c' :: acc), [])
           | None => inl SyntaxError
           end
  | LUni acc code todo =>
      match hex_digit c with
      | None => inl SyntaxError
      | Some h =>
          let code' := 16 * code + h in
          match todo with
          | 1 => if code' <? 128
                 then inr (LStr (ascii_of_nat code' :: acc), [])
                 else inl OutsideModel
          | _ => inr (LUni acc code' (pred todo), [])
          end
      end
  end.

Fixpoint lex (q : lex_state) (s : string) : parse_error + list token :=
  match s with
  | EmptyString =>
      match q with
      | LIdle => inr []
      | LWord acc => close_word acc
      | _ => inl SyntaxError
      end
  | String c r =>
      match lex_step q c with
      | inl e => inl e
      | inr (q', ts) =>
          match lex q' r with
          | inl e => inl e
          | inr ts' => inr (ts ++ ts')
          end
      end
  end.

(** ** Parser: a stack of the containers still open *)

Inductive frame : Type :=
| FArr (items_rev : list value)
| FObj (members : JSObject.t value) (key : string).

Inductive expect : Type :=
| XValue                    (* a value *)
| XValueOrClose             (* just after an opening bracket *)
| XKeyOrClose (members : JSObject.t value)   (* just after an opening brace *)
| XKey (members : JSObject.t value)          (* after a comma in an object *)
| XColon (members : JSObject.t value) (key : string)
| XNext                     (* after a value inside a container *)
| XDone (v : value).

Definition pstate : Type := (expect * list frame)%type.

(** A value is complete: it goes into the innermost open container. *)
Definition reduce (v : value) (stack : list frame) : pstate :=
  match stack with
  | [] => (XDone v, [])
  | FArr items :: st => (XNext, FArr (v :: items) :: st)
  | FObj members key :: st =>
      (XNext, FObj (JSObject.set key v members) EmptyString :: st)
  end.

Definition start_value (t : token) (stack : list frame) : option pstate :=
  match t with
  | TLBrace => Some (XKeyOrClose [], stack)
  | TLBracket => Some (XValueOrClose, FArr [] :: stack)
  | TString s => Some (reduce (JStr s) stack)
  | TNumber n => Some (reduce (JNum n) stack)
  | TTrue => Some (reduce (JBool true) stack)
  | TFalse => Some (reduce (JBool false) stack)
  | TNull => Some (reduce JNull stack)
  | TRBrace | TRBracket | TColon | TComma => None
  end.

Definition parse_step (p : pstate) (t : token) : option pstate :=
  let '(x, stack) := p in
  match x with
  | XValue => start_value t stack
  | XValueOrClose =>
      match t, stack with
      | TRBracket, FArr items :: st => Some (reduce (JArr (rev items)) st)
      | _, _ => start_value t stack
      end
  | XKeyOrClose members =>
      match t with
      | TRBrace => Some (reduce (JObj members) stack)
      | TString k => Some (XColon members k, stack)
      | _ => None
      end
  | XKey members =>
      match t with
      | TString k => Some (XColon members k, stack)
      | _ => None
      end
  | XColon members k =>
      match t with
      | TColon => Some (XValue, FObj members k :: stack)
      | _ => None
      end
  | XNext =>
      match t, stack with
      | TComma, FArr _ :: _ => Some (XValue, stack)
      | TRBracket, FArr items :: st => Some (reduce (JArr (rev items)) st)
      | TComma, FObj members _ :: st => Some (XKey members, st)
      | TRBrace, FObj members _ :: st => Some (reduce (JObj members) st)
      | _, _ => None
      end
  | XDone _ => None
  end.

Fixpoint parse_tokens (p : pstate) (ts : list token) : option value :=
  match ts with
  | [] => match p with (XDone v, []) => Some v | _ => None end
  | t :: r =>
      match parse_step p t with
      | Some p' => parse_tokens p' r
      | None => None
      end
  end.

(** [JSON.parse(text)] *)
Definition JSON_parse (text : string) : parse_error + value :=
  match lex LIdle text with
  | inl e => inl e
  | inr ts =>
      match parse_tokens (XValue, []) ts with
      | Some v => inr v
      | None => inl SyntaxError
      end
  end.

(** ** The conversions the router applies to decoded values

    A JavaScript value here is a decoded JSON value or [undefined]
    ([None]). *)

Definition jsval : Type := option value.

(** [v.name] for the property names the router reads ([error], [msg],
    [code], [service], [key], [data]): none of them is defined on a
    primitive, an array or a prototype, so only an object can hold one.
    Reading a property of [null] throws: the outer [None]. *)
Definition prop (v : value) (name : string) : option jsval :=
  match v with
  | JNull => None
  | JObj members => Some (JSObject.get name members)
  | JBool _ | JNum _ | JStr _ | JArr _ => Some None
  end.

(** A numeral that denotes an integer of magnitude at most 2^53 - 1 and
    is written without fraction or exponent: the decimal string of the
    number it denotes.  Other numerals need the double they round to and
    are left uninterpreted. *)
Definition integer_numeral (n : string) : option string :=
  let digits := match n with String "-" r => r | _ => n end in
  match JSObject.digits_value digits 0%N with
  | Some m =>
      if valid_number n && N.leb m 9007199254740991
      then Some (if N.eqb m 0 then "0"%string else n)
      else None
  | None => None
  end.

(** [ToString(v)] on [undefined] and on the primitives; [None] where the
    conversion is left uninterpreted (arrays, objects, other numerals). *)
Definition to_string (v : jsval) : option string :=
  match v with
  | None => Some "undefined"%string
  | Some JNull => Some "null"%string
  | Some (JBool true) => Some "true"%string
  | Some (JBool false) => Some "false"%string
  | Some (JStr s) => Some s
  | Some (JNum n) => integer_numeral n
  | Some (JArr _) | Some (JObj _) => None
  end.

(** [ToBoolean(v)]; [None] on a numeral left uninterpreted. *)
Definition truthy (v : jsval) : option bool :=
  match v with
  | None | Some JNull => Some false
  | Some (JBool b) => Some b
  | Some (JStr s) => Some (negb (String.eqb s EmptyString))
  | Some (JNum n) =>
      match integer_numeral n with
      | Some d => Some (negb (String.eqb d "0"))
      | None => None
      end
  | Some (JArr _) | Some (JObj _) => Some true
  end.

(** A JSON text written with apostrophes in place of quotation marks. *)
Fixpoint text (s : string) : string :=
  match s with
  | EmptyString => EmptyString
  | String c r => String (if Ascii.eqb c "'" then dquote else c) (text r)
  end.

End Json.

(* ================================================================== *)
(** * The module [twoway.js] *)
(* ================================================================== *)

Module TwoWay.

Import Json.

(** ** Data *)

(** A callback is a function reference: [===] compares references, and
    calling one is an observable action of the module (the callee is
    application code that returns normally and does not call back into
    this module while a frame is being dispatched). *)
Definition Callback : Type := nat.

(** The handle [setInterval] returns: a positive number, hence truthy. *)
Definition TimerId : Type := positive.

Definition SocketId : Type := nat.

(** The values of [__socket]: [null], [false], or a [WebSocket]. *)
Inductive SocketRef : Type :=
| SockNull
| SockFalse
| SockObj (id : SocketId).

(** [__services]: service, then key, then the list of callbacks. *)
Definition Registry : Type := JSObject.t (JSObject.t (list Callback)).

(** The module-level variables. *)
Record Vars : Type := mkVars {
  __ping : option TimerId;
  __close : bool;
  __cookie : string;
  __socket : SocketRef;
  __url : string;
  __services : Registry
}.

(** The object literal handed to [JSON.stringify] for one frame; the
    field [_type] is the constructor. *)
Inductive Message : Type :=
| MsgConnect (key : jsval)
| MsgTrack (service key : string)
| MsgUntrack (service key : string)
| MsgPing.

Inductive Payload : Type :=
| One (m : Message)
| Batch (l : list Message).

(** [ev.data] of a [MessageEvent]: text, or binary data. *)
Inductive Data : Type :=
| DString (s : string)
| DBlob
| DArrayBuffer.

Definition typeof (d : Data) : string :=
  match d with
  | DString _ => "string"
  | DBlob | DArrayBuffer => "object"
  end.

(** What the module does to its collaborators, in order. *)
Inductive Effect : Type :=
| Send (sock : SocketId) (p : Payload)
| Close (sock : SocketId) (code : Z) (reason : string)
| Trigger (name msg : string)
| Invoke (f : Callback) (arg : jsval)
| RestRead (service noun : string)
| NewWebSocket (sock : SocketId) (url cookie : string)
| SetInterval (h : TimerId) (ms : Z)
| ClearInterval (h : option TimerId)
| SetTimeout (ms : Z).

(** ** The platform

    One [WebSocket] object: its [readyState] (0 connecting, 1 open,
    2 closing, 3 closed), the handshake key captured by the [open]
    callback wshelper was given, and whether the backend's [authorized]
    has been delivered on it (kept by the platform for the statements
    below; the module never reads it). *)
Record WebSocket : Type := mkWebSocket {
  readyState : Z;
  connect_key : jsval;
  authorized : bool
}.

Record Platform : Type := mkPlatform {
  has_WebSocket : bool;          (* typeof WebSocket === 'function' *)
  sockets : list WebSocket;      (* every socket created, by id *)
  intervals : list TimerId;      (* running setInterval(_ping, ...) timers *)
  next_timer : TimerId;
  timeouts : nat;                (* pending setTimeout(_openSocket, ...) *)
  requests : nat                 (* pending rest.read promises *)
}.

Record World : Type := mkWorld {
  vars : Vars;
  platform : Platform
}.

Definition with_ping (v : option TimerId) (x : Vars) : Vars :=
  mkVars v (__close x) (__cookie x) (__socket x) (__url x) (__services x).
Definition with_close (v : bool) (x : Vars) : Vars :=
  mkVars (__ping x) v (__cookie x) (__socket x) (__url x) (__services x).
Definition with_socket (v : SocketRef) (x : Vars) : Vars :=
  mkVars (__ping x) (__close x) (__cookie x) v (__url x) (__services x).
Definition with_url (v : string) (x : Vars) : Vars :=
  mkVars (__ping x) (__close x) (__cookie x) (__socket x) v (__services x).
Definition with_services (v : Registry) (x : Vars) : Vars :=
  mkVars (__ping x) (__close x) (__cookie x) (__socket x) (__url x) v.
Definition with_cookie (v : string) (x : Vars) : Vars :=
  mkVars (__ping x) (__close x) v (__socket x) (__url x) (__services x).

Definition with_sockets (v : list WebSocket) (p : Platform) : Platform :=
  mkPlatform (has_WebSocket p) v (intervals p) (next_timer p)
             (timeouts p) (requests p).
Definition with_intervals (v : list TimerId) (p : Platform) : Platform :=
  mkPlatform (has_WebSocket p) (sockets p) v (next_timer p)
             (timeouts p) (requests p).
Definition with_next_timer (v : TimerId) (p : Platform) : Platform :=
  mkPlatform (has_WebSocket p) (sockets p) (intervals p) v
             (timeouts p) (requests p).
Definition with_timeouts (v : nat) (p : Platform) : Platform :=
  mkPlatform (has_WebSocket p) (sockets p) (intervals p) (next_timer p)
             v (requests p).
Definition with_requests (v : nat) (p : Platform) : Platform :=
  mkPlatform (has_WebSocket p) (sockets p) (intervals p) (next_timer p)
             (timeouts p) v.

(** The variables as the file initialises them, on a fresh platform. *)
Definition init_vars : Vars :=
  mkVars None true EmptyString SockNull EmptyString JSObject.empty_obj.

Definition init_platform (ws : bool) : Platform :=
  mkPlatform ws [] [] 1%positive 0 0.

Definition boot (ws : bool) : World := mkWorld init_vars (init_platform ws).

Definition init_world : World := boot true.

(** ** Computations

    A function of the file runs on the world and ends by returning,
    by throwing, or at a conversion this embedding leaves uninterpreted
    ([Outside]); the effects so far are kept in each case. *)

Inductive Exn : Type := TypeError | SyntaxError.

Inductive Completion (A : Type) : Type :=
| Return (a : A)
| Throw (e : Exn)
| Outside.
Arguments Throw {A} e.
Arguments Outside {A}.

Definition M (A : Type) : Type :=
  World -> Completion A * World * list Effect.

Definition ret {A} (a : A) : M A := fun w => (Return a, w, []).

Definition bind {A B} (m : M A) (k : A -> M B) : M B :=
  fun w =>
    match m w with
    | (Return a, w1, e1) =>
        let '(c, w2, e2) := k a w1 in (c, w2, e1 ++ e2)
    | (Throw x, w1, e1) => (Throw x, w1, e1)
    | (Outside, w1, e1) => (Outside, w1, e1)
    end.

Notation "x <- m ;; k" := (bind m (fun x => k))
  (at level 61, m at next level, right associativity).
Notation "m ;; k" := (bind m (fun _ => k))
  (at level 61, right associativity).

Definition throw {A} (e : Exn) : M A := fun w => (Throw e, w, []).
Definition outside {A} : M A := fun w => (Outside, w, []).
Definition emit (e : Effect) : M unit := fun w => (Return tt, w, [e]).
Definition read {A} (f : Vars -> A) : M A := fun w => (Return (f (vars w)), w, []).
Definition write (f : Vars -> Vars) : M unit :=
  fun w => (Return tt, mkWorld (f (vars w)) (platform w), []).
Definition env {A} (f : Platform -> A) : M A :=
  fun w => (Return (f (platform w)), w, []).
Definition update (f : Platform -> Platform) : M unit :=
  fun w => (Return tt, mkWorld (vars w) (f (platform w)), []).
Definition when (b : bool) (m : M unit) : M unit := if b then m else ret tt.

Definition world_of {A} (r : Completion A * World * list Effect) : World :=
  snd (fst r).
Definition effects_of {A} (r : Completion A * World * list Effect)
  : list Effect := snd r.
Definition completion_of {A} (r : Completion A * World * list Effect)
  : Completion A := fst (fst r).

(** ** Platform operations *)

Definition timer_eqb (a b : TimerId) : bool := Pos.eqb a b.

(** [clearInterval(h)]: stops [h] if it runs; any other argument,
    [null] included, is ignored. *)
Definition stop_timer (h : option TimerId) (p : Platform) : Platform :=
  match h with
  | Some t =>
      with_intervals (filter (fun x => negb (timer_eqb x t)) (intervals p)) p
  | None => p
  end.

Definition clearInterval (h : option TimerId) : M unit :=
  emit (ClearInterval h) ;;
  update (stop_timer h).

(** [setInterval(_ping, ms)] *)
Definition setInterval (ms : Z) : M TimerId :=
  h <- env next_timer ;;
  update (fun p =>
    with_next_timer (Pos.succ h) (with_intervals (intervals p ++ [h]) p)) ;;
  emit (SetInterval h ms) ;;
  ret h.

(** [setTimeout(_openSocket, ms)] *)
Definition setTimeout (ms : Z) : M unit :=
  update (fun p => with_timeouts (S (timeouts p)) p) ;;
  emit (SetTimeout ms).

(** [rest.read(service, noun, {})]: the promise stays pending until the
    platform settles it. *)
Definition rest_read (service noun : string) : M unit :=
  update (fun p => with_requests (S (requests p)) p) ;;
  emit (RestRead service noun).

Definition ready_state (id : SocketId) (p : Platform) : Z :=
  match nth_error (sockets p) id with
  | Some s => readyState s
  | None => 3%Z
  end.

Fixpoint set_nth {A} (n : nat) (f : A -> A) (l : list A) : list A :=
  match l, n with
  | [], _ => []
  | x :: r, O => f x :: r
  | x :: r, S m => x :: set_nth m f r
  end.

Definition sock_send (id : SocketId) (p : Payload) : M unit :=
  emit (Send id p).

Definition set_socket (id : SocketId) (f : WebSocket -> WebSocket)
    (p : Platform) : Platform :=
  with_sockets (set_nth id f (sockets p)) p.

(** [sock.close(code, reason)]: a socket that is connecting or open
    starts closing. *)
Definition closing (s : WebSocket) : WebSocket :=
  if Z.ltb (readyState s) 2
  then mkWebSocket 2 (connect_key s) (authorized s) else s.

Definition sock_close (id : SocketId) (code : Z) (reason : string) : M unit :=
  emit (Close id code reason) ;;
  update (set_socket id closing).

(** [wshelper(url, {headers: {cookie}, open, message, close}, true)]:
    [false] without a [WebSocket] constructor, else a new connecting
    socket whose [open] callback holds [key]. *)
Definition wshelper (url cookie : string) (key : jsval) : M SocketRef :=
  supported <- env has_WebSocket ;;
  if supported then
    id <- env (fun p => length (sockets p)) ;;
    update (fun p => with_sockets (sockets p ++ [mkWebSocket 0 key false]) p) ;;
    emit (NewWebSocket id url cookie) ;;
    ret (SockObj id)
  else ret SockFalse.

(** ** The functions of the file *)

(** [_addTrack(service, key, callback)] on the registry, for a service
    and a key that [Object.prototype] does not define: the two [in] tests
    then look at own properties only.  [Prototype._addTrack_chain] is the
    function on every name. *)
Definition add_track (service key : string) (callback : Callback)
    (R : Registry) : Registry :=
  (* If we don't have the service, add it *)
  let R1 := if negb (JSObject.has service R)
            then JSObject.set service JSObject.empty_obj R else R in
  match JSObject.get service R1 with
  | Some keys =>
      match JSObject.get key keys with
      (* If we don't have the key, add the list with the callback *)
      | None => JSObject.set service (JSObject.set key [callback] keys) R1
      (* Else, push the callback *)
      | Some l =>
          JSObject.set service (JSObject.set key (l ++ [callback]) keys) R1
      end
  | None => R1
  end.

Definition _addTrack (service key : string) (callback : Callback) : M unit :=
  write (fun v => with_services (add_track service key callback (__services v)) v).

(** [_handleClose()] *)
Definition _handleClose : M unit :=
  ping <- read __ping ;;
  (* If we have a ping interval *)
  match ping with
  | Some h => clearInterval (Some h)
  | None => ret tt
  end ;;
  close <- read __close ;;
  (* If it's a valid close *)
  if close then write (with_socket SockNull)
  (* Else, wait 5 seconds, and reopen the socket *)
  else write (with_close true) ;; setTimeout 5000.

(** Property read [v.name], throwing on [undefined] and [null]. *)
Definition read_prop (v : jsval) (name : string) : M jsval :=
  match v with
  | None => throw TypeError
  | Some j =>
      match prop j name with
      | Some x => ret x
      | None => throw TypeError
      end
  end.

Definition to_str (v : jsval) : M string :=
  match to_string v with Some s => ret s | None => outside end.

Definition to_bool (v : jsval) : M bool :=
  match truthy v with Some b => ret b | None => outside end.

(** [for (let f of callbacks) f(data)] *)
Fixpoint call_each (callbacks : list Callback) (data : jsval) : M unit :=
  match callbacks with
  | [] => ret tt
  | f :: r => emit (Invoke f data) ;; call_each r data
  end.

(** The report of an error frame. *)
Definition websocket_failed (msg code : string) : string :=
  "twoway: Websocket failed: " ++ msg ++ " (" ++ code ++ ")".

(** [_handleMessage] from [if(oMsg.error)] on; [oMsg] is [undefined]
    when nothing was decoded.  The two [in] tests look at own properties:
    this is the code for a frame whose service and key
    [Object.prototype] does not define, and [Prototype.route_chain] is
    the function on every frame. *)
Definition route (oMsg : jsval) : M unit :=
  err <- read_prop oMsg "error" ;;
  is_err <- to_bool err ;;
  (* If we got an error *)
  if is_err then
    msg <- read_prop err "msg" ;;
    smsg <- to_str msg ;;
    code <- read_prop err "code" ;;
    scode <- to_str code ;;
    emit (Trigger "error" (websocket_failed smsg scode))
  else
    service <- read_prop oMsg "service" ;;
    service <- to_str service ;;
    R <- read __services ;;
    (* If we have the service *)
    match JSObject.get service R with
    | Some keys =>
        key <- read_prop oMsg "key" ;;
        key <- to_str key ;;
        (* If we have the key *)
        match JSObject.get key keys with
        | Some callbacks =>
            data <- read_prop oMsg "data" ;;
            call_each callbacks data
        | None => ret tt
        end
    | None => ret tt
    end.

Definition unknown_data (d : Data) : string :=
  "twoway: websocket failed, got unknown data: " ++ typeof d.

(** [_handleMessage(sock, ev)], with [data] for [ev.data]. *)
Definition _handleMessage (sock : SocketId) (data : Data) : M unit :=
  match data with
  (* If we got a string back *)
  | DString s =>
      (* If we're authorized: reset the close flag *)
      if String.eqb s "authorized" then write (with_close false)
      (* If it's pong *)
      else if String.eqb s "pong" then ret tt
      (* Decode it from JSON *)
      else match JSON_parse s with
           | inr oMsg => route (Some oMsg)
           | inl Json.SyntaxError => throw SyntaxError
           | inl Json.OutsideModel => outside
           end
  (* Else we got bad data *)
  | DBlob | DArrayBuffer =>
      emit (Trigger "error" (unknown_data data)) ;;
      route None
  end.

(** [_openSocket()]: the request; what runs when its promise fulfils is
    [_openSocket_then]. *)
Definition _openSocket : M unit := rest_read "webpoll" "websocket".

(** The topics the nested [for ... in] loops of the [open] callback
    visit, in order: the own properties, [Object.prototype] having no
    enumerable property of its own ([track] called with the service
    [__proto__] would add one: [Prototype._addTrack_chain] stops
    there). *)
Definition topics (R : Registry) : list (string * string) :=
  flat_map (fun s =>
    match JSObject.get s R with
    | Some keys => map (fun k => (s, k)) (JSObject.for_in_keys keys)
    | None => []
    end) (JSObject.for_in_keys R).

(** The [open] callback given to wshelper, for the response [key]. *)
Definition on_open (key : jsval) (sock : SocketId) : M unit :=
  R <- read __services ;;
  (* the connect message, then each track message *)
  let lMsgs :=
    MsgConnect key :: map (fun t => MsgTrack (fst t) (snd t)) (topics R) in
  sock_send sock (Batch lMsgs).

(** The function given to [then], for a response whose [data] is [key]. *)
Definition _openSocket_then (key : jsval) : M unit :=
  url <- read __url ;;
  cookie <- read __cookie ;;
  sock <- wshelper url cookie key ;;
  write (with_socket sock) ;;
  match sock with
  (* If we got false *)
  | SockFalse => emit (Trigger "error" "twoway: Websockets not supported")
  | _ =>
      ping <- read __ping ;;
      (* If we haven't already setup the ping interval *)
      match ping with
      | None => h <- setInterval 300000 ;; write (with_ping (Some h))
      | Some _ => ret tt
      end
  end.

(** [_ping()] *)
Definition _ping : M unit :=
  sock <- read __socket ;;
  match sock with
  | SockObj id => sock_send id (One MsgPing)
  | SockNull | SockFalse => throw TypeError
  end.

(** [cookies(o)] and what it is made of. *)

(** The characters [encodeURIComponent] leaves as they are: letters,
    digits and [- _ . ! ~ * ' ( )]. *)
Definition unreserved (c : ascii) : bool :=
  let n := nat_of_ascii c in
  (((65 <=? n) && (n <=? 90)) || ((97 <=? n) && (n <=? 122))
   || ((48 <=? n) && (n <=? 57))
   || (n =? 45) || (n =? 95) || (n =? 46) || (n =? 33) || (n =? 126)
   || (n =? 42) || (n =? 39) || (n =? 40) || (n =? 41))%nat.

(** An upper-case hexadecimal digit. *)
Definition hex_char (n : nat) : ascii :=
  if (n <? 10)%nat then ascii_of_nat (48 + n) else ascii_of_nat (55 + n).

(** [encodeURIComponent(s)] on the UTF-8 bytes of [s]: every byte that is
    not unreserved becomes a percent sign and two hexadecimal digits. *)
Fixpoint encodeURIComponent (s : string) : string :=
  match s with
  | EmptyString => EmptyString
  | String c r =>
      if unreserved c then String c (encodeURIComponent r)
      else String "%"
             (String (hex_char (nat_of_ascii c / 16))
                (String (hex_char (nat_of_ascii c mod 16))
                   (encodeURIComponent r)))
  end.

(** [omap(o, f)] of [@ouroboros/tools], which is not part of the
    repository; modelled from its use: the array of [f(o[k], k)] over the
    keys of [o], in enumeration order. *)
Definition omap {A B : Type} (o : JSObject.t A) (f : A -> string -> B)
  : list B :=
  flat_map (fun k =>
    match JSObject.get k o with
    | Some v => [f v k]
    | None => []
    end) (JSObject.for_in_keys o).

(** [l.join(sep)] *)
Fixpoint join (sep : string) (l : list string) : string :=
  match l with
  | [] => EmptyString
  | [x] => x
  | x :: r => x ++ sep ++ join sep r
  end.

(** The string [cookies] builds. *)
Definition cookie_string (o : JSObject.t string) : string :=
  join "; " (omap o (fun v k => (k ++ "=" ++ encodeURIComponent v)%string)).

(** [cookies(o)] *)
Definition cookies (o : JSObject.t string) : M unit :=
  write (with_cookie (cookie_string o)).

(** [init(url)] *)
Definition init (url : string) : M unit := write (with_url url).

(** [track(service, key, callback)] *)
Definition track (service key : string) (callback : Callback) : M unit :=
  (* Add the tracking callback *)
  _addTrack service key callback ;;
  sock <- read __socket ;;
  match sock with
  (* If it's null: set socket to false so we don't try to re-open *)
  | SockNull => write (with_socket SockFalse) ;; _openSocket
  | SockFalse => ret tt
  (* Else if it's open *)
  | SockObj id =>
      state <- env (ready_state id) ;;
      when (Z.eqb state 1) (sock_send id (One (MsgTrack service key)))
  end.

(** The loop of [untrack]: the index of the first [callback]. *)
Fixpoint find_callback (callback : Callback) (l : list Callback) (i : nat)
  : option nat :=
  match l with
  | [] => None
  | f :: r =>
      if Nat.eqb callback f then Some i else find_callback callback r (S i)
  end.

(** [l.splice(i, 1)] *)
Definition splice1 {A} (i : nat) (l : list A) : list A :=
  firstn i l ++ skipn (S i) l.

(** [untrack(service, key, callback)], for a service and a key that
    [Object.prototype] does not define ([Prototype.untrack_chain] is the
    function on every name). *)
Definition untrack (service key : string) (callback : Callback) : M bool :=
  R <- read __services ;;
  (* If we have the service *)
  match JSObject.get service R with
  | None => ret false
  | Some keys =>
      (* If we have the key *)
      match JSObject.get key keys with
      | None => ret false
      | Some l =>
          (* Go through each callback *)
          match find_callback callback l 0 with
          | None => ret false
          | Some i =>
              (* Remove the callback *)
              let l' := splice1 i l in
              write (with_services
                       (JSObject.set service (JSObject.set key l' keys) R)) ;;
              (* If we have no more callbacks *)
              when (Nat.eqb (length l') 0)
                (sock <- read __socket ;;
                 (* If we have a socket *)
                 match sock with
                 | SockObj id =>
                     state <- env (ready_state id) ;;
                     when (Z.eqb state 1)
                          (sock_send id (One (MsgUntrack service key)))
                 | SockNull | SockFalse => ret tt
                 end ;;
                 (* Remove the key *)
                 let keys' := JSObject.delete key keys in
                 write (with_services (JSObject.set service keys' R)) ;;
                 (* If we have no more keys in the service *)
                 when (JSObject.is_empty keys')
                   ((* Remove the service *)
                    let R' := JSObject.delete service R in
                    write (with_services R') ;;
                    (* If there's no more services *)
                    when (JSObject.is_empty R')
                      ((* Turn off the ping interval *)
                       ping <- read __ping ;;
                       clearInterval ping ;;
                       write (with_ping None) ;;
                       (* Close the socket *)
                       write (with_close true) ;;
                       match sock with
                       | SockObj id =>
                           sock_close id 1000 "nothing else to track"
                       | SockNull | SockFalse => ret tt
                       end))) ;;
              (* Callback found and removed *)
              ret true
          end
      end
  end.

(** ** The event loop

    What reaches the module: calls of its exported functions, and the
    platform running the callbacks the module handed out.  An event is
    enabled only when the platform can produce it: a promise settles
    once, a socket opens from the connecting state, delivers messages
    while open and closes once, an interval ticks while it runs. *)

Inductive Event : Type :=
| CallInit (url : string)
| CallCookies (o : JSObject.t string)
| CallTrack (service key : string) (callback : Callback)
| CallUntrack (service key : string) (callback : Callback)
| RestFulfilled (key : jsval)
| RestRejected
| SocketOpened (id : SocketId)
| SocketMessage (id : SocketId) (data : Data)
| SocketClosed (id : SocketId)
| IntervalTick (h : TimerId)
| TimeoutFired.

Definition on_platform (f : Platform -> Platform) (w : World) : World :=
  mkWorld (vars w) (f (platform w)).

Definition set_ready (z : Z) (s : WebSocket) : WebSocket :=
  mkWebSocket z (connect_key s) (authorized s).

Definition note_authorized (d : Data) (s : WebSocket) : WebSocket :=
  match d with
  | DString t =>
      if String.eqb t "authorized"
      then mkWebSocket (readyState s) (connect_key s) true else s
  | DBlob | DArrayBuffer => s
  end.

(** A handler runs to its completion; an exception it throws is the
    platform's to report, and the loop goes on. *)
Definition handle {A} (m : M A) (w : World) : World * list Effect :=
  (world_of (m w), effects_of (m w)).

Definition step (w : World) (e : Event) : option (World * list Effect) :=
  let p := platform w in
  match e with
  | CallInit url => Some (handle (init url) w)
  | CallCookies o => Some (handle (cookies o) w)
  | CallTrack s k f => Some (handle (track s k f) w)
  | CallUntrack s k f => Some (handle (untrack s k f) w)
  | RestFulfilled key =>
      match requests p with
      | S n => Some (handle (_openSocket_then key)
                            (on_platform (with_requests n) w))
      | O => None
      end
  | RestRejected =>
      match requests p with
      | S n => Some (on_platform (with_requests n) w, [])
      | O => None
      end
  | SocketOpened id =>
      match nth_error (sockets p) id with
      | Some s =>
          if Z.eqb (readyState s) 0
          then Some (handle (on_open (connect_key s) id)
                            (on_platform (set_socket id (set_ready 1)) w))
          else None
      | None => None
      end
  | SocketMessage id d =>
      if Z.eqb (ready_state id p) 1
      then Some (handle (_handleMessage id d)
                        (on_platform (set_socket id (note_authorized d)) w))
      else None
  | SocketClosed id =>
      match nth_error (sockets p) id with
      | Some s =>
          if Z.eqb (readyState s) 3 then None
          else Some (handle _handleClose
                            (on_platform (set_socket id (set_ready 3)) w))
      | None => None
      end
  | IntervalTick h =>
      if existsb (timer_eqb h) (intervals p)
      then Some (handle _ping w) else None
  | TimeoutFired =>
      match timeouts p with
      | S n => Some (handle _openSocket (on_platform (with_timeouts n) w))
      | O => None
      end
  end.

Fixpoint run (w : World) (evs : list Event) : option (World * list Effect) :=
  match evs with
  | [] => Some (w, [])
  | e :: r =>
      match step w e with
      | Some (w1, e1) =>
          match run w1 r with
          | Some (w2, e2) => Some (w2, e1 ++ e2)
          | None => None
          end
      | None => None
      end
  end.

(** The worlds the module can be in. *)
Definition Reachable (w : World) : Prop :=
  exists ws evs effs, run (boot ws) evs = Some (w, effs).

(** ** The connection states of the specification *)

Inductive ConnectionState : Type :=
| Closed | Connecting | OpenUnauthorized | OpenAuthorized.

(** [Closed]: no transport, or one that is closing or closed.
    [Connecting]: the handshake is in flight ([__socket] is [false]) or
    the transport has not opened yet.  Open: the transport's ready-state
    is 1; authorized once [authorized] has been delivered on it. *)
Definition conn_state (w : World) : ConnectionState :=
  match __socket (vars w) with
  | SockNull => Closed
  | SockFalse => Connecting
  | SockObj id =>
      match nth_error (sockets (platform w)) id with
      | Some s =>
          if Z.eqb (readyState s) 0 then Connecting
          else if Z.eqb (readyState s) 1
               then (if authorized s then OpenAuthorized else OpenUnauthorized)
               else Closed
      | None => Closed
      end
  end.

(** ** What a call or a run sends *)

(** The frames among some effects, with the socket each went to. *)
Definition frames (effs : list Effect) : list (SocketId * Payload) :=
  flat_map (fun e => match e with Send id p => [(id, p)] | _ => [] end) effs.

(** The [close] calls among some effects. *)
Definition closes (effs : list Effect) : list (SocketId * Z * string) :=
  flat_map (fun e =>
    match e with Close id c r => [(id, c, r)] | _ => [] end) effs.

(** The delays of the reconnects scheduled among some effects. *)
Definition reconnects (effs : list Effect) : list Z :=
  flat_map (fun e => match e with SetTimeout ms => [ms] | _ => [] end) effs.

(** The intervals started among some effects. *)
Definition started (effs : list Effect) : list (TimerId * Z) :=
  flat_map (fun e =>
    match e with SetInterval h ms => [(h, ms)] | _ => [] end) effs.

(** The callbacks invoked among some effects, with their argument. *)
Definition invoked (effs : list Effect) : list (Callback * jsval) :=
  flat_map (fun e => match e with Invoke f a => [(f, a)] | _ => [] end) effs.

(** The messages reported to the event sink among some effects. *)
Definition reported (effs : list Effect) : list (string * string) :=
  flat_map (fun e => match e with Trigger n m => [(n, m)] | _ => [] end) effs.

(** The transport the module holds, when it is open:
    [__socket && __socket.readyState === 1]. *)
Definition open_socket (w : World) : option SocketId :=
  match __socket (vars w) with
  | SockObj id =>
      if Z.eqb (ready_state id (platform w)) 1 then Some id else None
  | SockNull | SockFalse => None
  end.

(** ** The registry *)

(** The callbacks of a topic; none when the service or the key is not
    registered. *)
Definition callbacks_of (service key : string) (R : Registry)
  : option (list Callback) :=
  match JSObject.get service R with
  | Some keys => JSObject.get key keys
  | None => None
  end.

(** [untrack] on the registry alone. *)
Definition remove_track (service key : string) (callback : Callback)
    (R : Registry) : Registry :=
  match JSObject.get service R with
  | None => R
  | Some keys =>
      match JSObject.get key keys with
      | None => R
      | Some l =>
          match find_callback callback l 0 with
          | None => R
          | Some i =>
              let l' := splice1 i l in
              if Nat.eqb (length l') 0 then
                let keys' := JSObject.delete key keys in
                if JSObject.is_empty keys' then JSObject.delete service R
                else JSObject.set service keys' R
              else JSObject.set service (JSObject.set key l' keys) R
          end
      end
  end.

(** [untrack] removes the last callback of the topic. *)
Definition removes_last (service key : string) (callback : Callback)
    (R : Registry) : bool :=
  match callbacks_of service key R with
  | Some l =>
      match find_callback callback l 0 with
      | Some i => Nat.eqb (length (splice1 i l)) 0
      | None => false
      end
  | None => false
  end.

(** One entry per service, and per key of a service. *)
Definition registry_wf (R : Registry) : Prop :=
  JSObject.wf R /\
  forall s keys, JSObject.get s R = Some keys -> JSObject.wf keys.

(** No empty service entry and no empty callback list. *)
Definition pruned (R : Registry) : Prop :=
  forall s keys, JSObject.get s R = Some keys ->
    JSObject.is_empty keys = false /\
    forall k l, JSObject.get k keys = Some l -> l <> [].

(** ** The shutdown branch of [untrack] *)

(** [untrack] reaches the branch that shuts the connection down. *)
Definition emptying (s k : string) (f : Callback) (R : Registry) : bool :=
  removes_last s k f R && JSObject.is_empty (remove_track s k f R).

(** ** Invariants of the reachable worlds *)

Definition pending (p : Platform) : nat := timeouts p + requests p.

Definition all_closed (p : Platform) : Prop :=
  forall id s, nth_error (sockets p) id = Some s -> readyState s = 3%Z.

Record Inv (w : World) : Prop := mkInv {
  (* a running interval is the one [__ping] holds *)
  inv_timer : forall h,
    In h (intervals (platform w)) -> __ping (vars w) = Some h;
  (* a socket that has not closed is the one [__socket] holds *)
  inv_single : forall id s,
    nth_error (sockets (platform w)) id = Some s ->
    readyState s <> 3%Z -> __socket (vars w) = SockObj id;
  (* at most one handshake or reconnect is under way, and then no
     socket is alive *)
  inv_pending : pending (platform w) <= 1;
  inv_quiet : pending (platform w) = 1 ->
    __socket (vars w) <> SockNull /\ all_closed (platform w);
  (* a connecting or open socket has a keepalive handle *)
  inv_live : forall id s,
    nth_error (sockets (platform w)) id = Some s ->
    (readyState s < 2)%Z -> __ping (vars w) <> None;
  (* so has an authorized connection *)
  inv_flag : __close (vars w) = false -> __ping (vars w) <> None;
  inv_wf : registry_wf (__services (vars w));
  inv_pruned : pruned (__services (vars w))
}.

(** ** Runs that never empty the registry *)




(** ** Scenarios *)

(** One topic is tracked, the handshake answers, the transport opens. *)
Definition opening : list Event :=
  [CallTrack "chat" "room1" 1;
   RestFulfilled (Some (JStr "k1"));
   SocketOpened 0].

(** ... and the backend authorizes the connection. *)
Definition connected : list Event :=
  opening ++ [SocketMessage 0 (DString "authorized")].

(** ... the connection drops, and the reconnect goes through. *)
Definition reconnected : list Event :=
  connected ++
  [SocketClosed 0; TimeoutFired; RestFulfilled (Some (JStr "k2"));
   SocketOpened 1].

(** The world a scenario ends in. *)
Definition after (evs : list Event) : World :=
  match run init_world evs with
  | Some (w, _) => w
  | None => init_world
  end.

Definition enabled (evs : list Event) : bool :=
  match run init_world evs with Some _ => true | None => false end.

(** The frame of the specification's example, and two listeners on its
    topic. *)
Definition chat_frame : string :=
  Json.text "{'service':'chat','key':'room1','data':{'text':'hi'}}".

Definition two_listeners : list Event :=
  [CallTrack "chat" "room1" 1; CallTrack "chat" "room1" 2;
   RestFulfilled (Some (JStr "k1")); SocketOpened 0;
   SocketMessage 0 (DString "authorized")].

Definition track_and_untrack : list Event :=
  [CallTrack "chat" "room1" 1; CallTrack "chat" "room2" 2;
   CallTrack "mail" "inbox" 3; CallTrack "chat" "room1" 4;
   CallUntrack "chat" "room2" 2; CallUntrack "mail" "inbox" 3;
   CallUntrack "chat" "room1" 1].


End TwoWay.

(* ================================================================== *)
(** * [twoway.js] on every name: the prototype chain *)
(* ================================================================== *)

Module Prototype.

Import Json TwoWay.

(** [__services] and its entries are created by [{}], so each inherits
    from [Object.prototype], and the operator [in] of the source follows
    that chain.  These are the property names [Object.prototype] defines
    (ECMAScript, with its annex B); all of them are functions, but
    [__proto__], an accessor that reads as [Object.prototype] on these
    objects.  None is enumerable, and none can become an own property of
    [__services] or of an entry: the [in] tests of [_addTrack] find them
    first. *)
Definition proto_names : list string :=
  ["constructor"; "__defineGetter__"; "__defineSetter__"; "hasOwnProperty";
   "__lookupGetter__"; "__lookupSetter__"; "isPrototypeOf";
   "propertyIsEnumerable"; "toString"; "valueOf"; "__proto__";
   "toLocaleString"].

Definition inherited (k : string) : bool :=
  existsb (String.eqb k) proto_names.

(** A name that only an own property can answer for. *)
Definition plain (k : string) : bool := negb (inherited k).

(** [k in o], for [o] created by [{}]. *)
Definition in_chain {A} (k : string) (o : JSObject.t A) : bool :=
  JSObject.has k o || inherited k.

(** [_addTrack(service, key, callback)].  When the service is found on
    [Object.prototype], [__services[service]] is a built-in object of the
    engine: what the second test and the assignment do to it is not
    interpreted ([outside]).  When the key is found there,
    [__services[service][key]] is a function (or [Object.prototype]) and
    has no [push]: the call throws, after the service entry has been
    created. *)
Definition _addTrack_chain (service key : string) (callback : Callback)
  : M unit :=
  R <- read __services ;;
  (* If we don't have the service, add it *)
  let R1 := if negb (in_chain service R)
            then JSObject.set service JSObject.empty_obj R else R in
  write (with_services R1) ;;
  match JSObject.get service R1 with
  | None => outside
  | Some keys =>
      (* If we don't have the key, add the list with the callback *)
      if negb (in_chain key keys) then
        write (with_services
                 (JSObject.set service (JSObject.set key [callback] keys) R1))
      (* Else, push the callback *)
      else
        match JSObject.get key keys with
        | Some l =>
            write (with_services
                     (JSObject.set service
                        (JSObject.set key (l ++ [callback]) keys) R1))
        | None => throw TypeError
        end
  end.

(** [track(service, key, callback)] *)
Definition track_chain (service key : string) (callback : Callback)
  : M unit :=
  (* Add the tracking callback *)
  _addTrack_chain service key callback ;;
  sock <- read __socket ;;
  match sock with
  (* If it's null: set socket to false so we don't try to re-open *)
  | SockNull => write (with_socket SockFalse) ;; _openSocket
  | SockFalse => ret tt
  (* Else if it's open *)
  | SockObj id =>
      state <- env (ready_state id) ;;
      when (Z.eqb state 1) (sock_send id (One (MsgTrack service key)))
  end.

(** [untrack(service, key, callback)].  A service found on
    [Object.prototype] is a built-in object, not interpreted.  A key
    found there is a function (or [Object.prototype]): its [length] is a
    small number or [undefined] and its indexed elements are [undefined],
    so that the loop finds no callback. *)
Definition untrack_chain (service key : string) (callback : Callback)
  : M bool :=
  R <- read __services ;;
  (* If we have the service *)
  if in_chain service R then
    match JSObject.get service R with
    | None => outside
    | Some keys =>
        (* If we have the key *)
        if in_chain key keys then
          match JSObject.get key keys with
          | None => ret false
          | Some l =>
              (* Go through each callback *)
              match find_callback callback l 0 with
              | None => ret false
              | Some i =>
                  (* Remove the callback *)
                  let l' := splice1 i l in
                  write (with_services
                           (JSObject.set service
                              (JSObject.set key l' keys) R)) ;;
                  (* If we have no more callbacks *)
                  when (Nat.eqb (length l') 0)
                    (sock <- read __socket ;;
                     (* If we have a socket *)
                     match sock with
                     | SockObj id =>
                         state <- env (ready_state id) ;;
                         when (Z.eqb state 1)
                              (sock_send id (One (MsgUntrack service key)))
                     | SockNull | SockFalse => ret tt
                     end ;;
                     (* Remove the key *)
                     let keys' := JSObject.delete key keys in
                     write (with_services (JSObject.set service keys' R)) ;;
                     (* If we have no more keys in the service *)
                     when (JSObject.is_empty keys')
                       ((* Remove the service *)
                        let R' := JSObject.delete service R in
                        write (with_services R') ;;
                        (* If there's no more services *)
                        when (JSObject.is_empty R')
                          ((* Turn off the ping interval *)
                           ping <- read __ping ;;
                           clearInterval ping ;;
                           write (with_ping None) ;;
                           (* Close the socket *)
                           write (with_close true) ;;
                           match sock with
                           | SockObj id =>
                               sock_close id 1000 "nothing else to track"
                           | SockNull | SockFalse => ret tt
                           end))) ;;
                  (* Callback found and removed *)
                  ret true
              end
          end
        else ret false
    end
  else ret false.

(** [_handleMessage] from [if(oMsg.error)] on.  A service found on
    [Object.prototype] is a built-in object, not interpreted; a key found
    there is a function (or [Object.prototype]), which [for ... of]
    cannot iterate: the handler throws. *)
Definition route_chain (oMsg : jsval) : M unit :=
  err <- read_prop oMsg "error" ;;
  is_err <- to_bool err ;;
  (* If we got an error *)
  if is_err then
    msg <- read_prop err "msg" ;;
    smsg <- to_str msg ;;
    code <- read_prop err "code" ;;
    scode <- to_str code ;;
    emit (Trigger "error" (websocket_failed smsg scode))
  else
    service <- read_prop oMsg "service" ;;
    service <- to_str service ;;
    R <- read __services ;;
    (* If we have the service *)
    if in_chain service R then
      match JSObject.get service R with
      | None => outside
      | Some keys =>
          key <- read_prop oMsg "key" ;;
          key <- to_str key ;;
          (* If we have the key *)
          if in_chain key keys then
            match JSObject.get key keys with
            | Some callbacks =>
                data <- read_prop oMsg "data" ;;
                call_each callbacks data
            | None => throw TypeError
            end
          else ret tt
      end
    else ret tt.

(** [_handleMessage(sock, ev)] *)
Definition _handleMessage_chain (sock : SocketId) (data : Data) : M unit :=
  match data with
  (* If we got a string back *)
  | DString s =>
      (* If we're authorized: reset the close flag *)
      if String.eqb s "authorized" then write (with_close false)
      (* If it's pong *)
      else if String.eqb s "pong" then ret tt
      (* Decode it from JSON *)
      else match JSON_parse s with
           | inr oMsg => route_chain (Some oMsg)
           | inl Json.SyntaxError => throw SyntaxError
           | inl Json.OutsideModel => outside
           end
  (* Else we got bad data *)
  | DBlob | DArrayBuffer =>
      emit (Trigger "error" (unknown_data data)) ;;
      route_chain None
  end.

(** ** The event loop on every name

    A call that leaves what is interpreted has no step.  A handler's
    exception is the platform's to report, as in [TwoWay.step]. *)
Definition interpreted {A} (r : Completion A * World * list Effect)
  : option (World * list Effect) :=
  match fst (fst r) with
  | Outside => None
  | Return _ | Throw _ => Some (world_of r, effects_of r)
  end.

Definition step_chain (w : World) (e : Event)
  : option (World * list Effect) :=
  match e with
  | CallTrack s k f => interpreted (track_chain s k f w)
  | CallUntrack s k f => interpreted (untrack_chain s k f w)
  | SocketMessage id d =>
      if Z.eqb (ready_state id (platform w)) 1
      then Some (handle (_handleMessage_chain id d)
                        (on_platform (set_socket id (note_authorized d)) w))
      else None
  | _ => step w e
  end.

Fixpoint run_chain (w : World) (evs : list Event)
  : option (World * list Effect) :=
  match evs with
  | [] => Some (w, [])
  | e :: r =>
      match step_chain w e with
      | Some (w1, e1) =>
          match run_chain w1 r with
          | Some (w2, e2) => Some (w2, e1 ++ e2)
          | None => None
          end
      | None => None
      end
  end.

(** ** Runs on plain names

    The event loop of [TwoWay] runs [track] and [untrack], which are
    [track_chain] and [untrack_chain] on plain names.  A run whose calls
    all name plain services and keys keeps [__services] as the code has
    it: own properties with plain names, and [Object.prototype]
    untouched; on such a run [run_chain] is [TwoWay.run]. *)
Definition plain_event (e : Event) : bool :=
  match e with
  | CallTrack s k _ | CallUntrack s k _ => plain s && plain k
  | _ => true
  end.

Definition plain_run (evs : list Event) : bool := forallb plain_event evs.

(** The worlds the module reaches through such runs. *)
Definition PlainReachable (w : World) : Prop :=
  exists ws evs effs,
    run_chain (boot ws) evs = Some (w, effs) /\ plain_run evs = true.

(** ** Scenarios *)



(** A frame for the key [toString] of a service that is tracked. *)
Definition toString_frame : string :=
  Json.text "{'service':'chat','key':'toString','data':1}".

End Prototype.

(* ================================================================== *)
(** * [twoway.js]: more vocabulary *)
(* ================================================================== *)

Module TwoWayMore.

Import Json TwoWay.

(** The occurrences of a character in a string. *)
Fixpoint count_char (c : ascii) (s : string) : nat :=
  match s with
  | EmptyString => 0
  | String x r => (if Ascii.eqb x c then 1 else 0) + count_char c r
  end.

(** ** The registry *)

(** [callback] is among the callbacks of the topic. *)
Definition registered (service key : string) (callback : Callback)
    (R : Registry) : bool :=
  match callbacks_of service key R with
  | Some l => existsb (Nat.eqb callback) l
  | None => false
  end.

(** The callbacks of a topic, as a list. *)
Definition listeners (service key : string) (R : Registry) : list Callback :=
  match callbacks_of service key R with
  | Some l => l
  | None => []
  end.

(** ** Effects and events *)

(** The handshake requests among some effects. *)
Definition handshakes (effs : list Effect) : list (string * string) :=
  flat_map (fun e =>
    match e with RestRead s n => [(s, n)] | _ => [] end) effs.

(** The sockets created among some effects. *)
Definition created (effs : list Effect) : list SocketId :=
  flat_map (fun e =>
    match e with NewWebSocket id _ _ => [id] | _ => [] end) effs.

(** An effect that reaches the network or a timer: a frame, a handshake
    request, a new socket, an interval or a timeout set. *)
Definition connects (e : Effect) : bool :=
  match e with
  | Send _ _ | RestRead _ _ | NewWebSocket _ _ _
  | SetInterval _ _ | SetTimeout _ => true
  | Close _ _ _ | Trigger _ _ | Invoke _ _ | ClearInterval _ => false
  end.

(** An effect on application code: a report to the event sink or the
    call of a callback. *)
Definition to_app (e : Effect) : bool :=
  match e with
  | Trigger _ _ | Invoke _ _ => true
  | _ => false
  end.

(** A call of an exported function, as opposed to a platform event. *)
Definition is_call (e : Event) : bool :=
  match e with
  | CallInit _ | CallCookies _ | CallTrack _ _ _ | CallUntrack _ _ _ => true
  | _ => false
  end.

(** The delivery of the backend's [authorized]. *)
Definition is_authorized (e : Event) : bool :=
  match e with
  | SocketMessage _ (DString s) => String.eqb s "authorized"
  | _ => false
  end.

(** The reconnects a close can still schedule: one while the flag is
    false. *)
Definition reconnects_left (w : World) : nat :=
  if __close (vars w) then 0 else 1.

(** ** More invariants of the reachable worlds *)

Record Inv2 (w : World) : Prop := mkInv2 {
  (* at most one keepalive interval runs *)
  inv_one_interval : length (intervals (platform w)) <= 1;
  (* and then the transport held is connecting or open *)
  inv_interval_socket :
    intervals (platform w) <> [] ->
    exists id s, __socket (vars w) = SockObj id
                 /\ nth_error (sockets (platform w)) id = Some s
                 /\ (readyState s < 2)%Z;
  (* a transport is closing only after the shutdown of [untrack] *)
  inv_closing_flag : forall id s,
    nth_error (sockets (platform w)) id = Some s ->
    readyState s = 2%Z ->
    __close (vars w) = true /\ __ping (vars w) = None;
  (* without the constructor no socket exists *)
  inv_unsupported :
    has_WebSocket (platform w) = false -> sockets (platform w) = []
}.

(** Nothing is pending, no socket is alive, no interval runs, and
    [__socket] is not [null]. *)
Definition stuck (w : World) : Prop :=
  __socket (vars w) <> SockNull
  /\ all_closed (platform w)
  /\ pending (platform w) = 0
  /\ intervals (platform w) = [].

(** A platform without a [WebSocket] constructor, as the module leaves
    it: no socket, no timer. *)
Definition unsupported (w : World) : Prop :=
  has_WebSocket (platform w) = false
  /\ sockets (platform w) = []
  /\ intervals (platform w) = []
  /\ timeouts (platform w) = 0
  /\ (forall id, __socket (vars w) <> SockObj id).

(** The handshakes [track] can still request: one while [__socket] is
    [null]. *)
Definition handshakes_left (w : World) : nat :=
  match __socket (vars w) with
  | SockNull => 1
  | SockFalse | SockObj _ => 0
  end.

(** ** Scenarios *)

(** The connection drops unexpectedly. *)
Definition dropped : list Event := connected ++ [SocketClosed 0].

(** ... and the reconnect timeout fires. *)
Definition reconnecting : list Event := dropped ++ [TimeoutFired].

(** A first topic is tracked; the handshake is rejected, and topics come
    and go. *)
Definition first_track : list Event := [CallTrack "chat" "room1" 1].

Definition after_rejection : list Event :=
  [CallTrack "chat" "room2" 2; CallUntrack "chat" "room1" 1;
   CallUntrack "chat" "room2" 2].

(** The last topic goes while the transport is open. *)
Definition shut_down : list Event :=
  connected ++ [CallUntrack "chat" "room1" 1].

(** No [WebSocket] constructor: a topic is tracked, the handshake
    answers, the topic goes. *)
Definition no_websocket : list Event :=
  [CallTrack "chat" "room1" 1; RestFulfilled (Some (JStr "k1"));
   CallTrack "chat" "room1" 2; CallUntrack "chat" "room1" 2].

(** The connection drops, the reconnect opens and drops again before the
    backend authorizes it. *)
Definition dropped_twice : list Event :=
  [SocketClosed 0; TimeoutFired; RestFulfilled (Some (JStr "k2"));
   SocketOpened 1; SocketClosed 1].

(** An error frame that also names the topic of [two_listeners]. *)
Definition error_with_topic : string :=
  Json.text
    "{'error':{'code':403,'msg':'denied'},'service':'chat','key':'room1'}".

(** A listener on the topic whose names are both [undefined]. *)
Definition undefined_topic : list Event :=
  [CallTrack "undefined" "undefined" 7].

(** One callback registered twice for a topic, around another one. *)
Definition same_twice : list Event :=
  [CallTrack "chat" "room1" 1; CallTrack "chat" "room1" 2;
   CallTrack "chat" "room1" 1].

End TwoWayMore.

(* ================================================================== *)
(** * Facts about objects *)
(* ================================================================== *)

Module JSObjectFacts.

Import JSObject.

Section Facts.
Context {A : Type}.
Implicit Types (o : t A) (k : string) (v : A).

Lemma has_get k o : has k o = true <-> exists v, get k o = Some v.
Proof.
  induction o as [|[k' v'] r IH]; simpl.
  - split; [discriminate | intros [v H]; discriminate].
  - destruct (String.eqb k k'); [split; eauto | exact IH].
Qed.

Lemma has_false_get k o : has k o = false <-> get k o = None.
Proof.
  induction o as [|[k' v'] r IH]; simpl.
  - tauto.
  - destruct (String.eqb k k'); [split; discriminate | exact IH].
Qed.

Lemma has_In k o : has k o = true <-> In k (own_keys o).
Proof.
  induction o as [|[k' v'] r IH]; simpl.
  - split; [discriminate | tauto].
  - destruct (String.eqb_spec k k') as [->|Hne].
    + split; auto.
    + rewrite IH. split; [auto | intros [H|H]; congruence].
Qed.

Lemma get_set_same k v o : get k (set k v o) = Some v.
Proof.
  induction o as [|[k' v'] r IH]; simpl.
  - now rewrite String.eqb_refl.
  - destruct (String.eqb k k') eqn:E; simpl; rewrite ?String.eqb_refl, ?E; auto.
Qed.

Lemma get_set_other k k' v o : k <> k' -> get k' (set k v o) = get k' o.
Proof.
  intros Hne. induction o as [|[k0 v0] r IH]; simpl.
  - destruct (String.eqb_spec k' k); congruence.
  - destruct (String.eqb_spec k k0) as [->|H0]; simpl.
    + destruct (String.eqb_spec k' k0); congruence.
    + destruct (String.eqb_spec k' k0); auto.
Qed.

Lemma own_keys_set_has k v o :
  has k o = true -> own_keys (set k v o) = own_keys o.
Proof.
  induction o as [|[k0 v0] r IH]; simpl; [discriminate|].
  destruct (String.eqb_spec k k0) as [->|H0]; simpl; intros H; auto.
  now rewrite IH.
Qed.

Lemma own_keys_set_new k v o :
  has k o = false -> own_keys (set k v o) = own_keys o ++ [k].
Proof.
  induction o as [|[k0 v0] r IH]; simpl; auto.
  destruct (String.eqb_spec k k0) as [->|H0]; simpl; intros H;
    [discriminate | now rewrite IH].
Qed.

Lemma wf_empty : wf (@empty_obj A).
Proof. constructor. Qed.

Lemma wf_set k v o : wf o -> wf (set k v o).
Proof.
  unfold wf. intros H. destruct (has k o) eqn:E.
  - now rewrite own_keys_set_has.
  - rewrite own_keys_set_new by assumption.
    apply NoDup_app; auto.
    + repeat constructor; simpl; tauto.
    + intros x Hx [<-|[]]. apply has_In in Hx. congruence.
Qed.

Lemma In_own_keys_delete k k' o :
  In k' (own_keys (delete k o)) -> In k' (own_keys o).
Proof.
  induction o as [|[k0 v0] r IH]; simpl; auto.
  destruct (String.eqb k k0); simpl; tauto.
Qed.

Lemma wf_delete k o : wf o -> wf (delete k o).
Proof.
  unfold wf. induction o as [|[k0 v0] r IH]; simpl; auto.
  intros H. inversion H; subst.
  destruct (String.eqb k k0); simpl; auto.
  constructor; auto. intros Hin. now apply In_own_keys_delete in Hin.
Qed.

Lemma get_delete_same k o : wf o -> get k (delete k o) = None.
Proof.
  unfold wf. induction o as [|[k0 v0] r IH]; simpl; auto.
  intros H. inversion H; subst.
  destruct (String.eqb_spec k k0) as [->|H0]; simpl.
  - apply has_false_get. destruct (has k0 r) eqn:E; auto.
    apply has_In in E. contradiction.
  - destruct (String.eqb_spec k k0); [congruence | auto].
Qed.

Lemma get_delete_other k k' o : k <> k' -> get k' (delete k o) = get k' o.
Proof.
  intros Hne. induction o as [|[k0 v0] r IH]; simpl; auto.
  destruct (String.eqb_spec k k0) as [->|H0]; simpl.
  - destruct (String.eqb_spec k' k0); congruence.
  - destruct (String.eqb_spec k' k0); auto.
Qed.

Lemma get_delete_Some k k' v o :
  wf o -> get k' (delete k o) = Some v -> k <> k' /\ get k' o = Some v.
Proof.
  intros Hwf H. destruct (String.eqb_spec k k') as [->|Hne].
  - rewrite get_delete_same in H by assumption. discriminate.
  - rewrite get_delete_other in H by assumption. auto.
Qed.

Lemma is_empty_set k v o : is_empty (set k v o) = false.
Proof.
  destruct o as [|[k0 v0] r]; simpl; auto.
  destruct (String.eqb k k0); reflexivity.
Qed.

Lemma get_set_Some k k' v v' o :
  get k' (set k v o) = Some v' ->
  (k = k' /\ v' = v) \/ (k <> k' /\ get k' o = Some v').
Proof.
  destruct (String.eqb_spec k k') as [->|Hne].
  - rewrite get_set_same. intros [= <-]. auto.
  - rewrite get_set_other by assumption. auto.
Qed.

Lemma is_empty_get o : is_empty o = true <-> forall k, get k o = None.
Proof.
  destruct o as [|[k0 v0] r]; simpl.
  - tauto.
  - split; [discriminate|]. intros H. specialize (H k0).
    now rewrite String.eqb_refl in H.
Qed.

End Facts.

(** [for ... in] visits every own key exactly once. *)

Lemma insert_index_perm k l : Permutation (insert_index k l) (k :: l).
Proof.
  induction l as [|k' r IH]; simpl; auto.
  destruct (N.leb _ _); auto.
  rewrite IH. apply perm_swap.
Qed.

Lemma sort_indices_perm l : Permutation (sort_indices l) l.
Proof.
  induction l as [|k r IH]; simpl; auto.
  rewrite insert_index_perm. now constructor.
Qed.

Lemma filter_split_perm (p : string -> bool) l :
  Permutation (filter p l ++ filter (fun k => negb (p k)) l) l.
Proof.
  induction l as [|k r IH]; simpl; auto.
  destruct (p k); simpl.
  - now constructor.
  - symmetry. apply Permutation_cons_app. now symmetry.
Qed.

(** The array indices come out in ascending order. *)

Lemma insert_index_sorted k l :
  Sorted index_le l -> Sorted index_le (insert_index k l).
Proof.
  induction l as [|a r IH]; simpl; intros Hs.
  - repeat constructor.
  - destruct (N.leb_spec (index_value k) (index_value a)) as [Hle|Hgt].
    + constructor; [assumption|]. now constructor.
    + inversion Hs as [|? ? Hr Hhd]; subst. constructor; [auto|].
      destruct r as [|b r']; simpl.
      * constructor. unfold index_le. lia.
      * destruct (N.leb_spec (index_value k) (index_value b)).
        -- constructor. unfold index_le. lia.
        -- inversion Hhd; subst. now constructor.
Qed.

Lemma sort_indices_sorted l : Sorted index_le (sort_indices l).
Proof.
  induction l as [|k r IH]; simpl; [constructor|].
  now apply insert_index_sorted.
Qed.

Lemma for_in_keys_perm {A} (o : t A) : Permutation (for_in_keys o) (own_keys o).
Proof.
  unfold for_in_keys.
  rewrite sort_indices_perm. apply filter_split_perm.
Qed.

Lemma for_in_keys_In {A} (o : t A) k : In k (for_in_keys o) <-> has k o = true.
Proof.
  rewrite has_In. split; apply Permutation_in;
    [| symmetry]; apply for_in_keys_perm.
Qed.


(** Without numeric keys the order is the creation order. *)
Lemma for_in_keys_plain {A} (o : t A) :
  forallb (fun k => negb (is_index k)) (own_keys o) = true ->
  for_in_keys o = own_keys o.
Proof.
  unfold for_in_keys. induction (own_keys o) as [|k r IH]; simpl; auto.
  intros H. apply andb_prop in H as [Hk Hr].
  destruct (is_index k); [discriminate|]. simpl in *.
  specialize (IH Hr).
  destruct (filter is_index r) eqn:E; simpl in *; [congruence|].
  exfalso. assert (Hin : In s (filter is_index r)) by (rewrite E; now left).
  apply filter_In in Hin as [Hin Hs].
  rewrite forallb_forall in Hr. specialize (Hr _ Hin).
  rewrite Hs in Hr. discriminate.
Qed.

End JSObjectFacts.

(* ================================================================== *)
(** * Properties of [twoway.js] *)
(* ================================================================== *)

Module TwoWayProps.

Import Json TwoWay Prototype TwoWayMore.

(* ================================================================ *)
(** ** Reasoning about computations *)
(* ================================================================ *)

Ltac unfold_m :=
  cbv beta iota zeta delta
    [bind ret read write env update emit when throw outside
     world_of effects_of completion_of handle] in *.

(** Case analysis on the innermost scrutinee. *)
Ltac case_match :=
  match goal with
  | |- context [match ?x with _ => _ end] =>
      lazymatch x with
      | context [match _ with _ => _ end] => fail
      | _ => destruct x eqn:?
      end
  end.

Lemma call_each_spec (l : list Callback) (d : jsval) (w : World) :
  call_each l d w = (Return tt, w, map (fun f => Invoke f d) l).
Proof.
  induction l as [|f r IH]; [reflexivity|].
  cbn [call_each map]. unfold bind, emit. now rewrite IH.
Qed.

(** The router changes no variable and nothing of the platform. *)
Lemma route_world (oMsg : jsval) (w : World) : world_of (route oMsg w) = w.
Proof.
  unfold route, read_prop, to_bool, to_str.
  unfold_m.
  repeat (case_match; cbn [fst snd]; try reflexivity).
  rewrite call_each_spec in *; congruence.
Qed.

(* ================================================================ *)
(** ** The registry under [track] and [untrack] *)
(* ================================================================ *)

Lemma add_track_wf service key callback R :
  registry_wf R -> registry_wf (add_track service key callback R).
Proof.
  intros [HR Hin]. unfold add_track.
  destruct (JSObject.get service R) as [keys|] eqn:E.
  - assert (Hh : JSObject.has service R = true)
      by (apply JSObjectFacts.has_get; eauto).
    rewrite Hh. cbn [negb]. rewrite E.
    assert (Hk := Hin _ _ E).
    destruct (JSObject.get key keys) as [l|];
      (split; [now apply JSObjectFacts.wf_set|]);
      intros s ks Hs; apply JSObjectFacts.get_set_Some in Hs as [[_ ->]|[_ Hs]];
      eauto using JSObjectFacts.wf_set.
  - assert (Hh : JSObject.has service R = false)
      by (now apply JSObjectFacts.has_false_get).
    rewrite Hh. cbn [negb]. rewrite JSObjectFacts.get_set_same. cbn.
    split; [now repeat apply JSObjectFacts.wf_set|].
    intros s ks Hs. apply JSObjectFacts.get_set_Some in Hs as [[_ ->]|[_ Hs]].
    + repeat constructor. simpl. tauto.
    + apply JSObjectFacts.get_set_Some in Hs as [[_ ->]|[_ Hs]]; eauto.
      constructor.
Qed.

Lemma add_track_pruned service key callback R :
  pruned R -> pruned (add_track service key callback R).
Proof.
  intros HR. unfold add_track.
  destruct (JSObject.get service R) as [keys|] eqn:E.
  - assert (Hh : JSObject.has service R = true)
      by (apply JSObjectFacts.has_get; eauto).
    rewrite Hh. cbn [negb]. rewrite E.
    destruct (HR _ _ E) as [_ Hl].
    destruct (JSObject.get key keys) as [l|] eqn:Ek;
      intros s ks Hs; apply JSObjectFacts.get_set_Some in Hs as [[_ ->]|[_ Hs]];
      eauto; (split; [apply JSObjectFacts.is_empty_set|]);
      intros k l' Hk; apply JSObjectFacts.get_set_Some in Hk as [[_ ->]|[_ Hk]];
      eauto; try discriminate.
    destruct l; discriminate.
  - assert (Hh : JSObject.has service R = false)
      by (now apply JSObjectFacts.has_false_get).
    rewrite Hh. cbn [negb]. rewrite JSObjectFacts.get_set_same. cbn.
    intros s ks Hs. apply JSObjectFacts.get_set_Some in Hs as [[_ ->]|[Hne Hs]].
    + split; [reflexivity|]. intros k l. cbn.
      destruct (String.eqb k key); [intros [= <-]|]; discriminate.
    + apply JSObjectFacts.get_set_Some in Hs as [[? _]|[_ Hs]];
        [congruence | eauto].
Qed.

Lemma remove_track_wf service key callback R :
  registry_wf R -> registry_wf (remove_track service key callback R).
Proof.
  intros [HR Hin]. unfold remove_track.
  destruct (JSObject.get service R) as [keys|] eqn:E; [|now split].
  destruct (JSObject.get key keys) as [l|] eqn:Ek; [|now split].
  destruct (find_callback callback l 0) as [i|]; [|now split].
  assert (Hk := Hin _ _ E).
  cbv zeta. destruct (Nat.eqb _ 0).
  - destruct (JSObject.is_empty _).
    + split; [now apply JSObjectFacts.wf_delete|].
      intros s ks Hs. apply JSObjectFacts.get_delete_Some in Hs as [_ Hs]; eauto.
    + split; [now apply JSObjectFacts.wf_set|].
      intros s ks Hs. apply JSObjectFacts.get_set_Some in Hs as [[_ ->]|[_ Hs]];
        eauto using JSObjectFacts.wf_delete.
  - split; [now apply JSObjectFacts.wf_set|].
    intros s ks Hs. apply JSObjectFacts.get_set_Some in Hs as [[_ ->]|[_ Hs]];
      eauto using JSObjectFacts.wf_set.
Qed.

Lemma remove_track_pruned service key callback R :
  registry_wf R -> pruned R -> pruned (remove_track service key callback R).
Proof.
  intros [HR Hin] HP. unfold remove_track.
  destruct (JSObject.get service R) as [keys|] eqn:E; [|assumption].
  destruct (JSObject.get key keys) as [l|] eqn:Ek; [|assumption].
  destruct (find_callback callback l 0) as [i|]; [|assumption].
  assert (Hk := Hin _ _ E). destruct (HP _ _ E) as [_ Hl].
  cbv zeta. destruct (Nat.eqb _ 0) eqn:El.
  - destruct (JSObject.is_empty _) eqn:Ee.
    + intros s ks Hs. apply JSObjectFacts.get_delete_Some in Hs as [_ Hs]; eauto.
    + intros s ks Hs. apply JSObjectFacts.get_set_Some in Hs as [[_ ->]|[_ Hs]];
        eauto.
      split; [assumption|]. intros k l' Hl'.
      apply JSObjectFacts.get_delete_Some in Hl' as [_ Hl']; eauto.
  - intros s ks Hs. apply JSObjectFacts.get_set_Some in Hs as [[_ ->]|[_ Hs]];
      eauto.
    split; [apply JSObjectFacts.is_empty_set|]. intros k l' Hl'.
    apply JSObjectFacts.get_set_Some in Hl' as [[_ ->]|[_ Hl']]; eauto.
    intros Heq. rewrite Heq in El. discriminate.
Qed.

(* ================================================================ *)
(** ** Each function in closed form *)
(* ================================================================ *)

Lemma track_spec s k f w :
  let v1 := with_services (add_track s k f (__services (vars w))) (vars w) in
  track s k f w =
  match __socket (vars w) with
  | SockNull =>
      (Return tt,
       mkWorld (with_socket SockFalse v1)
               (with_requests (S (requests (platform w))) (platform w)),
       [RestRead "webpoll" "websocket"])
  | SockFalse => (Return tt, mkWorld v1 (platform w), [])
  | SockObj id =>
      (Return tt, mkWorld v1 (platform w),
       if Z.eqb (ready_state id (platform w)) 1
       then [Send id (One (MsgTrack s k))] else [])
  end.
Proof.
  destruct w as [v p].
  unfold track, _addTrack, _openSocket, rest_read, sock_send.
  unfold_m. cbn. destruct (__socket v); cbn; try reflexivity.
  destruct (Z.eqb _ 1); reflexivity.
Qed.

Lemma untrack_spec s k f w :
  let v := vars w in
  let p := platform w in
  let R := __services v in
  untrack s k f w =
  (Return (match callbacks_of s k R with
           | Some l => match find_callback f l 0 with
                       | Some _ => true | None => false end
           | None => false
           end),
   (if emptying s k f R
    then mkWorld
           (with_close true
              (with_ping None (with_services (remove_track s k f R) v)))
           (match __socket v with
            | SockObj id => set_socket id closing (stop_timer (__ping v) p)
            | SockNull | SockFalse => stop_timer (__ping v) p
            end)
    else mkWorld (with_services (remove_track s k f R) v) p),
   (if removes_last s k f R
    then match open_socket w with
         | Some id => [Send id (One (MsgUntrack s k))]
         | None => []
         end
    else [])
   ++ (if emptying s k f R
       then ClearInterval (__ping v)
            :: match __socket v with
               | SockObj id => [Close id 1000 "nothing else to track"]
               | SockNull | SockFalse => []
               end
       else [])).
Proof.
  destruct w as [[ping close cookie socket url R] p].
  unfold untrack, emptying, removes_last, remove_track, callbacks_of,
    open_socket, clearInterval, sock_close, sock_send, set_socket, closing,
    stop_timer.
  unfold_m. cbn.
  destruct (JSObject.get s R) as [keys|]; [|reflexivity].
  destruct (JSObject.get k keys) as [l|]; [|reflexivity].
  destruct (find_callback f l 0) as [i|]; [|reflexivity].
  destruct (Nat.eqb (length (splice1 i l)) 0); cbn; [|reflexivity].
  destruct (JSObject.is_empty (JSObject.delete k keys)); cbn.
  - destruct (JSObject.is_empty (JSObject.delete s R)); cbn;
      destruct socket as [| |id]; cbn; try reflexivity;
      try (destruct (Z.eqb (ready_state id p) 1); cbn);
      destruct ping; cbn; reflexivity.
  - rewrite JSObjectFacts.is_empty_set.
    destruct socket as [| |id]; cbn; try reflexivity.
    destruct (Z.eqb (ready_state id p) 1); reflexivity.
Qed.

Lemma _handleClose_spec w :
  let v := vars w in
  let p := stop_timer (__ping v) (platform w) in
  let cleared := match __ping v with
                 | Some h => [ClearInterval (Some h)]
                 | None => []
                 end in
  _handleClose w =
  if __close v
  then (Return tt, mkWorld (with_socket SockNull v) p, cleared)
  else (Return tt,
        mkWorld (with_close true v) (with_timeouts (S (timeouts p)) p),
        cleared ++ [SetTimeout 5000]).
Proof.
  destruct w as [[ping close cookie socket url R] p].
  unfold _handleClose, clearInterval, setTimeout, stop_timer.
  unfold_m. cbn. destruct ping, close; reflexivity.
Qed.

Lemma _openSocket_then_spec key w :
  let v := vars w in
  let p := platform w in
  let id := length (sockets p) in
  let p1 := with_sockets (sockets p ++ [mkWebSocket 0 key false]) p in
  let created := NewWebSocket id (__url v) (__cookie v) in
  _openSocket_then key w =
  if has_WebSocket p then
    match __ping v with
    | None =>
        let h := next_timer p in
        (Return tt,
         mkWorld (with_ping (Some h) (with_socket (SockObj id) v))
                 (with_next_timer (Pos.succ h)
                    (with_intervals (intervals p ++ [h]) p1)),
         [created; SetInterval h 300000])
    | Some _ =>
        (Return tt, mkWorld (with_socket (SockObj id) v) p1, [created])
    end
  else (Return tt, mkWorld (with_socket SockFalse v) p,
        [Trigger "error" "twoway: Websockets not supported"]).
Proof.
  destruct w as [[ping close cookie socket url R] p].
  unfold _openSocket_then, wshelper, setInterval.
  unfold_m. cbn. destruct (has_WebSocket p), ping; reflexivity.
Qed.

Lemma on_open_spec key sock w :
  on_open key sock w =
  (Return tt, w,
   [Send sock
      (Batch (MsgConnect key
              :: map (fun t => MsgTrack (fst t) (snd t))
                     (topics (__services (vars w)))))]).
Proof. reflexivity. Qed.

Lemma _ping_spec w :
  _ping w =
  match __socket (vars w) with
  | SockObj id => (Return tt, w, [Send id (One MsgPing)])
  | SockNull | SockFalse => (Throw TypeError, w, [])
  end.
Proof.
  unfold _ping, sock_send. unfold_m. destruct (__socket (vars w)); reflexivity.
Qed.

Lemma _handleMessage_authorized sock w :
  _handleMessage sock (DString "authorized") w =
  (Return tt, mkWorld (with_close false (vars w)) (platform w), []).
Proof. reflexivity. Qed.

(** Every frame but [authorized] leaves the world as it is. *)
Lemma _handleMessage_world sock d w :
  d <> DString "authorized" ->
  world_of (_handleMessage sock d w) = w.
Proof.
  intros Hd. unfold _handleMessage. destruct d as [s| |].
  - destruct (String.eqb_spec s "authorized"); [congruence|].
    destruct (String.eqb s "pong"); [reflexivity|].
    destruct (JSON_parse s) as [[]|oMsg]; try reflexivity.
    apply route_world.
  - unfold bind, emit. cbn.
    pose proof (route_world None w) as H. unfold world_of in H.
    destruct (route None w) as [[[]]]; cbn in *; congruence.
  - unfold bind, emit. cbn.
    pose proof (route_world None w) as H. unfold world_of in H.
    destruct (route None w) as [[[]]]; cbn in *; congruence.
Qed.

(* ================================================================ *)
(** ** The invariants hold in every reachable world *)
(* ================================================================ *)

Lemma nth_error_set_nth {A} (f : A -> A) (l : list A) (i j : nat) :
  nth_error (set_nth i f l) j =
  if Nat.eqb j i then option_map f (nth_error l j) else nth_error l j.
Proof.
  revert i j. induction l as [|x r IH]; intros [|i] [|j]; cbn; auto.
  now destruct (Nat.eqb j i).
Qed.

Lemma nth_error_snoc {A} (l : list A) (x : A) (j : nat) (y : A) :
  nth_error (l ++ [x]) j = Some y ->
  nth_error l j = Some y \/ (j = length l /\ y = x).
Proof.
  intros H. destruct (Nat.lt_ge_cases j (length l)) as [Hlt|Hge].
  - left. now rewrite nth_error_app1 in H.
  - right. rewrite nth_error_app2 in H by assumption.
    destruct (j - length l) as [|n] eqn:E; cbn in H.
    + split; [lia | congruence].
    + destruct n; discriminate.
Qed.

Lemma all_closed_no_null p :
  all_closed p ->
  forall id s, nth_error (sockets p) id = Some s -> readyState s <> 3%Z -> False.
Proof. intros H id s Hs Hne. apply Hne. eauto. Qed.

Lemma Inv_boot ws : Inv (boot ws).
Proof.
  constructor; cbn; try (intros; lia); try tauto; try discriminate.
  - intros [|id] s; discriminate.
  - intros [|id] s; discriminate.
  - split; [constructor|]. intros s keys; discriminate.
Qed.

(** *** The exported functions *)

Lemma track_Inv s k f w : Inv w -> Inv (world_of (track s k f w)).
Proof.
  intros [Ht Hs Hp Hq Hl Hf Hwf Hpr]. rewrite track_spec. cbv zeta.
  destruct w as [v p]. cbn in *.
  assert (Hwf' := add_track_wf s k f Hwf).
  assert (Hpr' := add_track_pruned s k f Hpr).
  destruct (__socket v) eqn:Esock; cbn; constructor; cbn;
    rewrite ?Esock; auto; try congruence.
  - (* null: the handshake starts *)
    intros id s0 H0 Hne. specialize (Hs _ _ H0 Hne). discriminate.
  - unfold pending in *. cbn.
    destruct (timeouts p + requests p) as [|[|n]] eqn:E; try lia.
    destruct (Hq eq_refl) as [Hq1 _]. congruence.
  - intros _. split; [discriminate|].
    intros id s0 H0. destruct (Z.eq_dec (readyState s0) 3); auto.
    specialize (Hs _ _ H0 n). discriminate.
Qed.

Lemma stop_timer_intervals h p x :
  In x (intervals (stop_timer h p)) ->
  In x (intervals p) /\ h <> Some x.
Proof.
  destruct h as [t|]; cbn; [|intros; split; [assumption | discriminate]].
  intros Hx. apply filter_In in Hx as [Hx Hne]. split; auto.
  intros [= ->]. unfold timer_eqb in Hne. now rewrite Pos.eqb_refl in Hne.
Qed.

Lemma stop_timer_sockets h p : sockets (stop_timer h p) = sockets p.
Proof. now destruct h. Qed.

Lemma stop_timer_pending h p : pending (stop_timer h p) = pending p.
Proof. now destruct h. Qed.

Lemma closing_not_live s : (readyState (closing s) < 2)%Z -> False.
Proof.
  unfold closing. destruct (Z.ltb_spec (readyState s) 2); cbn; lia.
Qed.

Lemma closing_closed s : readyState s = 3%Z -> readyState (closing s) = 3%Z.
Proof. unfold closing. intros H. rewrite H. cbn. exact H. Qed.

Lemma untrack_Inv s k f w : Inv w -> Inv (world_of (untrack s k f w)).
Proof.
  intros [Ht Hs Hp Hq Hl Hf Hwf Hpr]. rewrite untrack_spec. cbv zeta.
  destruct w as [v p]. cbn in *.
  assert (Hwf' := remove_track_wf s k f Hwf).
  assert (Hpr' := remove_track_pruned s k f Hwf Hpr).
  destruct (emptying s k f (__services v)); cbn;
    [|constructor; cbn; auto].
  assert (Hsock : sockets (match __socket v with
                           | SockObj id =>
                               set_socket id closing (stop_timer (__ping v) p)
                           | _ => stop_timer (__ping v) p
                           end)
                  = match __socket v with
                    | SockObj id => set_nth id closing (sockets p)
                    | _ => sockets p
                    end)
    by (destruct (__socket v); cbn; now rewrite ?stop_timer_sockets).
  assert (Hpend : pending (match __socket v with
                           | SockObj id =>
                               set_socket id closing (stop_timer (__ping v) p)
                           | _ => stop_timer (__ping v) p
                           end) = pending p)
    by (destruct (__socket v); try apply stop_timer_pending;
        destruct (__ping v); reflexivity).
  assert (Hint : forall h,
             In h (intervals (match __socket v with
                              | SockObj id =>
                                  set_socket id closing
                                    (stop_timer (__ping v) p)
                              | _ => stop_timer (__ping v) p
                              end)) -> False).
  { intros h Hh.
    assert (Hh' : In h (intervals (stop_timer (__ping v) p)))
      by (destruct (__socket v); exact Hh).
    apply stop_timer_intervals in Hh' as [Hin Hne]. apply Hne. auto. }
  constructor; cbn; rewrite ?Hsock, ?Hpend; auto; try discriminate.
  - intros h Hh. now apply Hint in Hh.
  - intros id s0 H0 Hne. destruct (__socket v) as [| |sid] eqn:Esock; eauto.
    rewrite nth_error_set_nth in H0.
    destruct (Nat.eqb_spec id sid) as [->|Hid]; [reflexivity|eauto].
  - intros Hone. destruct (Hq Hone) as [Hnn Hall]. split; [assumption|].
    intros id s0. rewrite Hsock.
    destruct (__socket v) as [| |sid]; try apply Hall.
    rewrite nth_error_set_nth. destruct (Nat.eqb id sid); [|apply Hall].
    destruct (nth_error (sockets p) id) as [s1|] eqn:E1; cbn; [|discriminate].
    intros [= <-]. apply closing_closed. eauto.
  - intros id s0 H0 Hlt. exfalso.
    destruct (__socket v) as [| |sid] eqn:Esock;
      try (assert (Hne : readyState s0 <> 3%Z) by lia;
           specialize (Hs _ _ H0 Hne); discriminate).
    rewrite nth_error_set_nth in H0.
    destruct (Nat.eqb_spec id sid) as [->|Hid].
    + destruct (nth_error (sockets p) sid); cbn in H0; [|discriminate].
      injection H0 as <-. now apply closing_not_live in Hlt.
    + assert (Hne : readyState s0 <> 3%Z) by lia.
      specialize (Hs _ _ H0 Hne). congruence.
Qed.

(** *** The callbacks the platform runs *)

Lemma no_interval_without_handle w :
  Inv w -> __ping (vars w) = None -> intervals (platform w) = [].
Proof.
  intros HI Hn. destruct (intervals (platform w)) as [|h r] eqn:E; auto.
  assert (Hh : In h (intervals (platform w))) by (rewrite E; now left).
  apply (inv_timer HI) in Hh. congruence.
Qed.

Lemma fulfilled_Inv key n w :
  Inv w -> requests (platform w) = S n ->
  Inv (world_of (_openSocket_then key (on_platform (with_requests n) w))).
Proof.
  intros HI Hreq.
  pose proof (no_interval_without_handle HI) as Hnone.
  destruct HI as [Ht Hs Hp Hq Hl Hf Hwf Hpr].
  rewrite _openSocket_then_spec. cbv zeta.
  destruct w as [v p]. unfold on_platform, pending in *. cbn in *.
  assert (Hn : n = 0 /\ timeouts p = 0) by lia. destruct Hn as [-> Htm].
  destruct Hq as [Hnn Hall]; [lia|].
  destruct (has_WebSocket p); [destruct (__ping v) as [h0|] eqn:Eping|];
    cbn; constructor; cbn; rewrite ?Eping, ?Htm; auto;
    try discriminate; try lia.
  - intros id s H0 Hne. apply nth_error_snoc in H0 as [H0|[-> _]]; auto.
    exfalso. eauto using all_closed_no_null.
  - intros h. rewrite Hnone by reflexivity. cbn. intros [<-|[]]. reflexivity.
  - intros id s H0 Hne. apply nth_error_snoc in H0 as [H0|[-> _]]; auto.
    exfalso. eauto using all_closed_no_null.
  - intros id s H0 Hne. exfalso. eauto using all_closed_no_null.
Qed.

(** A change of one socket that keeps it closed if it was, and keeps it
    out of the connecting and open states if it was. *)
Lemma socket_change_Inv (g : WebSocket -> WebSocket) id w :
  (forall s, readyState s = 3%Z -> readyState (g s) = 3%Z) ->
  (forall s, (readyState (g s) < 2)%Z -> (readyState s < 2)%Z) ->
  Inv w -> Inv (on_platform (set_socket id g) w).
Proof.
  intros Hg3 Hg2 [Ht Hs Hp Hq Hl Hf Hwf Hpr].
  destruct w as [v p]. unfold on_platform, set_socket, pending in *.
  cbn in *.
  constructor; cbn; auto.
  - intros j s. rewrite nth_error_set_nth.
    destruct (Nat.eqb j id); eauto.
    destruct (nth_error (sockets p) j) as [s1|] eqn:E1; cbn; [|discriminate].
    intros [= <-] Hne. apply (Hs _ _ E1). intros H3. apply Hne. auto.
  - intros Hone. destruct (Hq Hone) as [Hnn Hall]. split; auto.
    intros j s. cbn. rewrite nth_error_set_nth.
    destruct (Nat.eqb j id); [|apply Hall].
    destruct (nth_error (sockets p) j) as [s1|] eqn:E1; cbn; [|discriminate].
    intros [= <-]. eauto.
  - intros j s. rewrite nth_error_set_nth.
    destruct (Nat.eqb j id); eauto.
    destruct (nth_error (sockets p) j) as [s1|] eqn:E1; cbn; [|discriminate].
    intros [= <-] Hlt. eauto.
Qed.

Lemma opened_Inv id s w :
  Inv w -> nth_error (sockets (platform w)) id = Some s ->
  readyState s = 0%Z ->
  Inv (on_platform (set_socket id (set_ready 1)) w).
Proof.
  intros [Ht Hs Hp Hq Hl Hf Hwf Hpr] Hid H0.
  destruct w as [v p]. unfold on_platform, set_socket, pending in *.
  cbn in *.
  assert (Hping : __ping v <> None) by (apply (Hl _ _ Hid); lia).
  assert (Hsock : __socket v = SockObj id)
    by (apply (Hs _ _ Hid); lia).
  assert (Hpend : timeouts p + requests p <> 1).
  { intros Hone. destruct (Hq Hone) as [_ Hall].
    specialize (Hall _ _ Hid). lia. }
  constructor; cbn; auto; try tauto.
  intros j s1. rewrite nth_error_set_nth.
  destruct (Nat.eqb_spec j id) as [->|Hne]; eauto.
Qed.

Lemma message_Inv id d w :
  Inv w -> ready_state id (platform w) = 1%Z ->
  Inv (world_of (_handleMessage id d
                   (on_platform (set_socket id (note_authorized d)) w))).
Proof.
  intros HI Hopen.
  assert (Hping : __ping (vars w) <> None).
  { unfold ready_state in Hopen.
    destruct (nth_error (sockets (platform w)) id) as [s|] eqn:E;
      [|discriminate].
    apply (inv_live HI _ E). lia. }
  assert (HI' : Inv (on_platform (set_socket id (note_authorized d)) w)).
  { apply socket_change_Inv; auto; intros s;
      destruct d as [t| |]; cbn; auto;
      destruct (String.eqb t "authorized"); auto. }
  destruct (String.eqb_spec
              match d with DString t => t | _ => EmptyString end
              "authorized") as [Ha|Ha].
  - destruct d as [t| |]; try discriminate. cbn in Ha. subst t.
    rewrite _handleMessage_authorized. cbn [world_of fst snd].
    destruct HI' as [Ht Hs Hp Hq Hl Hf Hwf Hpr].
    destruct w as [v p]. cbn in *. constructor; cbn; auto.
  - rewrite _handleMessage_world; auto.
    intros ->. now apply Ha.
Qed.

Lemma closed_Inv id s w :
  Inv w -> nth_error (sockets (platform w)) id = Some s ->
  readyState s <> 3%Z ->
  Inv (world_of (_handleClose
                   (on_platform (set_socket id (set_ready 3)) w))).
Proof.
  intros [Ht Hs Hp Hq Hl Hf Hwf Hpr] Hid H3.
  rewrite _handleClose_spec. cbv zeta.
  destruct w as [v p]. unfold on_platform, set_socket, pending in *.
  cbn in *.
  assert (Hsock : __socket v = SockObj id) by eauto.
  assert (Hpend : timeouts p + requests p = 0).
  { destruct (timeouts p + requests p) as [|[|n]] eqn:E; try lia.
    destruct (Hq eq_refl) as [_ Hall]. specialize (Hall _ _ Hid).
    contradiction. }
  assert (Hall : forall j s1,
             nth_error (set_nth id (set_ready 3) (sockets p)) j = Some s1 ->
             readyState s1 = 3%Z).
  { intros j s1. rewrite nth_error_set_nth.
    destruct (Nat.eqb_spec j id) as [->|Hne].
    - rewrite Hid. cbn. now intros [= <-].
    - intros Hj. destruct (Z.eq_dec (readyState s1) 3); auto.
      specialize (Hs _ _ Hj n). congruence. }
  assert (Hint : forall h,
             In h (intervals
                     (stop_timer (__ping v)
                        (with_sockets
                           (set_nth id (set_ready 3) (sockets p)) p))) ->
             False).
  { intros h Hh. apply stop_timer_intervals in Hh as [Hin Hne].
    apply Hne. cbn in Hin. auto. }
  assert (Htm : forall q, timeouts (stop_timer (__ping v) q) = timeouts q)
    by (intros q; now destruct (__ping v)).
  assert (Hrq : forall q, requests (stop_timer (__ping v) q) = requests q)
    by (intros q; now destruct (__ping v)).
  destruct (__close v) eqn:Eclose; cbn; constructor; unfold pending; cbn;
    rewrite ?stop_timer_sockets, ?Htm, ?Hrq; cbn; auto;
    try (intros h Hh; exfalso; now apply (Hint h));
    try (intros j s1 Hj Hlt; specialize (Hall _ _ Hj); lia);
    try discriminate; try lia.
  - congruence.
  - intros _. split; [congruence|].
    intros j s1. cbn. rewrite stop_timer_sockets. apply Hall.
Qed.

(** *** Every step, every run *)

Lemma step_Inv w e w' effs :
  Inv w -> step w e = Some (w', effs) -> Inv w'.
Proof.
  intros HI Hstep. destruct e as [url|o|s k f|s k f|key| |id|id d|id|h|];
    cbn in Hstep.
  - (* init *)
    injection Hstep as <- _. destruct HI. destruct w as [v p].
    constructor; cbn in *; auto.
  - (* init *)
    injection Hstep as <- _. destruct HI. destruct w as [v p].
    constructor; cbn in *; auto.
  - injection Hstep as <- _. now apply track_Inv.
  - injection Hstep as <- _. now apply untrack_Inv.
  - destruct (requests (platform w)) as [|n] eqn:E; [discriminate|].
    injection Hstep as <- _. now apply fulfilled_Inv.
  - (* the promise is rejected *)
    destruct (requests (platform w)) as [|n] eqn:E; [discriminate|].
    injection Hstep as <- _. destruct HI as [Ht Hs Hp Hq Hl Hf Hwf Hpr].
    destruct w as [v p]. unfold on_platform, pending in *. cbn in *.
    constructor; cbn; auto; try lia.
  - destruct (nth_error (sockets (platform w)) id) as [s|] eqn:E;
      [|discriminate].
    destruct (Z.eqb_spec (readyState s) 0); [|discriminate].
    injection Hstep as <- _. rewrite on_open_spec. cbn.
    eapply opened_Inv; eauto.
  - destruct (Z.eqb_spec (ready_state id (platform w)) 1); [|discriminate].
    injection Hstep as <- _. now apply message_Inv.
  - destruct (nth_error (sockets (platform w)) id) as [s|] eqn:E;
      [|discriminate].
    destruct (Z.eqb_spec (readyState s) 3); [discriminate|].
    injection Hstep as <- _. eapply closed_Inv; eauto.
  - (* a tick *)
    destruct (existsb _ _); [|discriminate].
    injection Hstep as <- _. rewrite _ping_spec.
    destruct (__socket (vars w)); assumption.
  - (* the reconnect delay is over *)
    destruct (timeouts (platform w)) as [|n] eqn:E; [discriminate|].
    injection Hstep as <- _. destruct HI as [Ht Hs Hp Hq Hl Hf Hwf Hpr].
    destruct w as [v p]. unfold on_platform, pending in *. cbn in *.
    constructor; cbn; auto; try lia.
    intros Hone. apply Hq. lia.
Qed.

Lemma run_Inv evs : forall w w' effs,
  Inv w -> run w evs = Some (w', effs) -> Inv w'.
Proof.
  induction evs as [|e r IH]; intros w w' effs HI Hrun; cbn in Hrun.
  - now injection Hrun as <- _.
  - destruct (step w e) as [[w1 e1]|] eqn:Es; [|discriminate].
    destruct (run w1 r) as [[w2 e2]|] eqn:Er; [|discriminate].
    injection Hrun as <- _. eauto using step_Inv.
Qed.

Lemma Reachable_Inv w : Reachable w -> Inv w.
Proof.
  intros (ws & evs & effs & Hrun). eapply run_Inv; eauto using Inv_boot.
Qed.

Lemma run_app w evs1 evs2 w1 e1 w2 e2 :
  run w evs1 = Some (w1, e1) -> run w1 evs2 = Some (w2, e2) ->
  run w (evs1 ++ evs2) = Some (w2, e1 ++ e2).
Proof.
  revert w e1. induction evs1 as [|e r IH]; intros w e1 H1 H2; cbn in *.
  - injection H1 as <- <-. exact H2.
  - destruct (step w e) as [[wa ea]|]; [|discriminate].
    destruct (run wa r) as [[wb eb]|] eqn:Er; [|discriminate].
    injection H1 as <- <-. rewrite (IH _ _ Er H2).
    now rewrite app_assoc.
Qed.

Lemma Reachable_step w e w' effs :
  Reachable w -> step w e = Some (w', effs) -> Reachable w'.
Proof.
  intros (ws & evs & effs0 & Hrun) Hstep.
  exists ws, (evs ++ [e]), (effs0 ++ effs ++ []).
  eapply run_app; eauto. cbn. now rewrite Hstep.
Qed.

Lemma Reachable_after evs : enabled evs = true -> Reachable (after evs).
Proof.
  unfold enabled, after, init_world.
  destruct (run (boot true) evs) as [[w effs]|] eqn:E; [|discriminate].
  intros _. now exists true, evs, effs.
Defined.

(* ================================================================ *)
(** ** Plain names

    On names that [Object.prototype] does not define, the functions of
    [TwoWay] are the functions of the source. *)
(* ================================================================ *)

Lemma in_chain_plain {A} k (o : JSObject.t A) :
  plain k = true -> in_chain k o = JSObject.has k o.
Proof.
  unfold plain, in_chain. intros H. apply negb_true_iff in H.
  rewrite H. apply orb_false_r.
Qed.

Lemma _addTrack_chain_plain s k f w :
  plain s = true -> plain k = true ->
  _addTrack_chain s k f w = _addTrack s k f w.
Proof.
  intros Hs Hk. unfold _addTrack_chain, _addTrack, add_track. unfold_m.
  rewrite in_chain_plain by exact Hs.
  destruct w as [[ping close cookie socket url R] p]. cbn.
  destruct (JSObject.has s R) eqn:Eh; cbn.
  - apply JSObjectFacts.has_get in Eh as (keys & Ek). rewrite Ek.
    rewrite in_chain_plain by exact Hk.
    destruct (JSObject.get k keys) as [l|] eqn:El.
    + assert (Hh : JSObject.has k keys = true)
        by (apply JSObjectFacts.has_get; eauto).
      rewrite Hh. reflexivity.
    + assert (Hh : JSObject.has k keys = false)
        by (now apply JSObjectFacts.has_false_get).
      rewrite Hh. reflexivity.
  - rewrite JSObjectFacts.get_set_same.
    rewrite in_chain_plain by exact Hk. reflexivity.
Qed.

Lemma track_chain_plain s k f w :
  plain s = true -> plain k = true ->
  track_chain s k f w = track s k f w.
Proof.
  intros Hs Hk. unfold track_chain, track, bind.
  now rewrite _addTrack_chain_plain.
Qed.

Lemma bind_read {A B} (g : Vars -> A) (k : A -> M B) w :
  (x <- read g ;; k x) w = k (g (vars w)) w.
Proof. unfold bind, read. now destruct (k _ w) as [[c w2] e2]. Qed.

Lemma untrack_chain_plain s k f w :
  plain s = true -> plain k = true ->
  untrack_chain s k f w = untrack s k f w.
Proof.
  intros Hs Hk. unfold untrack_chain, untrack. rewrite !bind_read.
  rewrite in_chain_plain by exact Hs.
  destruct (JSObject.get s (__services (vars w))) as [keys|] eqn:Es.
  - assert (Hh : JSObject.has s (__services (vars w)) = true)
      by (apply JSObjectFacts.has_get; eauto).
    rewrite Hh. rewrite in_chain_plain by exact Hk.
    destruct (JSObject.get k keys) as [l|] eqn:Ek.
    + assert (Hk' : JSObject.has k keys = true)
        by (apply JSObjectFacts.has_get; eauto).
      rewrite Hk'. reflexivity.
    + assert (Hk' : JSObject.has k keys = false)
        by (now apply JSObjectFacts.has_false_get).
      rewrite Hk'. reflexivity.
  - assert (Hh : JSObject.has s (__services (vars w)) = false)
      by (now apply JSObjectFacts.has_false_get).
    rewrite Hh. reflexivity.
Qed.

(** A frame whose service and key convert to plain names. *)
Lemma route_chain_plain (m : JSObject.t value) (s k : string) (w : World) :
  to_string (JSObject.get "service" m) = Some s -> plain s = true ->
  to_string (JSObject.get "key" m) = Some k -> plain k = true ->
  route_chain (Some (JObj m)) w = route (Some (JObj m)) w.
Proof.
  intros Es Hs Ek Hk.
  unfold route_chain, route, read_prop, to_bool, to_str. unfold_m. cbn.
  destruct (truthy (JSObject.get "error" m)) as [[]|]; try reflexivity.
  rewrite Es. cbn. rewrite in_chain_plain by exact Hs.
  destruct (JSObject.get s (__services (vars w))) as [keys|] eqn:E.
  - assert (Hh : JSObject.has s (__services (vars w)) = true)
      by (apply JSObjectFacts.has_get; eauto).
    rewrite Hh, Ek. cbn. rewrite in_chain_plain by exact Hk.
    destruct (JSObject.get k keys) as [l|] eqn:El.
    + assert (Hk' : JSObject.has k keys = true)
        by (apply JSObjectFacts.has_get; eauto).
      rewrite Hk'. reflexivity.
    + assert (Hk' : JSObject.has k keys = false)
        by (now apply JSObjectFacts.has_false_get).
      rewrite Hk'. reflexivity.
  - assert (Hh : JSObject.has s (__services (vars w)) = false)
      by (now apply JSObjectFacts.has_false_get).
    rewrite Hh. reflexivity.
Qed.

(** A frame changes the world and has its effects as [_handleMessage]
    gives them, whatever names it carries: where the chain decides
    otherwise the handler throws or is not interpreted, having done
    nothing. *)
Lemma route_chain_handle oMsg w :
  handle (route_chain oMsg) w = handle (route oMsg) w.
Proof.
  unfold handle, route_chain, route, in_chain, read_prop, to_bool, to_str.
  unfold_m.
  repeat (case_match; cbn [fst snd app world_of effects_of]; auto);
    try congruence.
  all: match goal with
       | H : JSObject.has ?k ?o || _ = false,
         G : JSObject.get ?k ?o = Some _ |- _ =>
           apply orb_false_elim in H as [H _];
           assert (JSObject.has k o = true)
             by (apply JSObjectFacts.has_get; eauto);
           congruence
       end.
Qed.

Lemma _handleMessage_chain_handle id d w :
  handle (_handleMessage_chain id d) w = handle (_handleMessage id d) w.
Proof.
  unfold _handleMessage_chain, _handleMessage. destruct d as [s| |].
  - destruct (String.eqb s "authorized"); [reflexivity|].
    destruct (String.eqb s "pong"); [reflexivity|].
    destruct (JSON_parse s) as [[]|oMsg]; try reflexivity.
    apply route_chain_handle.
  - pose proof (route_chain_handle None w) as H. revert H.
    unfold handle, world_of, effects_of, bind, emit. cbn.
    destruct (route_chain None w) as [[[]]], (route None w) as [[[]]];
      cbn; congruence.
  - pose proof (route_chain_handle None w) as H. revert H.
    unfold handle, world_of, effects_of, bind, emit. cbn.
    destruct (route_chain None w) as [[[]]], (route None w) as [[[]]];
      cbn; congruence.
Qed.

(** On plain names the loop on every name is the loop of [TwoWay]. *)
Lemma step_chain_plain w e :
  plain_event e = true -> step_chain w e = step w e.
Proof.
  destruct e as [url|o|s k f|s k f|key| |j|j d|j|h|]; cbn [plain_event];
    intros Hp; try reflexivity.
  - apply andb_prop in Hp as [Hs Hk]. cbn [step_chain step].
    rewrite track_chain_plain by assumption.
    unfold interpreted, handle. rewrite track_spec. cbv zeta.
    destruct (__socket (vars w)); reflexivity.
  - apply andb_prop in Hp as [Hs Hk]. cbn [step_chain step].
    rewrite untrack_chain_plain by assumption.
    unfold interpreted, handle. now rewrite untrack_spec.
  - cbn [step_chain step]. now rewrite _handleMessage_chain_handle.
Qed.

Lemma run_chain_plain evs : forall w,
  plain_run evs = true -> run_chain w evs = run w evs.
Proof.
  induction evs as [|e r IH]; intros w Hp; [reflexivity|].
  cbn in Hp. apply andb_prop in Hp as [He Hr]. cbn [run_chain run].
  rewrite step_chain_plain by exact He.
  destruct (step w e) as [[w1 e1]|]; [|reflexivity].
  now rewrite IH.
Qed.

Lemma PlainReachable_Reachable w : PlainReachable w -> Reachable w.
Proof.
  intros (ws & evs & effs & Hrun & Hp).
  rewrite run_chain_plain in Hrun by exact Hp. now exists ws, evs, effs.
Qed.




Lemma PlainReachable_after evs :
  enabled evs = true -> plain_run evs = true -> PlainReachable (after evs).
Proof.
  unfold enabled, after, init_world.
  destruct (run (boot true) evs) as [[w effs]|] eqn:E; [|discriminate].
  intros _ Hp. exists true, evs, effs. split; [|exact Hp].
  now rewrite run_chain_plain.
Defined.

(* ================================================================ *)
(** ** The examples of the specification, run *)
(* ================================================================ *)

(** An error frame: one report, no callback. *)
Example error_frame_is_reported :
  _handleMessage 0
    (DString (Json.text "{'error':{'code':403,'msg':'denied'}}"))
    (after two_listeners)
  = (Return tt, after two_listeners,
     [Trigger "error" "twoway: Websocket failed: denied (403)"]).
Proof. reflexivity. Qed.

(** [untrack] of a callback that was never registered. *)
Example untrack_unknown_callback :
  untrack "chat" "room1" 9 (after two_listeners)
  = (Return false, after two_listeners, []).
Proof. reflexivity. Qed.

(** [authorized] twice in a row: the second changes nothing. *)
Example authorized_twice :
  step (after connected) (SocketMessage 0 (DString "authorized"))
  = Some (after connected, []).
Proof. reflexivity. Qed.

(** A frame for a topic nobody tracks. *)
Example unknown_topic_is_dropped :
  _handleMessage 0
    (DString (Json.text "{'service':'mail','key':'inbox','data':1}"))
    (after two_listeners)
  = (Return tt, after two_listeners, []).
Proof. reflexivity. Qed.

(* ================================================================ *)
(** ** Authorization and the keepalive timer *)
(* ================================================================ *)

(** C1, as stated, fails: after a reconnect no keepalive timer runs;
    [authorized] then arrives, the flag is cleared, and still no timer
    runs, for the handler starts none. *)
Lemma authorized_starts_no_keepalive :
  exists w effs w',
    run init_world reconnected = Some (w, effs) /\
    intervals (platform w) = [] /\
    step w (SocketMessage 1 (DString "authorized")) = Some (w', []) /\
    __close (vars w') = false /\
    intervals (platform w') = [].
Proof.
  eexists _, _, _. split; [vm_compute; reflexivity|].
  repeat split; vm_compute; reflexivity.
Qed.

(** C1, amended: on [authorized] the handler clears the intentional-close
    flag and does nothing else.  The keepalive timer is started by the
    open routine, once the handshake has answered and the transport
    object exists, when the timer handle is [null]: its period is
    300000 ms, and each tick sends a [ping] frame on the transport held. *)
Theorem authorized_only_clears_flag (sock : SocketId) (key : jsval) (w : World) :
  _handleMessage sock (DString "authorized") w
    = (Return tt, mkWorld (with_close false (vars w)) (platform w), [])
  /\ started (effects_of (_openSocket_then key w))
     = (if has_WebSocket (platform w)
        then match __ping (vars w) with
             | None => [(next_timer (platform w), 300000%Z)]
             | Some _ => []
             end
        else [])
  /\ __ping (vars (world_of (_openSocket_then key w)))
     = (if has_WebSocket (platform w)
        then match __ping (vars w) with
             | None => Some (next_timer (platform w))
             | Some h => Some h
             end
        else __ping (vars w))
  /\ intervals (platform (world_of (_openSocket_then key w)))
     = (if has_WebSocket (platform w)
        then match __ping (vars w) with
             | None => intervals (platform w) ++ [next_timer (platform w)]
             | Some _ => intervals (platform w)
             end
        else intervals (platform w))
  /\ _ping w
     = match __socket (vars w) with
       | SockObj id => (Return tt, w, [Send id (One MsgPing)])
       | SockNull | SockFalse => (Throw TypeError, w, [])
       end.
Proof.
  split; [reflexivity|].
  rewrite _openSocket_then_spec, _ping_spec. cbv zeta.
  destruct (has_WebSocket (platform w)) eqn:Ews;
    destruct (__ping (vars w)) eqn:Eping; cbn;
    rewrite ?Eping; repeat split; reflexivity.
Qed.

(* ================================================================ *)
(** ** Frames that are not text *)
(* ================================================================ *)

(** C10: on data that is not a string the handler reports one
    [unknown data] error and then throws a [TypeError], reading [error]
    of the message that was never decoded. *)
Theorem binary_frame_reports_then_throws
    (sock : SocketId) (d : Data) (w : World) :
  typeof d <> "string" ->
  _handleMessage sock d w
    = (Throw TypeError, w,
       [Trigger "error"
          "twoway: websocket failed, got unknown data: object"]).
Proof.
  destruct d; cbn; [congruence| |]; reflexivity.
Qed.

(** A blob arrives on the authorized connection. *)
Lemma binary_frame_reports_then_throws_example :
  typeof DBlob <> "string" /\
  _handleMessage 0 DBlob (after connected)
    = (Throw TypeError, after connected,
       [Trigger "error"
          "twoway: websocket failed, got unknown data: object"]).
Proof.
  split; [discriminate|].
  apply (@binary_frame_reports_then_throws 0 DBlob (after connected)).
  discriminate.
Defined.

(* ================================================================ *)
(** ** Text frames *)
(* ================================================================ *)

(** What the router does: nothing, one report of a backend error, or
    the calls of one topic's callbacks. *)
Lemma route_effects oMsg w :
  effects_of (route oMsg w) = []
  \/ (exists a b,
        effects_of (route oMsg w) = [Trigger "error" (websocket_failed a b)])
  \/ (exists l d,
        effects_of (route oMsg w) = map (fun f => Invoke f d) l).
Proof.
  unfold route, read_prop, to_bool, to_str.
  unfold_m.
  repeat (case_match; cbn [fst snd app]; auto);
    try (right; left; eauto; fail).
  rewrite call_each_spec in *.
  match goal with H : (_, _, _) = (_, _, _) |- _ => injection H as _ _ <- end.
  right; right; eauto.
Qed.

Lemma unknown_data_not_backend_error d a b :
  unknown_data d <> websocket_failed a b.
Proof. unfold unknown_data, websocket_failed. cbn. discriminate. Qed.

Lemma route_reported oMsg w d :
  ~ In ("error", unknown_data d) (reported (effects_of (route oMsg w))).
Proof.
  destruct (route_effects oMsg w) as [H|[(a & b & H)|(l & x & H)]];
    rewrite H; cbn.
  - tauto.
  - intros [Hm|[]]. apply (@unknown_data_not_backend_error d a b).
    congruence.
  - clear H. induction l as [|f r IH]; cbn; auto.
Qed.

(** C2, as stated, fails: a string that is neither [authorized] nor
    [pong] nor JSON is handed to [JSON.parse], which throws; nothing is
    reported to the event sink.  And a string that decodes to a message
    of no known shape is dropped without a report. *)
Lemma other_string_is_decoded_not_reported :
  enabled connected = true /\
  _handleMessage 0 (DString "hello") (after connected)
    = (Throw SyntaxError, after connected, []) /\
  _handleMessage 0 (DString "{}") (after connected)
    = (Return tt, after connected, []).
Proof. repeat split; vm_compute; reflexivity. Qed.

(** C2, amended: a string other than [authorized] and [pong] is
    JSON-decoded and never reported as [unknown data] (that report is
    made for data that is not a string); the world is left as it is;
    when the string is not JSON the handler throws a [SyntaxError],
    having reported nothing and called no callback. *)
Theorem other_string_never_unknown_data
    (sock : SocketId) (s : string) (w : World) :
  s <> "authorized" -> s <> "pong" ->
  let r := _handleMessage sock (DString s) w in
  (forall d, ~ In ("error", unknown_data d) (reported (effects_of r)))
  /\ world_of r = w
  /\ (JSON_parse s = inl Json.SyntaxError ->
      r = (Throw SyntaxError, w, [])).
Proof.
  intros Ha Hp. cbv zeta.
  split; [|split].
  - intros d Hin. unfold _handleMessage in Hin.
    apply String.eqb_neq in Ha, Hp. rewrite Ha, Hp in Hin.
    destruct (JSON_parse s) as [[]|oMsg]; cbn in Hin; try tauto.
    now apply route_reported in Hin.
  - apply _handleMessage_world. congruence.
  - intros Hparse. unfold _handleMessage.
    apply String.eqb_neq in Ha, Hp. now rewrite Ha, Hp, Hparse.
Qed.

(** The text [hello] arrives on the authorized connection. *)
Lemma other_string_never_unknown_data_example :
  "hello" <> "authorized" /\ "hello" <> "pong" /\
  (forall d,
      ~ In ("error", unknown_data d)
           (reported (effects_of
              (_handleMessage 0 (DString "hello") (after connected))))).
Proof.
  split; [discriminate|]. split; [discriminate|].
  apply (@other_string_never_unknown_data 0 "hello" (after connected));
    discriminate.
Defined.

(** The frame of the specification's example reaches both listeners,
    in the order they registered. *)
Example chat_frame_reaches_both_listeners :
  _handleMessage_chain 0 (DString chat_frame) (after two_listeners)
  = (Return tt, after two_listeners,
     [Invoke 1 (Some (JObj [("text", JStr "hi")]));
      Invoke 2 (Some (JObj [("text", JStr "hi")]))]).
Proof. reflexivity. Qed.

(** C8, on the code: the service [chat] is tracked and a frame arrives
    for its key [toString].  No topic is registered under that key, yet
    the [in] test finds [toString] on [Object.prototype]; the value is a
    function, [for ... of] cannot iterate it, and the handler throws a
    [TypeError] where a silent return is due.  No callback is called and
    the world is as it was. *)
Theorem inherited_key_frame_throws :
  enabled two_listeners = true
  /\ JSON_parse toString_frame
     = inr (JObj [("service", JStr "chat"); ("key", JStr "toString");
                  ("data", JNum "1")])
  /\ callbacks_of "chat" "toString" (__services (vars (after two_listeners)))
     = None
  /\ _handleMessage_chain 0 (DString toString_frame) (after two_listeners)
     = (Throw TypeError, after two_listeners, []).
Proof. repeat split; vm_compute; reflexivity. Qed.

(* ================================================================ *)
(** ** Single topic frames *)
(* ================================================================ *)

Lemma frames_app a b : frames (a ++ b) = frames a ++ frames b.
Proof. unfold frames. now rewrite flat_map_app. Qed.

(** C4, as stated, fails: the transport has opened and [authorized] has
    not arrived (the flag is still true); [track] sends its frame all
    the same. *)
Lemma track_sends_before_authorization :
  enabled opening = true /\
  conn_state (after opening) = OpenUnauthorized /\
  __close (vars (after opening)) = true /\
  frames (effects_of (track_chain "chat" "room2" 2 (after opening)))
    = [(0, One (MsgTrack "chat" "room2"))].
Proof. repeat split; vm_compute; reflexivity. Qed.

(** C4, amended: for a service and a key that [Object.prototype] does
    not define, [track] sends its one frame, and [untrack] the [untrack]
    frame of a key whose last callback it removes, exactly when the
    module holds a transport whose ready-state is 1, that is in both
    open states, authorized or not; in [Closed] and [Connecting] nothing
    is sent for the call. *)
Theorem topic_frame_iff_transport_open
    (s k : string) (f : Callback) (w : World) :
  plain s = true -> plain k = true ->
  frames (effects_of (track_chain s k f w))
    = match open_socket w with
      | Some id => [(id, One (MsgTrack s k))]
      | None => []
      end
  /\ frames (effects_of (untrack_chain s k f w))
     = (if removes_last s k f (__services (vars w))
        then match open_socket w with
             | Some id => [(id, One (MsgUntrack s k))]
             | None => []
             end
        else [])
  /\ match conn_state w with
     | OpenUnauthorized | OpenAuthorized => open_socket w <> None
     | Closed | Connecting => open_socket w = None
     end.
Proof.
  intros Hs Hk.
  rewrite track_chain_plain, untrack_chain_plain by assumption.
  split; [|split].
  - rewrite track_spec. cbv zeta. unfold open_socket.
    destruct (__socket (vars w)); cbn; try reflexivity.
    destruct (Z.eqb _ 1); reflexivity.
  - rewrite untrack_spec. cbv zeta. cbn [effects_of snd].
    rewrite frames_app.
    replace (frames (if emptying s k f (__services (vars w))
                     then _ else _)) with (@nil (SocketId * Payload)).
    + rewrite app_nil_r.
      destruct (removes_last _ _ _ _); [|reflexivity].
      destruct (open_socket w); reflexivity.
    + destruct (emptying _ _ _ _); [|reflexivity].
      destruct (__socket (vars w)); reflexivity.
  - unfold conn_state, open_socket, ready_state.
    destruct (__socket (vars w)) as [| |id]; try reflexivity.
    destruct (nth_error (sockets (platform w)) id) as [x|]; [|reflexivity].
    destruct (Z.eqb_spec (readyState x) 0) as [E0|E0].
    + rewrite E0. reflexivity.
    + destruct (Z.eqb (readyState x) 1); [|reflexivity].
      destruct (authorized x); discriminate.
Qed.

(** A second topic on the open, authorized transport. *)
Lemma topic_frame_iff_transport_open_example :
  frames (effects_of (track_chain "chat" "room2" 2 (after connected)))
  = [(0, One (MsgTrack "chat" "room2"))].
Proof.
  exact (proj1 (@topic_frame_iff_transport_open "chat" "room2" 2
                  (after connected) eq_refl eq_refl)).
Defined.

(* ================================================================ *)
(** ** The last topic goes *)
(* ================================================================ *)

Lemma untrack_services s k f w :
  __services (vars (world_of (untrack s k f w)))
  = remove_track s k f (__services (vars w)).
Proof.
  rewrite untrack_spec. cbv zeta.
  destruct (emptying _ _ _ _); reflexivity.
Qed.

(** [untrack] takes the registry from non-empty to empty exactly in the
    branch that shuts the connection down. *)
Lemma emptying_iff s k f R :
  JSObject.is_empty R = false ->
  JSObject.is_empty (remove_track s k f R) = true ->
  emptying s k f R = true.
Proof.
  unfold emptying, removes_last, remove_track, callbacks_of.
  intros Hne.
  destruct (JSObject.get s R) as [keys|]; [|congruence].
  destruct (JSObject.get k keys) as [l|]; [|congruence].
  destruct (find_callback f l 0) as [i|]; [|congruence].
  cbv zeta. destruct (Nat.eqb _ 0); cbn.
  - destruct (JSObject.is_empty (JSObject.delete k keys)); auto.
  - now rewrite JSObjectFacts.is_empty_set.
Qed.

(** C7, as stated, fails: the only topic is untracked while the
    handshake is still in flight ([__socket] is [false]); the registry
    goes from non-empty to empty and no close is issued, since there is
    no transport to close. *)
Lemma last_untrack_without_transport_closes_nothing :
  let w := after [CallTrack "chat" "room1" 1] in
  JSObject.is_empty (__services (vars w)) = false /\
  untrack_chain "chat" "room1" 1 w
    = (Return true,
       mkWorld (with_socket SockFalse init_vars)
               (with_requests 1 (init_platform true)),
       [ClearInterval None]) /\
  closes (effects_of (untrack_chain "chat" "room1" 1 w)) = [].
Proof. repeat split; vm_compute; reflexivity. Qed.

(** C7, amended: on names that [Object.prototype] does not define (in
    the history of the module and in the call), when an [untrack] call
    takes the registry from non-empty to empty, the keepalive timer is
    stopped and its handle reset to [null], the intentional-close flag
    is set, and, if the module holds a transport object, exactly one
    close is issued on it, with code 1000 and reason [nothing else to
    track]; with no transport object ([__socket] is [null] or [false])
    no close is issued. *)
Theorem last_untrack_shuts_down
    (s k : string) (f : Callback) (w : World) :
  PlainReachable w ->
  plain s = true -> plain k = true ->
  JSObject.is_empty (__services (vars w)) = false ->
  let r := untrack_chain s k f w in
  JSObject.is_empty (__services (vars (world_of r))) = true ->
  closes (effects_of r)
    = match __socket (vars w) with
      | SockObj id => [(id, 1000%Z, "nothing else to track")]
      | SockNull | SockFalse => []
      end
  /\ In (ClearInterval (__ping (vars w))) (effects_of r)
  /\ __ping (vars (world_of r)) = None
  /\ intervals (platform (world_of r)) = []
  /\ __close (vars (world_of r)) = true.
Proof.
  intros Hplain Hs Hk Hne. cbv zeta.
  rewrite untrack_chain_plain by assumption.
  rewrite untrack_services. intros Hemp.
  pose proof (PlainReachable_Reachable Hplain) as Hreach.
  pose proof (emptying_iff s k f _ Hne Hemp) as Hbranch.
  pose proof (untrack_Inv s k f (Reachable_Inv Hreach)) as HI.
  pose proof (no_interval_without_handle HI) as Hint.
  rewrite untrack_spec in *. cbv zeta in *. rewrite Hbranch in *.
  cbn [world_of effects_of fst snd] in *.
  assert (Hcl : forall l, closes (l ++ ClearInterval (__ping (vars w))
                 :: match __socket (vars w) with
                    | SockObj id => [Close id 1000 "nothing else to track"]
                    | _ => []
                    end)
               = closes l ++ match __socket (vars w) with
                             | SockObj id =>
                                 [(id, 1000%Z, "nothing else to track")]
                             | _ => []
                             end).
  { intros l. unfold closes. rewrite flat_map_app. cbn.
    destruct (__socket (vars w)); reflexivity. }
  rewrite Hcl. split; [|split; [|split; [|split]]].
  - replace (closes _) with (@nil (SocketId * Z * string)); [reflexivity|].
    destruct (removes_last _ _ _ _); [|reflexivity].
    destruct (open_socket w); reflexivity.
  - apply in_or_app. right. now left.
  - reflexivity.
  - apply Hint. reflexivity.
  - reflexivity.
Qed.

(** The only topic is untracked on the authorized connection. *)
Lemma last_untrack_shuts_down_example :
  PlainReachable (after connected) /\
  JSObject.is_empty (__services (vars (after connected))) = false /\
  closes (effects_of (untrack_chain "chat" "room1" 1 (after connected)))
    = [(0, 1000%Z, "nothing else to track")].
Proof.
  split; [apply PlainReachable_after; reflexivity|].
  split; [reflexivity|].
  apply (@last_untrack_shuts_down "chat" "room1" 1 (after connected)).
  - apply PlainReachable_after; reflexivity.
  - reflexivity.
  - reflexivity.
  - reflexivity.
  - reflexivity.
Defined.

(* ================================================================ *)
(** ** The handshake key of a socket *)
(* ================================================================ *)






(* ================================================================ *)
(** ** The batch sent when the transport opens *)
(* ================================================================ *)








(* ================================================================ *)
(** ** The pruning invariant *)
(* ================================================================ *)

(** C6, on the code: [track('chat', 'toString', cb)], called on the
    fresh module, creates the service entry, finds [toString] in it (on
    [Object.prototype]), and throws at [push], the value being a
    function.  The empty service entry stays in the registry, and no
    handshake is requested. *)
Theorem inherited_key_leaves_empty_service :
  track_chain "chat" "toString" 1 init_world
  = (Throw TypeError,
     mkWorld (with_services [("chat", JSObject.empty_obj)] init_vars)
             (init_platform true),
     [])
  /\ (exists w,
        run_chain (boot true) [CallTrack "chat" "toString" 1] = Some (w, [])
        /\ JSObject.has "chat" (__services (vars w)) = true
        /\ JSObject.get "chat" (__services (vars w))
           = Some JSObject.empty_obj).
Proof.
  split; [reflexivity|].
  eexists. split; [reflexivity|]. split; reflexivity.
Qed.

(** X20: the pruning invariant, on names that [Object.prototype] does
    not define: after any sequence of calls with such names (and of
    platform events between them), a service entry exists exactly when
    it holds a key, and a key entry exists exactly when it holds a
    callback: no empty service entry and no empty callback list is
    retained. *)
Theorem registry_stays_pruned
    (ws : bool) (evs : list Event) (w : World) (effs : list Effect) :
  plain_run evs = true ->
  run_chain (boot ws) evs = Some (w, effs) ->
  let R := __services (vars w) in
  (forall s, JSObject.has s R = true <->
             exists keys k, JSObject.get s R = Some keys
                            /\ JSObject.has k keys = true)
  /\ (forall s keys k, JSObject.get s R = Some keys ->
        (JSObject.has k keys = true <->
         exists l, JSObject.get k keys = Some l /\ l <> []))
  /\ (forall s keys, JSObject.get s R = Some keys ->
        JSObject.is_empty keys = false)
  /\ (forall s k, callbacks_of s k R <> Some []).
Proof.
  intros Hp Hrun R. rewrite run_chain_plain in Hrun by exact Hp.
  assert (HI : Inv w) by (eapply run_Inv; eauto using Inv_boot).
  pose proof (inv_pruned HI) as HP. fold R in HP.
  split; [|split; [|split]].
  - intros s. split.
    + intros Hs. apply JSObjectFacts.has_get in Hs as (keys & Hk).
      destruct (HP _ _ Hk) as [Hne _].
      destruct keys as [|[k l] r]; [discriminate|].
      exists ((k, l) :: r), k. split; auto. cbn.
      now rewrite String.eqb_refl.
    + intros (keys & k & Hk & _). apply JSObjectFacts.has_get. eauto.
  - intros s keys k Hk. destruct (HP _ _ Hk) as [_ Hl]. split.
    + intros Hh. apply JSObjectFacts.has_get in Hh as (l & El). eauto.
    + intros (l & El & _). apply JSObjectFacts.has_get. eauto.
  - intros s keys Hk. now destruct (HP _ _ Hk).
  - intros s k. unfold callbacks_of.
    destruct (JSObject.get s R) as [keys|] eqn:E; [|discriminate].
    destruct (HP _ _ E) as [_ Hl]. intros Hk. now apply Hl in Hk.
Qed.

(** Four registrations and three removals leave one listener. *)
Lemma registry_stays_pruned_example :
  plain_run track_and_untrack = true
  /\ __services (vars (after track_and_untrack))
     = [("chat", [("room1", [4])])]
  /\ forall s k,
       callbacks_of s k (__services (vars (after track_and_untrack)))
       <> Some [].
Proof.
  split; [reflexivity|]. split; [reflexivity|].
  destruct (run_chain (boot true) track_and_untrack) as [[w effs]|] eqn:Hrun;
    [|vm_compute in Hrun; discriminate].
  destruct (@registry_stays_pruned true track_and_untrack w effs
              eq_refl Hrun) as (_ & _ & _ & H).
  assert (Hw : w = after track_and_untrack)
    by (vm_compute in Hrun; injection Hrun as <- _; reflexivity).
  rewrite <- Hw. exact H.
Defined.

(* ================================================================ *)
(** ** The keepalive after an unexpected close *)
(* ================================================================ *)


Lemma started_app a b : started (a ++ b) = started a ++ started b.
Proof. unfold started. now rewrite flat_map_app. Qed.






(* ================================================================ *)
(** ** Close notifications *)
(* ================================================================ *)

Lemma reconnects_app a b : reconnects (a ++ b) = reconnects a ++ reconnects b.
Proof. unfold reconnects. now rewrite flat_map_app. Qed.

Lemma _handleMessage_no_reconnect sock d w :
  reconnects (effects_of (_handleMessage sock d w)) = [].
Proof.
  assert (Hroute : forall o, reconnects (effects_of (route o w)) = []).
  { intros o.
    destruct (route_effects o w) as [H|[(a & b & H)|(l & x & H)]];
      rewrite H; cbn; auto.
    clear H. induction l as [|f r IH]; cbn; auto. }
  unfold _handleMessage. destruct d as [s| |].
  - destruct (String.eqb s "authorized"); [reflexivity|].
    destruct (String.eqb s "pong"); [reflexivity|].
    destruct (JSON_parse s) as [[]|oMsg]; try reflexivity. apply Hroute.
  - unfold bind, emit. specialize (Hroute None). unfold effects_of in *.
    destruct (route None w) as [[[]]]; cbn in *; auto.
  - unfold bind, emit. specialize (Hroute None). unfold effects_of in *.
    destruct (route None w) as [[[]]]; cbn in *; auto.
Qed.

(** Only a close notification that finds the flag false schedules a
    reconnect. *)
Lemma reconnect_only_on_unexpected_close w e w' effs :
  step w e = Some (w', effs) -> reconnects effs <> [] ->
  exists id, e = SocketClosed id /\ __close (vars w) = false.
Proof.
  intros Hstep Hre.
  assert (Habs : reconnects effs = [] ->
                 exists id, e = SocketClosed id /\ __close (vars w) = false)
    by (intros H; now apply Hre in H).
  destruct e as [url|o|s k f|s k f|key| |id|id d|id|h|]; cbn in Hstep.
  - injection Hstep as _ <-. now apply Habs.
  - injection Hstep as _ <-. now apply Habs.
  - injection Hstep as _ <-. apply Habs. unfold handle. rewrite track_spec.
    cbv zeta. destruct (__socket (vars w)); cbn; auto.
    destruct (Z.eqb _ 1); reflexivity.
  - injection Hstep as _ <-. apply Habs. unfold handle. rewrite untrack_spec.
    cbv zeta. cbn. rewrite reconnects_app.
    destruct (removes_last _ _ _ _), (emptying _ _ _ _),
      (open_socket w), (__socket (vars w)); reflexivity.
  - destruct (requests (platform w)) as [|n]; [discriminate|].
    injection Hstep as _ <-. apply Habs. unfold handle.
    rewrite _openSocket_then_spec. cbv zeta. cbn.
    destruct (has_WebSocket (platform w)), (__ping (vars w)); reflexivity.
  - destruct (requests (platform w)) as [|n]; [discriminate|].
    injection Hstep as _ <-. now apply Habs.
  - destruct (nth_error (sockets (platform w)) id) as [x|]; [|discriminate].
    destruct (Z.eqb (readyState x) 0); [|discriminate].
    injection Hstep as _ <-. now apply Habs.
  - destruct (Z.eqb (ready_state id (platform w)) 1); [|discriminate].
    injection Hstep as _ <-. apply Habs. apply _handleMessage_no_reconnect.
  - destruct (nth_error (sockets (platform w)) id) as [x|]; [|discriminate].
    destruct (Z.eqb (readyState x) 3); [discriminate|].
    injection Hstep as _ <-. exists id. split; [reflexivity|].
    unfold handle in Hre. rewrite _handleClose_spec in Hre.
    cbv zeta in Hre. cbn in Hre.
    destruct (__close (vars w)); [|reflexivity].
    exfalso. apply Hre. destruct (__ping (vars w)); reflexivity.
  - destruct (existsb _ _); [|discriminate].
    injection Hstep as _ <-. apply Habs. unfold handle. rewrite _ping_spec.
    destruct (__socket (vars w)); reflexivity.
  - destruct (timeouts (platform w)) as [|n]; [discriminate|].
    injection Hstep as _ <-. now apply Habs.
Qed.

(** C3: on a close notification, if the intentional-close flag is true
    the transport reference is released (the state is [Closed]) and no
    reconnect is scheduled; if it is false the flag is set back to true
    and exactly one reconnect is scheduled, 5000 ms later: one more call
    of the open routine is pending.  Nothing else ever schedules a
    reconnect: a step that does is a close notification finding the flag
    false. *)
Theorem close_notification (w : World) :
  let r := _handleClose w in
  completion_of r = Return tt
  /\ (if __close (vars w)
      then __socket (vars (world_of r)) = SockNull
           /\ conn_state (world_of r) = Closed
           /\ reconnects (effects_of r) = []
           /\ timeouts (platform (world_of r)) = timeouts (platform w)
      else __close (vars (world_of r)) = true
           /\ reconnects (effects_of r) = [5000%Z]
           /\ timeouts (platform (world_of r)) = S (timeouts (platform w)))
  /\ (forall e w' effs,
         step w e = Some (w', effs) -> reconnects effs <> [] ->
         exists id, e = SocketClosed id /\ __close (vars w) = false)
  /\ (forall n, timeouts (platform w) = S n ->
         option_map snd (step w TimeoutFired)
         = Some [RestRead "webpoll" "websocket"]).
Proof.
  cbv zeta. rewrite _handleClose_spec. cbv zeta.
  split; [|split; [|split]].
  - destruct (__close (vars w)); reflexivity.
  - destruct w as [[ping close cookie socket url R] p].
    destruct close, ping; cbn; repeat split; reflexivity.
  - intros e w' effs. apply reconnect_only_on_unexpected_close.
  - intros n Hn. cbn. now rewrite Hn.
Qed.

End TwoWayProps.
(* ================================================================== *)
(** * More properties of [twoway.js] *)
(* ================================================================== *)

Module TwoWayMoreProps.

Import Json TwoWay Prototype TwoWayMore TwoWayProps.

(* ================================================================ *)
(** ** Objects, lists *)
(* ================================================================ *)

Lemma set_same_value {A} k (v : A) o :
  JSObject.get k o = Some v -> JSObject.set k v o = o.
Proof.
  induction o as [|[k0 v0] r IH]; simpl; [discriminate|].
  destruct (String.eqb_spec k k0) as [->|Hne].
  - now intros [= ->].
  - intros H. now rewrite IH.
Qed.

Lemma set_twice {A} k (v v' : A) o :
  JSObject.set k v (JSObject.set k v' o) = JSObject.set k v o.
Proof.
  induction o as [|[k0 v0] r IH]; simpl.
  - now rewrite String.eqb_refl.
  - destruct (String.eqb k k0) eqn:E; simpl.
    + now rewrite String.eqb_refl.
    + now rewrite E, IH.
Qed.

Lemma delete_set_new {A} k (v : A) o :
  JSObject.get k o = None -> JSObject.delete k (JSObject.set k v o) = o.
Proof.
  induction o as [|[k0 v0] r IH]; simpl.
  - now rewrite String.eqb_refl.
  - destruct (String.eqb k k0) eqn:E; [discriminate|].
    intros H. simpl. rewrite E. now rewrite IH.
Qed.

Lemma find_callback_absent f l i :
  find_callback f l i = None <-> existsb (Nat.eqb f) l = false.
Proof.
  revert i. induction l as [|g r IH]; intros i; simpl; [tauto|].
  destruct (Nat.eqb f g); simpl; [split; discriminate | apply IH].
Qed.

Lemma find_callback_first f l1 l2 i :
  ~ In f l1 -> find_callback f (l1 ++ f :: l2) i = Some (i + length l1).
Proof.
  revert i. induction l1 as [|g r IH]; intros i Hn; simpl.
  - rewrite Nat.eqb_refl. f_equal. lia.
  - destruct (Nat.eqb_spec f g) as [->|Hne]; [exfalso; apply Hn; now left|].
    rewrite IH by (intros H; apply Hn; now right). f_equal. lia.
Qed.

Lemma splice1_middle {A} (l1 l2 : list A) x :
  splice1 (length l1) (l1 ++ x :: l2) = l1 ++ l2.
Proof.
  unfold splice1. induction l1 as [|y r IH]; simpl; [reflexivity|].
  f_equal. exact IH.
Qed.

Lemma existsb_absent f l : existsb (Nat.eqb f) l = false -> ~ In f l.
Proof.
  intros H Hin. assert (existsb (Nat.eqb f) l = true); [|congruence].
  apply existsb_exists. exists f. split; [assumption | apply Nat.eqb_refl].
Qed.

(* ================================================================ *)
(** ** What [track] and [untrack] do to the registry *)
(* ================================================================ *)

Lemma track_services s k f w :
  __services (vars (world_of (track s k f w)))
  = add_track s k f (__services (vars w)).
Proof.
  rewrite track_spec. cbv zeta. destruct (__socket (vars w)); reflexivity.
Qed.

Lemma add_track_same s k f R :
  callbacks_of s k (add_track s k f R) = Some (listeners s k R ++ [f]).
Proof.
  unfold add_track, listeners, callbacks_of.
  destruct (JSObject.get s R) as [keys|] eqn:E.
  - assert (Hh : JSObject.has s R = true)
      by (apply JSObjectFacts.has_get; eauto).
    rewrite Hh. cbn [negb]. rewrite E.
    destruct (JSObject.get k keys) as [l|];
      now rewrite !JSObjectFacts.get_set_same.
  - assert (Hh : JSObject.has s R = false)
      by (now apply JSObjectFacts.has_false_get).
    rewrite Hh. cbn [negb]. rewrite JSObjectFacts.get_set_same. cbn.
    rewrite JSObjectFacts.get_set_same. cbn. now rewrite String.eqb_refl.
Qed.

Lemma add_track_other s k f R s' k' :
  (s', k') <> (s, k) ->
  callbacks_of s' k' (add_track s k f R) = callbacks_of s' k' R.
Proof.
  intros Hne. unfold add_track, callbacks_of.
  destruct (String.eqb_spec s s') as [<-|Hs].
  - assert (Hk : k <> k') by congruence.
    destruct (JSObject.get s R) as [keys|] eqn:E.
    + assert (Hh : JSObject.has s R = true)
        by (apply JSObjectFacts.has_get; eauto).
      rewrite Hh. cbn [negb]. rewrite E.
      destruct (JSObject.get k keys) as [l|];
        rewrite JSObjectFacts.get_set_same;
        now apply JSObjectFacts.get_set_other.
    + assert (Hh : JSObject.has s R = false)
        by (now apply JSObjectFacts.has_false_get).
      rewrite Hh. cbn [negb]. rewrite JSObjectFacts.get_set_same. cbn.
      rewrite JSObjectFacts.get_set_same. cbn.
      destruct (String.eqb_spec k' k); [congruence | reflexivity].
  - destruct (JSObject.get s R) as [keys|] eqn:E.
    + assert (Hh : JSObject.has s R = true)
        by (apply JSObjectFacts.has_get; eauto).
      rewrite Hh. cbn [negb]. rewrite E.
      destruct (JSObject.get k keys) as [l|];
        now rewrite JSObjectFacts.get_set_other.
    + assert (Hh : JSObject.has s R = false)
        by (now apply JSObjectFacts.has_false_get).
      rewrite Hh. cbn [negb]. rewrite JSObjectFacts.get_set_same. cbn.
      now rewrite !JSObjectFacts.get_set_other.
Qed.

(** X1: for a service and a key that [Object.prototype] does not
    define, [track] appends the callback to the list of its topic,
    creating the service and key entries it needs, without looking for a
    duplicate; the callbacks of every other topic stay as they are. *)
Theorem track_appends_listener (s k : string) (f : Callback) (w : World) :
  plain s = true -> plain k = true ->
  let R := __services (vars w) in
  let R' := __services (vars (world_of (track_chain s k f w))) in
  completion_of (track_chain s k f w) = Return tt
  /\ callbacks_of s k R' = Some (listeners s k R ++ [f])
  /\ (forall s' k', (s', k') <> (s, k) ->
        callbacks_of s' k' R' = callbacks_of s' k' R).
Proof.
  intros Hs Hk. cbv zeta. rewrite track_chain_plain by assumption.
  rewrite track_services. split; [|split].
  - rewrite track_spec. cbv zeta. destruct (__socket (vars w)); reflexivity.
  - apply add_track_same.
  - intros s' k'. apply add_track_other.
Qed.

(** Two listeners of a topic, then a third. *)
Lemma track_appends_listener_example :
  callbacks_of "chat" "room1"
    (__services (vars (world_of (track_chain "chat" "room1" 3
                                   (after two_listeners)))))
  = Some [1; 2; 3].
Proof.
  exact (proj1 (proj2 (@track_appends_listener "chat" "room1" 3
                         (after two_listeners) eq_refl eq_refl))).
Defined.

(** X2: for a service and a key that [Object.prototype] does not
    define, [untrack] of a callback that is not registered for the topic
    (the service, the key or the callback is missing) returns [false],
    changes nothing and does nothing. *)
Theorem untrack_not_registered (s k : string) (f : Callback) (w : World) :
  plain s = true -> plain k = true ->
  registered s k f (__services (vars w)) = false ->
  untrack_chain s k f w = (Return false, w, []).
Proof.
  intros Hs Hk Hreg. rewrite untrack_chain_plain by assumption.
  rewrite untrack_spec. cbv zeta.
  unfold registered in Hreg.
  assert (Hrm : remove_track s k f (__services (vars w))
                = __services (vars w)).
  { unfold remove_track, callbacks_of in *.
    destruct (JSObject.get s _) as [keys|]; [|reflexivity].
    destruct (JSObject.get k keys) as [l|]; [|reflexivity].
    apply find_callback_absent with (i := 0) in Hreg. now rewrite Hreg. }
  assert (Hlast : removes_last s k f (__services (vars w)) = false).
  { unfold removes_last. destruct (callbacks_of s k _) as [l|]; [|reflexivity].
    apply find_callback_absent with (i := 0) in Hreg. now rewrite Hreg. }
  unfold emptying. rewrite Hlast, Hrm. cbn.
  destruct (callbacks_of s k _) as [l|].
  - apply find_callback_absent with (i := 0) in Hreg. rewrite Hreg.
    destruct w as [[] p]; reflexivity.
  - destruct w as [[] p]; reflexivity.
Qed.

(** Callback 9 is not among the listeners of [two_listeners]. *)
Lemma untrack_not_registered_example :
  registered "chat" "room1" 9 (__services (vars (after two_listeners))) = false
  /\ untrack_chain "chat" "room1" 9 (after two_listeners)
     = (Return false, after two_listeners, []).
Proof.
  split; [reflexivity|].
  apply (@untrack_not_registered "chat" "room1" 9 (after two_listeners));
    reflexivity.
Defined.


Lemma untrack_completion s k f w :
  completion_of (untrack s k f w)
  = Return (registered s k f (__services (vars w))).
Proof.
  rewrite untrack_spec. cbv zeta. unfold completion_of, registered. cbn.
  destruct (callbacks_of s k _) as [l|]; [|reflexivity].
  destruct (find_callback f l 0) as [i|] eqn:E.
  - destruct (existsb (Nat.eqb f) l) eqn:Ex; [reflexivity|].
    apply find_callback_absent with (i := 0) in Ex. congruence.
  - apply find_callback_absent in E. now rewrite E.
Qed.

Lemma remove_track_first s k f R keys l1 l2 :
  JSObject.get s R = Some keys ->
  JSObject.get k keys = Some (l1 ++ f :: l2) ->
  ~ In f l1 ->
  remove_track s k f R =
  match l1 ++ l2 with
  | [] => if JSObject.is_empty (JSObject.delete k keys)
          then JSObject.delete s R
          else JSObject.set s (JSObject.delete k keys) R
  | _ :: _ => JSObject.set s (JSObject.set k (l1 ++ l2) keys) R
  end.
Proof.
  intros Hs Hk Hn. unfold remove_track. rewrite Hs, Hk.
  rewrite find_callback_first by assumption. cbn [Nat.add].
  rewrite splice1_middle. now destruct (l1 ++ l2).
Qed.

(** X3: on names that [Object.prototype] does not define (in the
    history of the module and in the call), [untrack] removes the first
    occurrence of the callback in the list of its topic and no other;
    the topic disappears from the registry exactly when its list becomes
    empty; the callbacks of every other topic stay as they are. *)
Theorem untrack_removes_first_occurrence
    (s k : string) (f : Callback) (w : World) (l1 l2 : list Callback) :
  PlainReachable w ->
  plain s = true -> plain k = true ->
  callbacks_of s k (__services (vars w)) = Some (l1 ++ f :: l2) ->
  ~ In f l1 ->
  let R := __services (vars w) in
  let R' := __services (vars (world_of (untrack_chain s k f w))) in
  completion_of (untrack_chain s k f w) = Return true
  /\ listeners s k R' = l1 ++ l2
  /\ (callbacks_of s k R' = None <-> l1 ++ l2 = [])
  /\ (forall s' k', (s', k') <> (s, k) ->
        callbacks_of s' k' R' = callbacks_of s' k' R).
Proof.
  intros Hplain Hps Hpk Hcb Hn. cbv zeta.
  rewrite untrack_chain_plain by assumption. clear Hps Hpk.
  pose proof (PlainReachable_Reachable Hplain) as Hreach.
  destruct (inv_wf (Reachable_Inv Hreach)) as [HwfR Hwfk].
  rewrite untrack_services, untrack_completion.
  set (R := __services (vars w)) in *.
  unfold callbacks_of in Hcb.
  destruct (JSObject.get s R) as [keys|] eqn:Es; [|discriminate].
  assert (Hkeys := Hwfk _ _ Es).
  rewrite (@remove_track_first s k f R keys l1 l2 Es Hcb Hn).
  split.
  { unfold registered, callbacks_of. rewrite Es, Hcb.
    replace (existsb (Nat.eqb f) (l1 ++ f :: l2)) with true; [reflexivity|].
    symmetry. apply existsb_exists. exists f. split.
    - apply in_or_app. right. now left.
    - apply Nat.eqb_refl. }
  destruct (l1 ++ l2) as [|g r] eqn:El.
  - (* the list becomes empty: the key goes, and the service with it when
       it has no other key *)
    destruct (JSObject.is_empty (JSObject.delete k keys)) eqn:Ee.
    + assert (Hgone : JSObject.get s (JSObject.delete s R) = None)
        by (now apply JSObjectFacts.get_delete_same).
      unfold listeners, callbacks_of. rewrite Hgone.
      split; [reflexivity|]. split; [tauto|].
      intros s' k' Hne.
      destruct (String.eqb_spec s' s) as [->|Hs].
      * rewrite Hgone, Es. assert (Hk : k <> k') by congruence.
        rewrite <- (JSObjectFacts.get_delete_other keys Hk).
        symmetry. now apply JSObjectFacts.is_empty_get.
      * now rewrite JSObjectFacts.get_delete_other.
    + unfold listeners, callbacks_of. rewrite JSObjectFacts.get_set_same.
      rewrite JSObjectFacts.get_delete_same by assumption.
      split; [reflexivity|]. split; [tauto|].
      intros s' k' Hne.
      destruct (String.eqb_spec s' s) as [->|Hs].
      * rewrite JSObjectFacts.get_set_same, Es.
        apply JSObjectFacts.get_delete_other. congruence.
      * now rewrite JSObjectFacts.get_set_other.
  - unfold listeners, callbacks_of. rewrite JSObjectFacts.get_set_same.
    rewrite JSObjectFacts.get_set_same.
    split; [reflexivity|]. split; [split; discriminate|].
    intros s' k' Hne.
    destruct (String.eqb_spec s' s) as [->|Hs].
    + rewrite JSObjectFacts.get_set_same, Es.
      apply JSObjectFacts.get_set_other. congruence.
    + now rewrite JSObjectFacts.get_set_other.
Qed.

(** Of [1; 2; 1], removing 2 leaves [1; 1]. *)
Lemma untrack_removes_first_occurrence_example :
  listeners "chat" "room1"
    (__services (vars (world_of (untrack_chain "chat" "room1" 2
                                   (after same_twice))))) = [1; 1].
Proof.
  assert (Hn : ~ In 2 [1]) by (intros [E|[]]; discriminate).
  destruct (@untrack_removes_first_occurrence "chat" "room1" 2
              (after same_twice) [1] [1]
              (PlainReachable_after same_twice eq_refl eq_refl)
              eq_refl eq_refl eq_refl Hn)
    as (_ & H & _).
  exact H.
Defined.

(** X4: on names that [Object.prototype] does not define (in the
    history of the module and in the calls), registering a callback that
    is not yet registered for the topic and removing it again gives back
    the registry as it was: entries created for it are deleted, and the
    entries of the other topics keep their places. *)
Theorem track_then_untrack_restores_registry
    (s k : string) (f : Callback) (w : World) :
  PlainReachable w ->
  plain s = true -> plain k = true ->
  registered s k f (__services (vars w)) = false ->
  let w1 := world_of (track_chain s k f w) in
  completion_of (untrack_chain s k f w1) = Return true
  /\ __services (vars (world_of (untrack_chain s k f w1)))
     = __services (vars w).
Proof.
  intros Hplain Hps Hpk Hreg. cbv zeta.
  rewrite track_chain_plain, untrack_chain_plain by assumption.
  clear Hps Hpk.
  pose proof (PlainReachable_Reachable Hplain) as Hreach.
  pose proof (inv_pruned (Reachable_Inv Hreach)) as Hpr.
  rewrite untrack_services, untrack_completion, track_services.
  set (R := __services (vars w)) in *.
  assert (Hn : ~ In f (listeners s k R)).
  { unfold registered, listeners in *.
    destruct (callbacks_of s k R) as [l|]; [|intros []].
    now apply existsb_absent. }
  pose proof (add_track_same s k f R) as Hcb.
  split.
  { unfold registered. rewrite Hcb. rewrite existsb_app. cbn.
    rewrite Nat.eqb_refl. now rewrite orb_true_r. }
  unfold callbacks_of in Hcb.
  destruct (JSObject.get s (add_track s k f R)) as [keys1|] eqn:E1;
    [|discriminate].
  rewrite (@remove_track_first s k f _ keys1 _ [] E1 Hcb Hn). rewrite app_nil_r.
  revert E1 Hcb. unfold add_track, listeners, callbacks_of in *.
  destruct (JSObject.get s R) as [keys|] eqn:Es.
  - assert (Hh : JSObject.has s R = true)
      by (apply JSObjectFacts.has_get; eauto).
    rewrite Hh. cbn [negb]. rewrite Es.
    destruct (Hpr _ _ Es) as [Hne Hl].
    destruct (JSObject.get k keys) as [l|] eqn:Ek.
    + rewrite JSObjectFacts.get_set_same. intros [= <-] _.
      destruct l as [|g r]; [now specialize (Hl _ _ Ek)|].
      rewrite !set_twice.
      rewrite (@set_same_value _ _ _ _ Ek). now apply set_same_value.
    + rewrite JSObjectFacts.get_set_same. intros [= <-] _.
      rewrite (@delete_set_new _ _ _ _ Ek).
      rewrite Hne. rewrite set_twice. now apply set_same_value.
  - assert (Hh : JSObject.has s R = false)
      by (now apply JSObjectFacts.has_false_get).
    rewrite Hh. cbn [negb]. rewrite JSObjectFacts.get_set_same.
    cbn [JSObject.get JSObject.empty_obj].
    rewrite JSObjectFacts.get_set_same. intros [= <-] _.
    cbn. rewrite String.eqb_refl. cbn.
    rewrite set_twice. now apply delete_set_new.
Qed.

(** A second listener of a topic, added and removed. *)
Lemma track_then_untrack_restores_registry_example :
  __services (vars (world_of (untrack_chain "chat" "room1" 9
                     (world_of (track_chain "chat" "room1" 9
                                  (after two_listeners))))))
  = __services (vars (after two_listeners)).
Proof.
  destruct (@track_then_untrack_restores_registry "chat" "room1" 9
              (after two_listeners)
              (PlainReachable_after two_listeners eq_refl eq_refl)
              eq_refl eq_refl eq_refl) as [_ H].
  exact H.
Defined.


(* ================================================================ *)
(** ** More invariants *)
(* ================================================================ *)

Lemma Inv2_boot ws : Inv2 (boot ws).
Proof.
  constructor; cbn; auto;
    try (intros H; now contradiction H);
    try (intros [|id] s; discriminate).
Qed.

Lemma stop_own_timer w :
  Inv w -> intervals (stop_timer (__ping (vars w)) (platform w)) = [].
Proof.
  intros HI.
  destruct (intervals (stop_timer (__ping (vars w)) (platform w)))
    as [|x r] eqn:E; [reflexivity|].
  assert (Hx : In x (intervals (stop_timer (__ping (vars w)) (platform w))))
    by (rewrite E; now left).
  apply stop_timer_intervals in Hx as [Hx Hne].
  apply (inv_timer HI) in Hx. congruence.
Qed.

Lemma stop_timer_has_WebSocket h p :
  has_WebSocket (stop_timer h p) = has_WebSocket p.
Proof. now destruct h. Qed.

Lemma set_nth_nil_iff {A} (f : A -> A) i l : set_nth i f l = [] <-> l = [].
Proof. destruct l, i; cbn; split; congruence. Qed.

Lemma quiet_no_interval w :
  Inv w -> Inv2 w -> 1 <= pending (platform w) -> intervals (platform w) = [].
Proof.
  intros HI H2 Hp.
  destruct (intervals (platform w)) as [|h r] eqn:E; [reflexivity|].
  destruct (inv_interval_socket H2) as (id & s & _ & Hs & Hlt);
    [rewrite E; discriminate|].
  assert (Hone : pending (platform w) = 1)
    by (pose proof (inv_pending HI); lia).
  destruct (inv_quiet HI Hone) as [_ Hall].
  specialize (Hall _ _ Hs). lia.
Qed.

Lemma track_Inv2 s k f w : Inv2 w -> Inv2 (world_of (track s k f w)).
Proof.
  intros [H1 H2 H3 H4]. rewrite track_spec. cbv zeta.
  destruct w as [v p]. cbn in *.
  destruct (__socket v) eqn:Es; constructor; cbn; auto.
  - intros Hne. destruct (H2 Hne) as (id & s0 & Hid & _). discriminate.
  - intros Hne. destruct (H2 Hne) as (id & s0 & Hid & _). discriminate.
  - rewrite Es. exact H2.
Qed.

Lemma untrack_Inv2 s k f w :
  Inv w -> Inv2 w -> Inv2 (world_of (untrack s k f w)).
Proof.
  intros HI [H1 H2 H3 H4]. rewrite untrack_spec. cbv zeta.
  pose proof (stop_own_timer HI) as Hstop.
  destruct w as [v p]. cbn in *.
  destruct (emptying s k f (__services v)); cbn;
    [|constructor; cbn; auto].
  assert (Hint : intervals (match __socket v with
                            | SockObj id =>
                                set_socket id closing (stop_timer (__ping v) p)
                            | _ => stop_timer (__ping v) p
                            end) = []).
  { destruct (__socket v); cbn; auto. }
  constructor; cbn; auto.
  - rewrite Hint. cbn. lia.
  - rewrite Hint. intros H; now contradiction H.
  - destruct (__socket v); cbn; rewrite ?stop_timer_has_WebSocket;
      rewrite ?stop_timer_sockets; auto.
    intros Hf. rewrite (H4 Hf). now destruct id.
Qed.

Lemma fulfilled_Inv2 key n w :
  Inv w -> Inv2 w -> requests (platform w) = S n ->
  Inv2 (world_of (_openSocket_then key (on_platform (with_requests n) w))).
Proof.
  intros HI H2 Hreq.
  assert (Hno : intervals (platform w) = []).
  { apply quiet_no_interval; auto. unfold pending. lia. }
  assert (Hclosed : all_closed (platform w)).
  { apply (inv_quiet HI). pose proof (inv_pending HI). unfold pending in *.
    lia. }
  destruct H2 as [H1 H2 H3 H4].
  rewrite _openSocket_then_spec. cbv zeta.
  destruct w as [v p]. unfold on_platform in *. cbn in *.
  destruct (has_WebSocket p) eqn:Ews.
  - destruct (__ping v) eqn:Ep; constructor; cbn; rewrite ?Hno; cbn; auto.
    + intros H; now contradiction H.
    + intros id s Hs H2s. apply nth_error_snoc in Hs as [Hs|[_ ->]].
      * specialize (Hclosed _ _ Hs). lia.
      * discriminate.
    + rewrite Ews. discriminate.
    + intros _. exists (length (sockets p)), (mkWebSocket 0 key false).
      split; [reflexivity|]. split; [|cbn; lia].
      rewrite nth_error_app2 by lia. now rewrite Nat.sub_diag.
    + intros id s Hs H2s. apply nth_error_snoc in Hs as [Hs|[_ ->]].
      * specialize (Hclosed _ _ Hs). lia.
      * discriminate.
    + rewrite Ews. discriminate.
  - constructor; cbn; rewrite ?Hno; cbn; auto.
    intros H; now contradiction H.
Qed.

Lemma socket_change_Inv2 (g : WebSocket -> WebSocket) id w :
  (forall s, readyState (g s) = 2%Z -> readyState s = 2%Z) ->
  (forall s, (readyState s < 2)%Z -> (readyState (g s) < 2)%Z) ->
  Inv2 w -> Inv2 (on_platform (set_socket id g) w).
Proof.
  intros Hg2 Hg [H1 H2 H3 H4].
  destruct w as [v p]. unfold on_platform, set_socket in *. cbn in *.
  constructor; cbn; auto.
  - intros Hne. destruct (H2 Hne) as (id0 & s & Hid & Hs & Hlt).
    destruct (Nat.eqb id0 id) eqn:E.
    + exists id0, (g s). rewrite nth_error_set_nth, E, Hs. cbn. auto.
    + exists id0, s. rewrite nth_error_set_nth, E. auto.
  - intros i s. rewrite nth_error_set_nth.
    destruct (Nat.eqb i id); [|apply H3].
    destruct (nth_error (sockets p) i) as [s0|] eqn:E; cbn; [|discriminate].
    intros [= <-] Hs. eauto.
  - intros Hf. rewrite (H4 Hf). now destruct id.
Qed.

Lemma Data_eq_authorized (d : Data) :
  d = DString "authorized" \/ d <> DString "authorized".
Proof.
  destruct d as [t| |]; try (right; discriminate).
  destruct (String.eqb_spec t "authorized") as [->|Hne]; [now left|].
  right. congruence.
Qed.

Lemma message_Inv2 id d w :
  Inv w -> Inv2 w -> ready_state id (platform w) = 1%Z ->
  Inv2 (world_of (_handleMessage id d
                    (on_platform (set_socket id (note_authorized d)) w))).
Proof.
  intros HI H2 Hopen.
  assert (Hg : Inv2 (on_platform (set_socket id (note_authorized d)) w)).
  { apply socket_change_Inv2; auto;
      intros s; destruct d as [t| |]; cbn; auto;
      destruct (String.eqb t "authorized"); cbn; auto. }
  destruct (Data_eq_authorized d) as [->|Hd].
  - rewrite _handleMessage_authorized. cbn.
    destruct Hg as [G1 G2 G3 G4]. constructor; cbn in *; auto.
    (* no socket is closing: the open one is the only one not closed *)
    intros i s Hs H2s. exfalso.
    unfold ready_state in Hopen.
    destruct (nth_error (sockets (platform w)) id) as [s0|] eqn:E0;
      [|discriminate].
    rewrite nth_error_set_nth in Hs.
    destruct (Nat.eqb_spec i id) as [->|Hne].
    + rewrite E0 in Hs. cbn in Hs. injection Hs as <-. cbn in H2s. lia.
    + assert (Ha : __socket (vars w) = SockObj i)
        by (apply (inv_single HI _ Hs); lia).
      assert (Hb : __socket (vars w) = SockObj id)
        by (apply (inv_single HI _ E0); lia).
      congruence.
  - now rewrite _handleMessage_world.
Qed.

Lemma closed_Inv2 id s w :
  Inv w -> Inv2 w -> nth_error (sockets (platform w)) id = Some s ->
  readyState s <> 3%Z ->
  Inv2 (world_of (_handleClose
                    (on_platform (set_socket id (set_ready 3)) w))).
Proof.
  intros HI H2 Hid H3.
  pose proof (stop_own_timer HI) as Hstop.
  destruct H2 as [H1 H2 H2c H4].
  rewrite _handleClose_spec. cbv zeta.
  destruct w as [v p]. unfold on_platform, set_socket in *. cbn in *.
  assert (Hint : intervals (stop_timer (__ping v)
                   (with_sockets (set_nth id (set_ready 3) (sockets p)) p))
                 = []).
  { destruct (__ping v); cbn in *; auto. }
  assert (Hsocks : sockets (stop_timer (__ping v)
                   (with_sockets (set_nth id (set_ready 3) (sockets p)) p))
                   = set_nth id (set_ready 3) (sockets p))
    by (now rewrite stop_timer_sockets).
  assert (Hws : has_WebSocket (stop_timer (__ping v)
                   (with_sockets (set_nth id (set_ready 3) (sockets p)) p))
                = has_WebSocket p)
    by (now rewrite stop_timer_has_WebSocket).
  destruct (__close v) eqn:Ec; constructor; cbn;
    rewrite ?Hint, ?Hsocks, ?Hws; cbn; auto;
    try (intros H; now contradiction H);
    try (intros Hf; rewrite (H4 Hf); now destruct id).
  all: intros i s0; rewrite nth_error_set_nth;
    destruct (Nat.eqb_spec i id) as [->|Hne];
    [rewrite Hid; cbn; intros [= <-]; cbn; discriminate|].
  all: intros Hs H2s; destruct (H2c _ _ Hs H2s) as [Hc Hp];
    rewrite ?Ec in *; split; auto; discriminate.
Qed.

Lemma step_Inv2 w e w' effs :
  Inv w -> Inv2 w -> step w e = Some (w', effs) -> Inv2 w'.
Proof.
  intros HI H2 Hstep. destruct e as [url|o|s k f|s k f|key| |id|id d|id|h|];
    cbn in Hstep.
  - injection Hstep as <- _. destruct H2. destruct w as [v p].
    constructor; cbn in *; auto.
  - injection Hstep as <- _. destruct H2. destruct w as [v p].
    constructor; cbn in *; auto.
  - injection Hstep as <- _. now apply track_Inv2.
  - injection Hstep as <- _. now apply untrack_Inv2.
  - destruct (requests (platform w)) as [|n] eqn:E; [discriminate|].
    injection Hstep as <- _. now apply fulfilled_Inv2.
  - destruct (requests (platform w)) as [|n] eqn:E; [discriminate|].
    injection Hstep as <- _. destruct H2. destruct w as [v p].
    constructor; cbn in *; auto.
  - destruct (nth_error (sockets (platform w)) id) as [s|] eqn:E;
      [|discriminate].
    destruct (Z.eqb_spec (readyState s) 0) as [H0|]; [|discriminate].
    injection Hstep as <- _. rewrite on_open_spec. cbn.
    apply socket_change_Inv2; auto; intros s0; cbn; lia.
  - destruct (Z.eqb_spec (ready_state id (platform w)) 1) as [H1|];
      [|discriminate].
    injection Hstep as <- _. now apply message_Inv2.
  - destruct (nth_error (sockets (platform w)) id) as [s|] eqn:E;
      [|discriminate].
    destruct (Z.eqb_spec (readyState s) 3) as [|H3]; [discriminate|].
    injection Hstep as <- _. eapply closed_Inv2; eauto.
  - destruct (existsb _ _); [|discriminate].
    injection Hstep as <- _. rewrite _ping_spec.
    destruct (__socket (vars w)); exact H2.
  - destruct (timeouts (platform w)) as [|n] eqn:E; [discriminate|].
    injection Hstep as <- _. destruct H2. destruct w as [v p].
    constructor; cbn in *; auto.
Qed.

Lemma run_Inv2 evs : forall w w' effs,
  Inv w -> Inv2 w -> run w evs = Some (w', effs) -> Inv2 w'.
Proof.
  induction evs as [|e r IH]; intros w w' effs HI H2 Hrun; cbn in Hrun.
  - now injection Hrun as <- _.
  - destruct (step w e) as [[w1 e1]|] eqn:Es; [|discriminate].
    destruct (run w1 r) as [[w2 e2]|] eqn:Er; [|discriminate].
    injection Hrun as <- _. eauto using step_Inv, step_Inv2.
Qed.

Lemma Reachable_Inv2 w : Reachable w -> Inv2 w.
Proof.
  intros (ws & evs & effs & Hrun).
  eapply run_Inv2; eauto using Inv_boot, Inv2_boot.
Qed.


(* ================================================================ *)
(** ** One transport, one keepalive *)
(* ================================================================ *)

(** X5: the module never has two connection attempts under way.  In
    every reachable world a socket that has not closed is the one
    [__socket] holds; at most one handshake request or reconnect timeout
    is pending, and while one is, every socket created so far is closed
    and [__socket] is not [null], so that [track] starts no other. *)
Theorem single_transport (w : World) :
  Reachable w ->
  (forall id s, nth_error (sockets (platform w)) id = Some s ->
                readyState s <> 3%Z -> __socket (vars w) = SockObj id)
  /\ pending (platform w) <= 1
  /\ (pending (platform w) = 1 ->
      __socket (vars w) <> SockNull /\ all_closed (platform w)).
Proof.
  intros Hr. pose proof (Reachable_Inv Hr) as HI.
  split; [exact (inv_single HI)|]. split; [exact (inv_pending HI)|].
  exact (inv_quiet HI).
Qed.

(** While the reconnect of [reconnected] is not yet answered. *)
Lemma single_transport_example :
  pending (platform (after reconnecting)) = 1
  /\ all_closed (platform (after reconnecting)).
Proof.
  split; [reflexivity|].
  destruct (@single_transport (after reconnecting)
              (Reachable_after reconnecting eq_refl)) as (_ & _ & H).
  exact (proj2 (H eq_refl)).
Defined.

Lemma running_interval w h :
  Reachable w -> In h (intervals (platform w)) ->
  __ping (vars w) = Some h
  /\ exists id, __socket (vars w) = SockObj id
                /\ (ready_state id (platform w) < 2)%Z.
Proof.
  intros Hr Hin. split; [exact (inv_timer (Reachable_Inv Hr) _ Hin)|].
  destruct (inv_interval_socket (Reachable_Inv2 Hr)) as (id & s & Hid & Hs & Hlt).
  - intros E. rewrite E in Hin. destruct Hin.
  - exists id. split; [assumption|]. unfold ready_state. now rewrite Hs.
Qed.

(** X6: at most one keepalive interval runs.  It is the one [__ping]
    holds, and it runs only while the module holds a transport that is
    connecting or open. *)
Theorem keepalive_is_single (w : World) :
  Reachable w ->
  length (intervals (platform w)) <= 1
  /\ (forall h, In h (intervals (platform w)) ->
        __ping (vars w) = Some h
        /\ exists id, __socket (vars w) = SockObj id
                      /\ (ready_state id (platform w) < 2)%Z).
Proof.
  intros Hr. split.
  - exact (inv_one_interval (Reachable_Inv2 Hr)).
  - intros h. now apply running_interval.
Qed.

(** After a drop and a reconnect no interval runs; after the first
    connection one does. *)
Lemma keepalive_is_single_example :
  length (intervals (platform (after reconnected))) <= 1
  /\ intervals (platform (after connected)) = [1%positive].
Proof.
  split; [|reflexivity].
  exact (proj1 (@keepalive_is_single (after reconnected)
                  (Reachable_after reconnected eq_refl))).
Defined.

Lemma tick_effects w h w' effs :
  Reachable w -> step w (IntervalTick h) = Some (w', effs) ->
  exists id, __socket (vars w) = SockObj id
             /\ (ready_state id (platform w) < 2)%Z
             /\ effs = [Send id (One MsgPing)].
Proof.
  intros Hr Hstep. cbn in Hstep.
  destruct (existsb (timer_eqb h) (intervals (platform w))) eqn:E;
    [|discriminate].
  apply existsb_exists in E as (x & Hx & Heq).
  destruct (@running_interval _ _ Hr Hx) as (Hp & id & Hid & Hlt).
  injection Hstep as _ <-. unfold handle. rewrite _ping_spec, Hid. cbn.
  eauto.
Qed.

(** X7: a tick of the keepalive interval finds a transport object in
    [__socket], connecting or open, and calls its [send] once, with the
    ping frame; the tick is that of the handle in [__ping], and it
    changes nothing. *)
Theorem tick_pings_held_transport (w w' : World) (h : TimerId)
    (effs : list Effect) :
  Reachable w ->
  step w (IntervalTick h) = Some (w', effs) ->
  w' = w
  /\ __ping (vars w) = Some h
  /\ exists id, __socket (vars w) = SockObj id
                /\ (ready_state id (platform w) < 2)%Z
                /\ effs = [Send id (One MsgPing)].
Proof.
  intros Hr Hstep. cbn in Hstep.
  destruct (existsb (timer_eqb h) (intervals (platform w))) eqn:E;
    [|discriminate].
  apply existsb_exists in E as (x & Hx & Heq).
  unfold timer_eqb in Heq. apply Pos.eqb_eq in Heq. subst x.
  destruct (@running_interval _ _ Hr Hx) as (Hp & id & Hid & Hlt).
  injection Hstep as <- <-. unfold handle. rewrite _ping_spec, Hid. cbn.
  split; [reflexivity|]. split; [assumption|]. eauto.
Qed.

Lemma tick_pings_held_transport_example :
  step (after connected) (IntervalTick 1%positive)
  = Some (after connected, [Send 0 (One MsgPing)]).
Proof.
  destruct (step (after connected) (IntervalTick 1%positive)) as [[w' effs]|] eqn:E;
    [|discriminate].
  destruct (@tick_pings_held_transport (after connected) w' 1%positive effs
              (Reachable_after connected eq_refl) E)
    as (-> & _ & id & Hid & _ & ->).
  injection Hid as <-. reflexivity.
Defined.

(* ================================================================ *)
(** ** Where frames go, and which callbacks run *)
(* ================================================================ *)

Lemma to_app_effects effs :
  forallb to_app effs = true ->
  frames effs = [] /\ closes effs = [] /\ handshakes effs = []
  /\ created effs = [] /\ reconnects effs = [] /\ started effs = [].
Proof.
  induction effs as [|e r IH]; cbn; [tauto|].
  intros H. apply andb_true_iff in H as [He Hr].
  destruct (IH Hr) as (H1 & H2 & H3 & H4 & H5 & H6).
  destruct e; try discriminate; cbn; auto 10.
Qed.

Lemma route_to_app o w : forallb to_app (effects_of (route o w)) = true.
Proof.
  destruct (route_effects o w) as [H|[(a & b & H)|(l & x & H)]];
    rewrite H; cbn; auto.
  clear H. induction l as [|f r IH]; cbn; auto.
Qed.

Lemma _handleMessage_to_app sock d w :
  forallb to_app (effects_of (_handleMessage sock d w)) = true.
Proof.
  unfold _handleMessage. destruct d as [s| |].
  - destruct (String.eqb s "authorized"); [reflexivity|].
    destruct (String.eqb s "pong"); [reflexivity|].
    destruct (JSON_parse s) as [[]|oMsg]; try reflexivity.
    apply route_to_app.
  - unfold bind, emit. pose proof (route_to_app None w) as H.
    unfold effects_of in *. destruct (route None w) as [[[] w1] e1]; cbn in *;
      auto.
  - unfold bind, emit. pose proof (route_to_app None w) as H.
    unfold effects_of in *. destruct (route None w) as [[[] w1] e1]; cbn in *;
      auto.
Qed.

Lemma open_socket_held w id :
  open_socket w = Some id ->
  __socket (vars w) = SockObj id /\ ready_state id (platform w) = 1%Z.
Proof.
  unfold open_socket. destruct (__socket (vars w)) as [| |j]; try discriminate.
  destruct (Z.eqb_spec (ready_state j (platform w)) 1); [|discriminate].
  now intros [= ->].
Qed.

(** X8: whatever happens, a frame is only ever sent on the transport
    [__socket] holds, and that transport is connecting or open at that
    moment, never closing or closed; [close] is only ever called on the
    transport held, with code 1000 and the reason of the shutdown. *)
Theorem frames_go_to_held_transport (w w' : World) (e : Event)
    (effs : list Effect) :
  Reachable w ->
  step w e = Some (w', effs) ->
  (forall id p, In (id, p) (frames effs) ->
     __socket (vars w) = SockObj id
     /\ (ready_state id (platform w) < 2)%Z)
  /\ (forall id c r, In (id, c, r) (closes effs) ->
        __socket (vars w) = SockObj id
        /\ c = 1000%Z /\ r = "nothing else to track").
Proof.
  intros Hr Hstep.
  destruct e as [url|o|s k f|s k f|key| |id|id d|id|h|]; cbn in Hstep.
  - injection Hstep as _ <-. cbn. split; intros; contradiction.
  - injection Hstep as _ <-. cbn. split; intros; contradiction.
  - injection Hstep as _ <-. unfold handle. rewrite track_spec. cbv zeta.
    destruct (__socket (vars w)) as [| |id] eqn:Es; cbn;
      try (split; intros; tauto).
    destruct (Z.eqb_spec (ready_state id (platform w)) 1) as [E1|];
      cbn; [|split; intros; contradiction].
    split; [|intros; contradiction].
    intros j p [[= <- _]|[]]. split; [reflexivity | lia].
  - injection Hstep as _ <-. unfold handle. rewrite untrack_spec. cbv zeta.
    cbn. rewrite frames_app.
    unfold closes. rewrite flat_map_app. fold closes.
    split.
    + intros id p Hin. apply in_app_or in Hin as [Hin|Hin].
      * destruct (removes_last _ _ _ _); [|destruct Hin].
        destruct (open_socket w) as [j|] eqn:Eo; [|destruct Hin].
        destruct Hin as [[= <- _]|[]].
        apply open_socket_held in Eo as [Hs H1]. split; [assumption | lia].
      * destruct (emptying _ _ _ _); [|destruct Hin].
        cbn in Hin. destruct (__socket (vars w)); destruct Hin.
    + intros id c r Hin. apply in_app_or in Hin as [Hin|Hin].
      * destruct (removes_last _ _ _ _); [|destruct Hin].
        destruct (open_socket w); destruct Hin.
      * destruct (emptying _ _ _ _); [|destruct Hin].
        cbn in Hin.
        destruct (__socket (vars w)) as [| |j]; cbn in Hin;
          [destruct Hin | destruct Hin |].
        destruct Hin as [[= <- <- <-]|[]]. auto.
  - destruct (requests (platform w)) as [|n]; [discriminate|].
    injection Hstep as _ <-. unfold handle. rewrite _openSocket_then_spec.
    cbv zeta. cbn.
    destruct (has_WebSocket (platform w)); [destruct (__ping (vars w))|];
      cbn; split; intros; contradiction.
  - destruct (requests (platform w)) as [|n]; [discriminate|].
    injection Hstep as _ <-. cbn. split; intros; contradiction.
  - destruct (nth_error (sockets (platform w)) id) as [s|] eqn:E;
      [|discriminate].
    destruct (Z.eqb_spec (readyState s) 0) as [H0|]; [|discriminate].
    injection Hstep as _ <-. unfold handle. rewrite ?on_open_spec. cbn.
    split; [|intros; contradiction].
    intros j p [[= <- _]|[]]. split.
    + apply (inv_single (Reachable_Inv Hr) _ E). lia.
    + unfold ready_state. rewrite E. lia.
  - destruct (Z.eqb (ready_state id (platform w)) 1); [|discriminate].
    injection Hstep as _ <-. unfold handle.
    destruct (@to_app_effects _ (_handleMessage_to_app id d
                (on_platform (set_socket id (note_authorized d)) w)))
      as (-> & -> & _).
    split; intros; contradiction.
  - destruct (nth_error (sockets (platform w)) id) as [s|] eqn:E;
      [|discriminate].
    destruct (Z.eqb (readyState s) 3); [discriminate|].
    injection Hstep as _ <-. unfold handle. rewrite _handleClose_spec.
    cbv zeta. cbn.
    destruct (__close (vars w)), (__ping (vars w)); cbn;
      split; intros; contradiction.
  - destruct (@tick_effects _ _ _ _ Hr Hstep) as (id & Hid & Hlt & ->). cbn.
    split; [|intros; contradiction].
    intros j p [[= <- _]|[]]. auto.
  - destruct (timeouts (platform w)) as [|n]; [discriminate|].
    injection Hstep as _ <-. cbn. split; intros; contradiction.
Qed.

(** The last [untrack] of [connected] sends its frame and closes on the
    transport held. *)
Lemma frames_go_to_held_transport_example :
  __socket (vars (after connected)) = SockObj 0
  /\ frames (effects_of (untrack "chat" "room1" 1 (after connected)))
     = [(0, One (MsgUntrack "chat" "room1"))].
Proof.
  split; [|reflexivity].
  destruct (step (after connected) (CallUntrack "chat" "room1" 1))
    as [[w' effs]|] eqn:E; [|discriminate].
  destruct (@frames_go_to_held_transport (after connected) w'
              (CallUntrack "chat" "room1" 1) effs
              (Reachable_after connected eq_refl) E) as [H _].
  injection E as _ <-.
  exact (proj1 (H 0 (One (MsgUntrack "chat" "room1")) (or_introl eq_refl))).
Defined.

(** A membership in a list written out, with no matching element. *)
Ltac no_member H :=
  cbn in H; repeat (destruct H as [H|H]; [discriminate|]); contradiction.

Lemma route_invokes o w f a :
  In (Invoke f a) (effects_of (route o w)) ->
  exists sv k l, callbacks_of sv k (__services (vars w)) = Some l /\ In f l.
Proof.
  unfold route, read_prop, to_bool, to_str, callbacks_of.
  unfold_m.
  repeat (case_match; cbn [fst snd app In]); try tauto;
    try (intros [H|[]]; discriminate).
  rewrite ?call_each_spec in *.
  match goal with H : (_, _, _) = (_, _, _) |- _ => injection H as _ _ <- end.
  intros Hin. apply in_map_iff in Hin as (g & [= -> _] & Hg).
  match goal with
  | H : JSObject.get ?s (__services (vars w)) = Some ?t,
    H' : JSObject.get ?k ?t = Some ?l |- _ =>
      exists s, k, l; rewrite H; auto
  end.
Qed.

Lemma registered_In s k f R l :
  callbacks_of s k R = Some l -> In f l -> registered s k f R = true.
Proof.
  intros Hcb Hin. unfold registered. rewrite Hcb.
  apply existsb_exists. exists f. split; [assumption | apply Nat.eqb_refl].
Qed.

(** X9: a callback runs only when a text frame is delivered on the
    transport the module holds, and only if it is registered for some
    topic at that moment: a callback that [untrack] has removed from
    every topic is never called again. *)
Theorem callbacks_only_when_registered (w w' : World) (e : Event)
    (effs : list Effect) (f : Callback) (a : jsval) :
  Reachable w ->
  step w e = Some (w', effs) ->
  In (f, a) (invoked effs) ->
  exists id t s k,
    e = SocketMessage id (DString t)
    /\ __socket (vars w) = SockObj id
    /\ registered s k f (__services (vars w)) = true.
Proof.
  intros Hr Hstep Hin.
  assert (Hinv : In (Invoke f a) effs).
  { unfold invoked in Hin. apply in_flat_map in Hin as (x & Hx & Hfa).
    destruct x; cbn in Hfa; try contradiction.
    destruct Hfa as [[= -> ->]|[]]. exact Hx. }
  clear Hin.
  destruct e as [url|o|s k g|s k g|key| |id|id d|id|h|]; cbn in Hstep.
  - injection Hstep as _ <-. destruct Hinv.
  - injection Hstep as _ <-. destruct Hinv.
  - injection Hstep as _ <-. unfold handle in Hinv.
    rewrite track_spec in Hinv. cbv zeta in Hinv.
    destruct (__socket (vars w)); cbn in Hinv;
      try destruct (Z.eqb _ 1); no_member Hinv.
  - injection Hstep as _ <-. unfold handle in Hinv.
    rewrite untrack_spec in Hinv. cbv zeta in Hinv. cbn in Hinv.
    apply in_app_or in Hinv as [Hinv|Hinv].
    + destruct (removes_last _ _ _ _); [|contradiction].
      destruct (open_socket w); no_member Hinv.
    + destruct (emptying _ _ _ _); [|contradiction].
      destruct (__socket (vars w)); no_member Hinv.
  - destruct (requests (platform w)) as [|n]; [discriminate|].
    injection Hstep as _ <-. unfold handle in Hinv.
    rewrite _openSocket_then_spec in Hinv. cbv zeta in Hinv. cbn in Hinv.
    destruct (has_WebSocket (platform w)); [destruct (__ping (vars w))|];
      no_member Hinv.
  - destruct (requests (platform w)) as [|n]; [discriminate|].
    injection Hstep as _ <-. destruct Hinv.
  - destruct (nth_error (sockets (platform w)) id) as [s|]; [|discriminate].
    destruct (Z.eqb (readyState s) 0); [|discriminate].
    injection Hstep as _ <-. unfold handle in Hinv.
    rewrite ?on_open_spec in Hinv. no_member Hinv.
  - destruct (Z.eqb_spec (ready_state id (platform w)) 1) as [H1|];
      [|discriminate].
    injection Hstep as _ <-. unfold handle in Hinv.
    assert (Hheld : __socket (vars w) = SockObj id).
    { unfold ready_state in H1.
      destruct (nth_error (sockets (platform w)) id) as [s|] eqn:E;
        [|discriminate].
      apply (inv_single (Reachable_Inv Hr) _ E). lia. }
    unfold _handleMessage in Hinv. destruct d as [t| |].
    + destruct (String.eqb t "authorized"); [destruct Hinv|].
      destruct (String.eqb t "pong"); [destruct Hinv|].
      destruct (JSON_parse t) as [[]|oMsg]; try destruct Hinv.
      apply route_invokes in Hinv as (sv & k & l & Hcb & Hl).
      exists id, t, sv, k. split; [reflexivity|]. split; [assumption|].
      eapply registered_In; eauto.
    + exfalso. revert Hinv. unfold bind, emit, route, read_prop. unfold_m.
      cbn. intros [Hx|[]]; discriminate.
    + exfalso. revert Hinv. unfold bind, emit, route, read_prop. unfold_m.
      cbn. intros [Hx|[]]; discriminate.
  - destruct (nth_error (sockets (platform w)) id) as [s|]; [|discriminate].
    destruct (Z.eqb (readyState s) 3); [discriminate|].
    injection Hstep as _ <-. unfold handle in Hinv.
    rewrite _handleClose_spec in Hinv. cbv zeta in Hinv. cbn in Hinv.
    destruct (__close (vars w)), (__ping (vars w)); no_member Hinv.
  - destruct (existsb _ _); [|discriminate].
    injection Hstep as _ <-. unfold handle in Hinv. rewrite _ping_spec in Hinv.
    destruct (__socket (vars w)); no_member Hinv.
  - destruct (timeouts (platform w)) as [|n]; [discriminate|].
    injection Hstep as _ <-. no_member Hinv.
Qed.

(** The chat frame of [two_listeners] reaches callback 1. *)
Lemma callbacks_only_when_registered_example :
  exists id t s k,
    SocketMessage 0 (DString chat_frame) = SocketMessage id (DString t)
    /\ __socket (vars (after two_listeners)) = SockObj id
    /\ registered s k 1 (__services (vars (after two_listeners))) = true.
Proof.
  destruct (step (after two_listeners) (SocketMessage 0 (DString chat_frame)))
    as [[w' effs]|] eqn:E; [|discriminate].
  apply (@callbacks_only_when_registered (after two_listeners) w'
           (SocketMessage 0 (DString chat_frame)) effs 1
           (Some (JObj [("text", JStr "hi")]))
           (Reachable_after two_listeners eq_refl) E).
  injection E as _ <-. vm_compute. left. reflexivity.
Defined.

(* ================================================================ *)
(** ** Worlds in which nothing is under way *)
(* ================================================================ *)

Lemma all_closed_ready_state p id : all_closed p -> ready_state id p = 3%Z.
Proof.
  intros H. unfold ready_state.
  destruct (nth_error (sockets p) id) as [s|] eqn:E; [eauto | reflexivity].
Qed.

(** With every socket closed, nothing pending and no interval, the
    platform has no callback of the module left to run. *)
Lemma quiet_disabled w e :
  all_closed (platform w) -> pending (platform w) = 0 ->
  intervals (platform w) = [] ->
  is_call e = false -> step w e = None.
Proof.
  intros Hall Hp Hint Hcall. unfold pending in Hp.
  destruct e as [url|o|s k f|s k f|key| |id|id d|id|h|]; try discriminate;
    cbn.
  - replace (requests (platform w)) with 0 by lia. reflexivity.
  - replace (requests (platform w)) with 0 by lia. reflexivity.
  - destruct (nth_error (sockets (platform w)) id) as [s|] eqn:E;
      [|reflexivity].
    rewrite (Hall _ _ E). reflexivity.
  - rewrite all_closed_ready_state by assumption. reflexivity.
  - destruct (nth_error (sockets (platform w)) id) as [s|] eqn:E;
      [|reflexivity].
    rewrite (Hall _ _ E). reflexivity.
  - rewrite Hint. reflexivity.
  - replace (timeouts (platform w)) with 0 by lia. reflexivity.
Qed.

Lemma all_closed_set_socket id g p :
  (forall s, readyState s = 3%Z -> readyState (g s) = 3%Z) ->
  all_closed p -> all_closed (set_socket id g p).
Proof.
  intros Hg Hall i s. unfold set_socket. cbn. rewrite nth_error_set_nth.
  destruct (Nat.eqb i id); [|apply Hall].
  destruct (nth_error (sockets p) i) as [s0|] eqn:E; cbn; [|discriminate].
  intros [= <-]. eauto.
Qed.

Lemma all_closed_stop_timer h p : all_closed p -> all_closed (stop_timer h p).
Proof. intros H i s. rewrite stop_timer_sockets. apply H. Qed.

Lemma stop_timer_nil h p : intervals p = [] -> intervals (stop_timer h p) = [].
Proof. destruct h as [t|]; cbn; [|auto]. intros ->. reflexivity. Qed.

Lemma stuck_step w e w' effs :
  stuck w -> step w e = Some (w', effs) ->
  is_call e = true /\ stuck w' /\ existsb connects effs = false
  /\ __socket (vars w') = __socket (vars w).
Proof.
  intros (Hs & Hall & Hp & Hint) Hstep.
  destruct (is_call e) eqn:Ec;
    [|rewrite (quiet_disabled w e Hall Hp Hint Ec) in Hstep; discriminate].
  split; [reflexivity|].
  destruct e as [url|o|s k f|s k f|key| |id|id d|id|h|]; try discriminate;
    cbn in Hstep.
  - injection Hstep as <- <-. cbn. repeat split; auto.
  - injection Hstep as <- <-. cbn. repeat split; auto.
  - injection Hstep as <- <-. unfold handle. rewrite track_spec. cbv zeta.
    destruct (__socket (vars w)) as [| |id] eqn:Es; [congruence| |]; cbn.
    + unfold stuck. cbn. rewrite ?Es. repeat split; auto; congruence.
    + rewrite all_closed_ready_state by assumption. unfold stuck. cbn.
      rewrite ?Es. repeat split; auto; congruence.
  - injection Hstep as <- <-. unfold handle. rewrite untrack_spec. cbv zeta.
    assert (Ho : open_socket w = None).
    { unfold open_socket. destruct (__socket (vars w)); auto.
      now rewrite all_closed_ready_state. }
    rewrite Ho. cbn.
    destruct (emptying s k f (__services (vars w))); cbn.
    + split; [|split].
      * unfold stuck. cbn. split; [assumption|].
        destruct (__socket (vars w)) as [| |id].
        1, 2: (split; [now apply all_closed_stop_timer|];
               split; [now rewrite stop_timer_pending
                      | now apply stop_timer_nil]).
        split; [apply all_closed_set_socket;
                [apply closing_closed | now apply all_closed_stop_timer]|].
        split.
        -- change (pending (stop_timer (__ping (vars w)) (platform w)) = 0).
           now rewrite stop_timer_pending.
        -- cbn. now apply stop_timer_nil.
      * destruct (removes_last _ _ _ _); cbn;
          destruct (__socket (vars w)); reflexivity.
      * reflexivity.
    + split; [|split].
      * unfold stuck. cbn. auto.
      * destruct (removes_last _ _ _ _); reflexivity.
      * reflexivity.
Qed.

Lemma stuck_run evs : forall w w' effs,
  stuck w -> run w evs = Some (w', effs) ->
  forallb is_call evs = true /\ stuck w' /\ existsb connects effs = false
  /\ __socket (vars w') = __socket (vars w).
Proof.
  induction evs as [|e r IH]; intros w w' effs Hs Hrun; cbn in Hrun.
  - injection Hrun as <- <-. cbn. auto.
  - destruct (step w e) as [[w1 e1]|] eqn:Es; [|discriminate].
    destruct (run w1 r) as [[w2 e2]|] eqn:Er; [|discriminate].
    injection Hrun as <- <-.
    destruct (@stuck_step _ _ _ _ Hs Es) as (Hc & Hs1 & He1 & Hk1).
    destruct (IH _ _ _ Hs1 Er) as (Hcr & Hs2 & He2 & Hk2).
    cbn. rewrite Hc, Hcr, existsb_app, He1, He2.
    split; [reflexivity|]. split; [exact Hs2|]. split; [reflexivity|].
    congruence.
Qed.

(** X10: the handshake request has no rejection handler.  Once its
    promise rejects, [__socket] keeps the value it had, which is not
    [null]: from then on no platform event reaches the module, and no
    call of [track] or [untrack] requests a handshake, creates a socket,
    sends a frame or sets a timer. *)
Theorem rejected_handshake_is_never_retried (w w1 w' : World)
    (e1 effs : list Effect) (evs : list Event) :
  Reachable w ->
  step w RestRejected = Some (w1, e1) ->
  run w1 evs = Some (w', effs) ->
  e1 = []
  /\ forallb is_call evs = true
  /\ existsb connects effs = false
  /\ __socket (vars w') = __socket (vars w)
  /\ __socket (vars w) <> SockNull.
Proof.
  intros Hr Hstep Hrun. pose proof (Reachable_Inv Hr) as HI.
  pose proof (Reachable_Inv2 Hr) as H2.
  cbn in Hstep.
  destruct (requests (platform w)) as [|n] eqn:Ereq; [discriminate|].
  injection Hstep as <- <-.
  assert (Hone : pending (platform w) = 1).
  { pose proof (inv_pending HI). unfold pending in *. lia. }
  destruct (inv_quiet HI Hone) as [Hs Hall].
  assert (Hstuck : stuck (on_platform (with_requests n) w)).
  { unfold stuck, on_platform, pending in *. cbn.
    split; [assumption|]. split; [exact Hall|]. split; [lia|].
    apply quiet_no_interval; auto. unfold pending. lia. }
  destruct (@stuck_run _ _ _ _ Hstuck Hrun) as (Hc & _ & He & Hk).
  cbn in Hk. auto.
Qed.

Lemma rejected_handshake_is_never_retried_example :
  forallb is_call after_rejection = true
  /\ __socket (vars (after (first_track ++ RestRejected :: after_rejection)))
     = SockFalse.
Proof.
  destruct (@rejected_handshake_is_never_retried
              (after first_track) (after (first_track ++ [RestRejected]))
              (after (first_track ++ RestRejected :: after_rejection))
              [] [ClearInterval None] after_rejection
              (Reachable_after first_track eq_refl) eq_refl eq_refl)
    as (_ & H1 & _ & H2 & _).
  split; [exact H1|]. rewrite H2. reflexivity.
Defined.

(** X11: a topic tracked while the transport is closing is stranded
    (the names, of the history and of the call, are names that
    [Object.prototype] does not define).  [track] finds a transport
    object whose ready-state is 2: it registers the callback, sends
    nothing and opens nothing.  When the close then arrives, the flag is
    set, so [__socket] becomes [null] and no reconnect is scheduled: the
    topic stays registered while no platform event can reach the module
    any more; only a later call can. *)
Theorem track_while_closing_is_stranded (s k : string) (f : Callback)
    (w : World) (id : SocketId) :
  PlainReachable w ->
  plain s = true -> plain k = true ->
  __socket (vars w) = SockObj id ->
  ready_state id (platform w) = 2%Z ->
  let w1 := world_of (track_chain s k f w) in
  effects_of (track_chain s k f w) = []
  /\ exists w2,
       step_chain w1 (SocketClosed id) = Some (w2, [])
       /\ __socket (vars w2) = SockNull
       /\ registered s k f (__services (vars w2)) = true
       /\ (forall e, is_call e = false -> step_chain w2 e = None).
Proof.
  intros Hplain Hps Hpk Hid H2s. cbv zeta.
  rewrite track_chain_plain by assumption. clear Hps Hpk.
  cbn [step_chain].
  pose proof (PlainReachable_Reachable Hplain) as Hr.
  pose proof (Reachable_Inv Hr) as HI. pose proof (Reachable_Inv2 Hr) as H2.
  unfold ready_state in H2s.
  destruct (nth_error (sockets (platform w)) id) as [s0|] eqn:E0;
    [|discriminate].
  destruct (inv_closing_flag H2 _ E0 H2s) as [Hclose Hping].
  assert (Hpend : pending (platform w) = 0).
  { pose proof (inv_pending HI) as Hle.
    destruct (pending (platform w)) as [|[|n]] eqn:Ep; [reflexivity| |lia].
    destruct (inv_quiet HI Ep) as [_ Hall].
    specialize (Hall _ _ E0). lia. }
  assert (Hint : intervals (platform w) = []).
  { destruct (intervals (platform w)) as [|h r] eqn:Ei; [reflexivity|].
    destruct (inv_interval_socket H2) as (j & sj & Hj & Hsj & Hlt);
      [rewrite Ei; discriminate|].
    rewrite Hid in Hj. injection Hj as <-. rewrite E0 in Hsj.
    injection Hsj as <-. lia. }
  rewrite track_spec. cbv zeta. rewrite Hid. unfold ready_state. rewrite E0.
  rewrite H2s. cbn.
  split; [reflexivity|].
  rewrite E0, H2s. cbn. unfold handle. rewrite _handleClose_spec. cbv zeta.
  cbn. rewrite Hclose, Hping. cbn.
  eexists. split; [reflexivity|]. cbn.
  split; [reflexivity|]. split.
  - eapply registered_In; [apply add_track_same|].
    apply in_or_app. right. now left.
  - intros e He.
    rewrite step_chain_plain by (destruct e; try discriminate; reflexivity).
    apply quiet_disabled; cbn; auto.
    intros i si. unfold set_socket. cbn. rewrite nth_error_set_nth.
    destruct (Nat.eqb_spec i id) as [->|Hne].
    + rewrite E0. cbn. now intros [= <-].
    + intros Hsi.
      destruct (Z.eq_dec (readyState si) 3) as [|H3]; [assumption|].
      pose proof (inv_single HI _ Hsi H3) as Hheld. congruence.
Qed.

(** The last topic has gone and the transport is closing when another
    topic is tracked. *)
Lemma track_while_closing_is_stranded_example :
  effects_of (track_chain "chat" "room2" 2 (after shut_down)) = []
  /\ exists w2,
       step_chain (world_of (track_chain "chat" "room2" 2 (after shut_down)))
                  (SocketClosed 0) = Some (w2, [])
       /\ __socket (vars w2) = SockNull
       /\ registered "chat" "room2" 2 (__services (vars w2)) = true
       /\ (forall e, is_call e = false -> step_chain w2 e = None).
Proof.
  exact (@track_while_closing_is_stranded "chat" "room2" 2 (after shut_down) 0
           (PlainReachable_after shut_down eq_refl eq_refl)
           eq_refl eq_refl eq_refl eq_refl).
Defined.


(* ================================================================ *)
(** ** Without a [WebSocket] constructor *)
(* ================================================================ *)

Lemma unsupported_step w e w' effs :
  unsupported w -> step w e = Some (w', effs) ->
  unsupported w'
  /\ length (handshakes effs) + handshakes_left w' <= handshakes_left w
  /\ length (reported effs) + (handshakes_left w' + requests (platform w'))
     <= handshakes_left w + requests (platform w)
  /\ created effs = [] /\ frames effs = []
  /\ started effs = [] /\ reconnects effs = []
  /\ (forall n m, In (n, m) (reported effs) ->
        n = "error" /\ m = "twoway: Websockets not supported").
Proof.
  intros (Hws & Hsock & Hint & Htime & Hobj) Hstep.
  unfold unsupported, handshakes_left.
  destruct e as [url|o|s k f|s k f|key| |id|id d|id|h|]; cbn in Hstep.
  - injection Hstep as <- <-. cbn. repeat split; auto; try lia; tauto.
  - injection Hstep as <- <-. cbn. repeat split; auto; try lia; tauto.
  - injection Hstep as <- <-. unfold handle. rewrite track_spec. cbv zeta.
    destruct (__socket (vars w)) as [| |id] eqn:Es; cbn;
      [| |now destruct (Hobj id)]; rewrite ?Es;
      repeat split; auto; try lia; try discriminate; tauto.
  - injection Hstep as <- <-. unfold handle. rewrite untrack_spec. cbv zeta.
    assert (Ho : open_socket w = None).
    { unfold open_socket. destruct (__socket (vars w)) as [| |id]; auto.
      now destruct (Hobj id). }
    rewrite Ho.
    destruct (__socket (vars w)) as [| |id] eqn:Es;
      [| |now destruct (Hobj id)];
      destruct (emptying s k f (__services (vars w)));
      destruct (removes_last s k f (__services (vars w)));
      destruct (__ping (vars w)); cbn; rewrite ?Es, ?Hint; cbn;
      repeat split; auto; try lia; try discriminate; tauto.
  - destruct (requests (platform w)) as [|n] eqn:Er; [discriminate|].
    injection Hstep as <- <-. unfold handle. rewrite _openSocket_then_spec.
    cbv zeta. cbn. rewrite Hws. cbn.
    repeat split; auto; try lia; try discriminate.
    all: match goal with
         | H : _ \/ False |- _ => destruct H as [[= <- <-]|[]]; reflexivity
         end.
  - destruct (requests (platform w)) as [|n] eqn:Er; [discriminate|].
    injection Hstep as <- <-. cbn.
    repeat split; auto; try lia; tauto.
  - rewrite Hsock in Hstep. now destruct id.
  - unfold ready_state in Hstep. rewrite Hsock in Hstep. now destruct id.
  - rewrite Hsock in Hstep. now destruct id.
  - rewrite Hint in Hstep. discriminate.
  - rewrite Htime in Hstep. discriminate.
Qed.

Lemma unsupported_run evs : forall w w' effs,
  unsupported w -> run w evs = Some (w', effs) ->
  unsupported w'
  /\ length (handshakes effs) + handshakes_left w' <= handshakes_left w
  /\ length (reported effs) + (handshakes_left w' + requests (platform w'))
     <= handshakes_left w + requests (platform w)
  /\ created effs = [] /\ frames effs = []
  /\ started effs = [] /\ reconnects effs = []
  /\ (forall n m, In (n, m) (reported effs) ->
        n = "error" /\ m = "twoway: Websockets not supported").
Proof.
  induction evs as [|e r IH]; intros w w' effs Hu Hrun; cbn in Hrun.
  - injection Hrun as <- <-. cbn. split; [assumption|].
    repeat split; auto; try lia; tauto.
  - destruct (step w e) as [[w1 e1]|] eqn:Es; [|discriminate].
    destruct (run w1 r) as [[w2 e2]|] eqn:Er; [|discriminate].
    injection Hrun as <- <-.
    destruct (@unsupported_step _ _ _ _ Hu Es)
      as (Hu1 & Hh1 & Hr1 & Hc1 & Hf1 & Hs1 & Ht1 & Hm1).
    destruct (IH _ _ _ Hu1 Er)
      as (Hu2 & Hh2 & Hr2 & Hc2 & Hf2 & Hs2 & Ht2 & Hm2).
    split; [assumption|].
    unfold handshakes, reported, created. rewrite !flat_map_app.
    fold (handshakes e1) (handshakes e2) (reported e1) (reported e2)
         (created e1) (created e2).
    rewrite frames_app, started_app, reconnects_app, !length_app.
    rewrite Hc1, Hc2, Hf1, Hf2, Hs1, Hs2, Ht1, Ht2.
    repeat split; auto; try lia.
    all: match goal with
         | H : In _ (_ ++ _) |- _ =>
             apply in_app_or in H as [H|H];
             [now apply Hm1 in H | now apply Hm2 in H]
         end.
Qed.

(** X12: on a platform without a [WebSocket] constructor the module
    requests the handshake at most once and reports at most once, with
    the message of the missing support: [__socket] stays [false], so no
    later [track] tries again; no socket is created, no frame is sent and
    no timer is set, whatever is tracked or untracked. *)
Theorem unsupported_platform_is_inert (evs : list Event) (w : World)
    (effs : list Effect) :
  run (boot false) evs = Some (w, effs) ->
  length (handshakes effs) <= 1
  /\ length (reported effs) <= 1
  /\ (forall n m, In (n, m) (reported effs) ->
        n = "error" /\ m = "twoway: Websockets not supported")
  /\ created effs = [] /\ frames effs = []
  /\ started effs = [] /\ reconnects effs = []
  /\ (forall id, __socket (vars w) <> SockObj id).
Proof.
  intros Hrun.
  assert (Hu : unsupported (boot false)).
  { unfold unsupported. cbn. repeat split; auto. discriminate. }
  destruct (@unsupported_run _ _ _ _ Hu Hrun)
    as (Hu' & Hh & Hr & Hc & Hf & Hs & Ht & Hm).
  unfold handshakes_left in *. cbn in Hh, Hr.
  destruct Hu' as (_ & _ & _ & _ & Hobj).
  repeat split; auto; try lia.
  - now apply Hm in H.
  - now apply Hm in H.
Qed.

Lemma unsupported_platform_is_inert_example :
  exists w effs,
    run (boot false) no_websocket = Some (w, effs)
    /\ length (handshakes effs) <= 1
    /\ reported effs = [("error", "twoway: Websockets not supported")].
Proof.
  destruct (run (boot false) no_websocket) as [[w effs]|] eqn:E;
    [|discriminate].
  exists w, effs. split; [reflexivity|].
  split; [exact (proj1 (@unsupported_platform_is_inert _ _ _ E))|].
  vm_compute in E. injection E as _ <-. reflexivity.
Defined.

(* ================================================================ *)
(** ** A reconnect that outlives the last topic *)
(* ================================================================ *)

Lemma length_set_nth {A} i (f : A -> A) l : length (set_nth i f l) = length l.
Proof.
  revert i. induction l as [|x r IH]; intros [|i]; cbn; auto.
Qed.

Lemma emptying_removes s k f R :
  emptying s k f R = true -> remove_track s k f R = [].
Proof.
  unfold emptying. intros H. apply andb_true_iff in H as [_ H].
  destruct (remove_track s k f R); [reflexivity | discriminate].
Qed.

(** X13: [untrack] does not cancel a reconnect that an unexpected close
    has scheduled (the names, of the history and of the call, are names
    that [Object.prototype] does not define).  If the last topic goes
    while the timeout is pending,
    the timeout still fires: the handshake is requested, a new socket is
    created, a new keepalive interval is started, and the open callback
    sends a batch that holds the connect frame alone; the module ends up
    with an open transport and an empty registry. *)
Theorem pending_reconnect_survives_shutdown (s k : string) (f : Callback)
    (w : World) (key : jsval) :
  PlainReachable w ->
  plain s = true -> plain k = true ->
  timeouts (platform w) = 1 ->
  has_WebSocket (platform w) = true ->
  emptying s k f (__services (vars w)) = true ->
  let w1 := world_of (untrack_chain s k f w) in
  let id := length (sockets (platform w)) in
  let h := next_timer (platform w) in
  exists w2,
    run_chain w1 [TimeoutFired; RestFulfilled key; SocketOpened id]
    = Some (w2, [RestRead "webpoll" "websocket";
                 NewWebSocket id (__url (vars w)) (__cookie (vars w));
                 SetInterval h 300000;
                 Send id (Batch [MsgConnect key])])
    /\ __services (vars w2) = []
    /\ __socket (vars w2) = SockObj id
    /\ ready_state id (platform w2) = 1%Z
    /\ intervals (platform w2) = [h].
Proof.
  intros Hplain Hps Hpk Htime Hws Hemp. cbv zeta.
  rewrite untrack_chain_plain by assumption. clear Hps Hpk.
  rewrite run_chain_plain by reflexivity.
  pose proof (Reachable_Inv (PlainReachable_Reachable Hplain)) as HI.
  assert (Hreq : requests (platform w) = 0).
  { pose proof (inv_pending HI). unfold pending in *. lia. }
  pose proof (stop_own_timer HI) as Hstop.
  rewrite untrack_spec. cbv zeta. rewrite Hemp.
  rewrite (emptying_removes _ _ _ _ Hemp). cbn [world_of fst snd].
  set (p1 := match __socket (vars w) with
             | SockObj j =>
                 set_socket j closing
                   (stop_timer (__ping (vars w)) (platform w))
             | _ => stop_timer (__ping (vars w)) (platform w)
             end).
  assert (Hp1 : has_WebSocket p1 = true /\ timeouts p1 = 1
                /\ requests p1 = 0 /\ intervals p1 = []
                /\ length (sockets p1) = length (sockets (platform w))
                /\ next_timer p1 = next_timer (platform w)).
  { subst p1. destruct (__socket (vars w)) as [| |j];
      destruct (__ping (vars w)); cbn in *;
      rewrite ?length_set_nth; auto 10. }
  destruct Hp1 as (P1 & P2 & P3 & P4 & P5 & P6).
  destruct p1 as [ws socks ints nt tos reqs]. cbn in *. subst.
  destruct (vars w) as [ping close cookie socket url R]. cbn.
  rewrite nth_error_app2 by lia. rewrite P5, Nat.sub_diag. cbn.
  eexists. split; [reflexivity|]. cbn.
  repeat split; auto.
  unfold ready_state. cbn. rewrite nth_error_set_nth, Nat.eqb_refl.
  rewrite nth_error_app2 by lia. rewrite P5, Nat.sub_diag. reflexivity.
Qed.

(** The connection has dropped; the only topic goes before the
    reconnect timeout fires. *)
Lemma pending_reconnect_survives_shutdown_example :
  exists w2,
    run_chain (world_of (untrack_chain "chat" "room1" 1 (after dropped)))
        [TimeoutFired; RestFulfilled (Some (JStr "k2")); SocketOpened 1]
    = Some (w2, [RestRead "webpoll" "websocket";
                 NewWebSocket 1 EmptyString EmptyString;
                 SetInterval 2%positive 300000;
                 Send 1 (Batch [MsgConnect (Some (JStr "k2"))])])
    /\ __services (vars w2) = []
    /\ __socket (vars w2) = SockObj 1
    /\ ready_state 1 (platform w2) = 1%Z
    /\ intervals (platform w2) = [2%positive].
Proof.
  exact (@pending_reconnect_survives_shutdown "chat" "room1" 1
           (after dropped) (Some (JStr "k2"))
           (PlainReachable_after dropped eq_refl eq_refl)
           eq_refl eq_refl eq_refl eq_refl eq_refl).
Defined.


(* ================================================================ *)
(** ** The cookie header *)
(* ================================================================ *)

Lemma count_char_app c a b :
  count_char c (a ++ b)%string = count_char c a + count_char c b.
Proof.
  induction a as [|x r IH]; cbn; [reflexivity|]. rewrite IH. lia.
Qed.

Lemma count_char_join c sep l :
  count_char c (join sep l)
  = list_sum (map (count_char c) l) + pred (length l) * count_char c sep.
Proof.
  induction l as [|x r IH]; [reflexivity|].
  destruct r as [|y r].
  - cbn. lia.
  - change (join sep (x :: y :: r))
      with (x ++ sep ++ join sep (y :: r))%string.
    rewrite !count_char_app, IH. cbn [map length pred Nat.mul].
    unfold list_sum. cbn [fold_right]. lia.
Qed.

Lemma hex_digits_unreserved c :
  unreserved (hex_char (nat_of_ascii c / 16)) = true
  /\ unreserved (hex_char (nat_of_ascii c mod 16)) = true.
Proof. destruct c as [[] [] [] [] [] [] [] []]; split; reflexivity. Qed.

Lemma unreserved_neq c d :
  unreserved c = true -> unreserved d = false -> Ascii.eqb c d = false.
Proof.
  intros Hc Hd. destruct (Ascii.eqb_spec c d) as [->|]; congruence.
Qed.

(** A reserved character never occurs in an encoded value. *)
Lemma encodeURIComponent_reserved d v :
  unreserved d = false -> Ascii.eqb "%" d = false ->
  count_char d (encodeURIComponent v) = 0.
Proof.
  intros Hd Hp. induction v as [|c r IH]; cbn [encodeURIComponent];
    [reflexivity|].
  destruct (unreserved c) eqn:Ec; cbn [count_char].
  - now rewrite (unreserved_neq _ _ Ec Hd), IH.
  - destruct (hex_digits_unreserved c) as [H1 H2].
    now rewrite Hp, (unreserved_neq _ _ H1 Hd), (unreserved_neq _ _ H2 Hd), IH.
Qed.

Lemma get_In {A} k (v : A) o : JSObject.get k o = Some v -> In (k, v) o.
Proof.
  induction o as [|[k0 v0] r IH]; cbn; [discriminate|].
  destruct (String.eqb_spec k k0) as [->|Hne].
  - intros [= ->]. now left.
  - intros H. right. auto.
Qed.

Lemma omap_In {A B} (o : JSObject.t A) (f : A -> string -> B) x :
  In x (omap o f) -> exists k v, In (k, v) o /\ x = f v k.
Proof.
  unfold omap. intros H. apply in_flat_map in H as (k & _ & Hk).
  destruct (JSObject.get k o) as [v|] eqn:E; [|destruct Hk].
  destruct Hk as [<-|[]]. exists k, v. split; [now apply get_In | reflexivity].
Qed.

Lemma flat_map_singletons {A B} (g : A -> list B) l :
  (forall x, In x l -> length (g x) = 1) -> length (flat_map g l) = length l.
Proof.
  induction l as [|x r IH]; cbn; [reflexivity|].
  intros H. rewrite length_app, IH, (H x) by auto. reflexivity.
Qed.

(** [omap] gives one element for each property. *)
Lemma omap_length {A B} (o : JSObject.t A) (f : A -> string -> B) :
  length (omap o f) = length o.
Proof.
  unfold omap. rewrite flat_map_singletons.
  - rewrite (Permutation_length (JSObjectFacts.for_in_keys_perm o)).
    unfold JSObject.own_keys. apply length_map.
  - intros k Hk. apply JSObjectFacts.for_in_keys_In in Hk.
    apply JSObjectFacts.has_get in Hk as (v & ->). reflexivity.
Qed.

Lemma list_sum_zero l : (forall x, In x l -> x = 0) -> list_sum l = 0.
Proof.
  induction l as [|x r IH]; [reflexivity|].
  intros H. unfold list_sum in *. cbn [fold_right].
  rewrite (H x) by (now left).
  rewrite IH; [reflexivity|]. intros y Hy. apply H. now right.
Qed.

(** X14: [cookies] percent-encodes every value, so a value never adds a
    semicolon to the header, whatever it contains: if no name holds a
    semicolon, the string stored in [__cookie] has exactly one semicolon
    between two consecutive pairs, that of the separator, and none for an
    empty or one-pair object.  Nothing else of the module is changed. *)
Theorem cookie_pairs_are_separated (o : JSObject.t string) (w : World) :
  (forall k v, In (k, v) o -> count_char ";" k = 0) ->
  let w' := world_of (cookies o w) in
  count_char ";" (__cookie (vars w')) = pred (length o)
  /\ with_cookie (__cookie (vars w)) (vars w') = vars w
  /\ platform w' = platform w
  /\ effects_of (cookies o w) = [].
Proof.
  intros Hnames. cbv zeta. unfold cookies, write, world_of, effects_of. cbn.
  split; [|split; [now destruct (vars w) | split; reflexivity]].
  unfold cookie_string. rewrite count_char_join, omap_length. cbn.
  rewrite list_sum_zero; [lia|].
  intros x Hx. apply in_map_iff in Hx as (e & <- & He).
  apply omap_In in He as (k & v & Hkv & ->).
  rewrite !count_char_app, (Hnames _ _ Hkv). cbn.
  now rewrite encodeURIComponent_reserved.
Qed.

Lemma cookie_pairs_are_separated_example :
  cookie_string [("session", "a;b c"); ("lang", "fr")]
  = "session=a%3Bb%20c; lang=fr"
  /\ count_char ";"
       (__cookie (vars (world_of
          (cookies [("session", "a;b c"); ("lang", "fr")] init_world)))) = 1.
Proof.
  split; [reflexivity|].
  refine (proj1 (@cookie_pairs_are_separated
                   [("session", "a;b c"); ("lang", "fr")] init_world _)).
  intros k v [[= <- _]|[[= <- _]|[]]]; reflexivity.
Defined.


(* ================================================================ *)
(** ** One reconnect for each authorization *)
(* ================================================================ *)

(** The flag is the only variable the budget depends on. *)
Ltac budget w := cbn; try (destruct (__close (vars w)); cbn); lia.

Lemma reconnect_budget_step w e w' effs :
  step w e = Some (w', effs) -> is_authorized e = false ->
  length (reconnects effs) + reconnects_left w' <= reconnects_left w.
Proof.
  intros Hstep Hauth. unfold reconnects_left.
  destruct e as [url|o|s k f|s k f|key| |id|id d|id|h|]; cbn in Hstep.
  - injection Hstep as <- <-. budget w.
  - injection Hstep as <- <-. budget w.
  - injection Hstep as <- <-. unfold handle. rewrite track_spec. cbv zeta.
    destruct (__socket (vars w)); cbn; try destruct (Z.eqb _ 1); budget w.
  - injection Hstep as <- <-. unfold handle. rewrite untrack_spec. cbv zeta.
    cbn. rewrite reconnects_app.
    destruct (emptying _ _ _ _), (removes_last _ _ _ _), (open_socket w),
      (__socket (vars w)); budget w.
  - destruct (requests (platform w)) as [|n]; [discriminate|].
    injection Hstep as <- <-. unfold handle. rewrite _openSocket_then_spec.
    cbv zeta. cbn.
    destruct (has_WebSocket (platform w)); [destruct (__ping (vars w))|];
      budget w.
  - destruct (requests (platform w)) as [|n]; [discriminate|].
    injection Hstep as <- <-. budget w.
  - destruct (nth_error (sockets (platform w)) id) as [s|]; [|discriminate].
    destruct (Z.eqb (readyState s) 0); [|discriminate].
    injection Hstep as <- <-. budget w.
  - destruct (Z.eqb (ready_state id (platform w)) 1); [|discriminate].
    injection Hstep as <- <-. unfold handle.
    rewrite _handleMessage_world.
    + rewrite _handleMessage_no_reconnect. budget w.
    + intros ->. discriminate.
  - destruct (nth_error (sockets (platform w)) id) as [s|]; [|discriminate].
    destruct (Z.eqb (readyState s) 3); [discriminate|].
    injection Hstep as <- <-. unfold handle. rewrite _handleClose_spec.
    cbv zeta. cbn.
    destruct (__close (vars w)) eqn:Ec, (__ping (vars w)); cbn;
      rewrite ?Ec; cbn; lia.
  - destruct (existsb _ _); [|discriminate].
    injection Hstep as <- <-. unfold handle. rewrite _ping_spec.
    destruct (__socket (vars w)); budget w.
  - destruct (timeouts (platform w)) as [|n]; [discriminate|].
    injection Hstep as <- <-. budget w.
Qed.

(** X15: no reconnect storm.  Along a run in which the backend's
    [authorized] is never delivered, at most one reconnect is scheduled,
    and none if the intentional-close flag is set at the start: every
    reconnect is paid for by an authorization. *)
Theorem one_reconnect_per_authorization (evs : list Event) (w w' : World)
    (effs : list Effect) :
  run w evs = Some (w', effs) ->
  existsb is_authorized evs = false ->
  length (reconnects effs) + reconnects_left w' <= reconnects_left w.
Proof.
  revert w w' effs. induction evs as [|e r IH]; intros w w' effs Hrun Hno;
    cbn in Hrun.
  - injection Hrun as <- <-. cbn. lia.
  - destruct (step w e) as [[w1 e1]|] eqn:Es; [|discriminate].
    destruct (run w1 r) as [[w2 e2]|] eqn:Er; [|discriminate].
    injection Hrun as <- <-. cbn in Hno.
    apply orb_false_iff in Hno as [He Hr].
    pose proof (reconnect_budget_step _ _ Es He) as H1.
    pose proof (IH _ _ _ Er Hr) as H2.
    rewrite reconnects_app, length_app. lia.
Qed.

(** The second drop of [dropped_twice] schedules nothing. *)
Lemma one_reconnect_per_authorization_example :
  exists w' effs,
    run (after connected) dropped_twice = Some (w', effs)
    /\ length (reconnects effs) + reconnects_left w'
       <= reconnects_left (after connected)
    /\ reconnects effs = [5000%Z]
    /\ __socket (vars w') = SockNull.
Proof.
  destruct (run (after connected) dropped_twice) as [[w' effs]|] eqn:E;
    [|discriminate].
  exists w', effs. split; [reflexivity|].
  split; [exact (@one_reconnect_per_authorization dropped_twice
                   (after connected) w' effs E eq_refl)|].
  vm_compute in E. injection E as <- <-. split; reflexivity.
Defined.

(* ================================================================ *)
(** ** The URL and the cookie header of a socket *)
(* ================================================================ *)

(** X16: [init] and [cookies] send nothing and touch no transport.  The
    URL and the cookie header they store are read when a handshake is
    answered: the socket then created is the first to use them, whatever
    was set when [track] asked for the handshake. *)
Theorem init_and_cookies_apply_at_next_socket (url : string)
    (o : JSObject.t string) (key : jsval) (w w' : World)
    (effs : list Effect) :
  let w1 := world_of (cookies o (world_of (init url w))) in
  step w1 (RestFulfilled key) = Some (w', effs) ->
  has_WebSocket (platform w) = true ->
  effects_of (init url w) = []
  /\ effects_of (cookies o (world_of (init url w))) = []
  /\ platform w1 = platform w
  /\ __socket (vars w1) = __socket (vars w)
  /\ exists later,
       effs = NewWebSocket (length (sockets (platform w))) url
                           (cookie_string o) :: later
       /\ created later = [].
Proof.
  cbv zeta. intros Hstep Hws.
  split; [reflexivity|]. split; [reflexivity|].
  split; [reflexivity|]. split; [reflexivity|].
  cbn in Hstep.
  destruct (requests (platform w)) as [|n]; [discriminate|].
  injection Hstep as _ <-. unfold handle. rewrite _openSocket_then_spec.
  cbv zeta. cbn. rewrite Hws.
  destruct (__ping (vars w)); cbn; eexists; split; reflexivity.
Qed.

Lemma init_and_cookies_apply_at_next_socket_example :
  exists later,
    effects_of (_openSocket_then (Some (JStr "k1"))
      (on_platform (with_requests 0)
         (world_of (cookies [("session", "a;b c")]
            (world_of (init "wss://example.test/ws" (after first_track)))))))
    = NewWebSocket 0 "wss://example.test/ws" "session=a%3Bb%20c" :: later
    /\ created later = [].
Proof.
  destruct (@init_and_cookies_apply_at_next_socket
              "wss://example.test/ws" [("session", "a;b c")]
              (Some (JStr "k1")) (after first_track) _ _ eq_refl eq_refl)
    as (_ & _ & _ & _ & H).
  exact H.
Defined.


(* ================================================================ *)
(** ** Error frames, and frames that name no topic *)
(* ================================================================ *)

Lemma parsed_is_data s o :
  JSON_parse s = inr o ->
  String.eqb s "authorized" = false /\ String.eqb s "pong" = false.
Proof.
  intros H. split.
  - destruct (String.eqb_spec s "authorized") as [->|]; [|reflexivity].
    vm_compute in H. discriminate.
  - destruct (String.eqb_spec s "pong") as [->|]; [|reflexivity].
    vm_compute in H. discriminate.
Qed.

(** X17: a frame whose [error] member is truthy is reported and never
    dispatched, even when it also names a registered topic: no callback
    is called and nothing changes; when the [msg] and the [code] of the
    error convert to strings the handler returns after exactly one
    report, [twoway: Websocket failed: msg (code)]. *)
Theorem error_frame_is_never_dispatched (sock : SocketId) (s : string)
    (o : value) (err : jsval) (w : World) :
  JSON_parse s = inr o ->
  prop o "error" = Some err ->
  truthy err = Some true ->
  let r := _handleMessage sock (DString s) w in
  world_of r = w
  /\ invoked (effects_of r) = []
  /\ (forall e m c sm sc,
        err = Some e ->
        prop e "msg" = Some m -> to_string m = Some sm ->
        prop e "code" = Some c -> to_string c = Some sc ->
        r = (Return tt, w, [Trigger "error" (websocket_failed sm sc)])).
Proof.
  intros Hparse Herr Htrue. cbv zeta.
  destruct (parsed_is_data _ Hparse) as [Ha Hp].
  unfold _handleMessage. rewrite Ha, Hp, Hparse.
  unfold route, read_prop, to_bool, to_str. unfold_m. cbn.
  rewrite Herr. cbn. rewrite Htrue. cbn.
  destruct err as [e|]; [|discriminate].
  destruct (prop e "msg") as [m|] eqn:Em; cbn;
    [|repeat split; auto; intros; congruence].
  destruct (to_string m) as [sm|] eqn:Esm; cbn;
    [|repeat split; auto; intros; congruence].
  destruct (prop e "code") as [c|] eqn:Ec; cbn;
    [|repeat split; auto; intros; congruence].
  destruct (to_string c) as [sc|] eqn:Esc; cbn;
    [|repeat split; auto; intros; congruence].
  repeat split; auto. intros e' m' c' sm' sc' [= <-].
  rewrite Em. intros [= <-]. rewrite Esm. intros [= <-].
  rewrite Ec. intros [= <-]. rewrite Esc. intros [= <-]. reflexivity.
Qed.

Lemma error_frame_is_never_dispatched_example :
  _handleMessage 0 (DString error_with_topic) (after two_listeners)
  = (Return tt, after two_listeners,
     [Trigger "error" "twoway: Websocket failed: denied (403)"]).
Proof.
  destruct (@error_frame_is_never_dispatched 0 error_with_topic
              (JObj [("error", JObj [("code", JNum "403");
                                     ("msg", JStr "denied")]);
                     ("service", JStr "chat"); ("key", JStr "room1")])
              (Some (JObj [("code", JNum "403"); ("msg", JStr "denied")]))
              (after two_listeners) eq_refl eq_refl eq_refl)
    as (_ & _ & H).
  exact (H _ _ _ _ _ eq_refl eq_refl eq_refl eq_refl eq_refl).
Defined.

(** X18: the service and the key of a frame are used as property names,
    so they are converted to strings: a member that is missing reads as
    [undefined], [null] as [null], an integer as its decimal numeral.
    When the converted names are names that [Object.prototype] does not
    define, the callbacks called are those registered under them, in
    list order, with the [data] member ([undefined] when missing); none
    is called when the service or the key is not registered, and the
    handler returns normally either way. *)
Theorem dispatch_converts_names (sock : SocketId) (s : string)
    (m : JSObject.t value) (service key : string) (w : World) :
  JSON_parse s = inr (JObj m) ->
  truthy (JSObject.get "error" m) = Some false ->
  to_string (JSObject.get "service" m) = Some service ->
  plain service = true ->
  to_string (JSObject.get "key" m) = Some key ->
  plain key = true ->
  _handleMessage_chain sock (DString s) w
  = (Return tt, w,
     map (fun f => Invoke f (JSObject.get "data" m))
         (listeners service key (__services (vars w)))).
Proof.
  intros Hparse Herr Hs Hps Hk Hpk.
  destruct (parsed_is_data _ Hparse) as [Ha Hp].
  unfold _handleMessage_chain. rewrite Ha, Hp, Hparse.
  rewrite (@route_chain_plain m service key w Hs Hps Hk Hpk).
  unfold route, read_prop, to_bool, to_str, listeners, callbacks_of.
  unfold_m. cbn. rewrite Herr. cbn. rewrite Hs. cbn.
  destruct (JSObject.get service (__services (vars w))) as [keys|];
    [|reflexivity].
  cbn. rewrite Hk. cbn.
  destruct (JSObject.get key keys) as [l|]; [|reflexivity].
  now rewrite call_each_spec.
Qed.

(** The frame [{}] reaches the listener of [undefined_topic]. *)
Lemma dispatch_converts_names_example :
  _handleMessage_chain 0 (DString "{}") (after undefined_topic)
  = (Return tt, after undefined_topic, [Invoke 7 None]).
Proof.
  exact (@dispatch_converts_names 0 "{}" [] "undefined" "undefined"
           (after undefined_topic) eq_refl eq_refl eq_refl eq_refl
           eq_refl eq_refl).
Defined.

End TwoWayMoreProps.
